(** * Cinema Components: data model, parser, selection engine and pick codec

    A shallow embedding of the data-related parts of
    [examples/lib/CinemaComponents.js]: the pick-index colour codec of
    the canvas components, the CSV parser, the [Database] constructor with
    its type and domain inference, the similarity query, the check of the
    axis ordering file, the brush selection engine of the
    parallel-coordinates component with the sections of its paths, and
    the drawing schedule, the picking and the mouse listener of its
    canvas variant.

    JavaScript objects used as maps are [gmap string _], read and
    written as plain objects are: a name that is no property of the
    object finds the member of [Object.prototype] of that name, and
    nothing is stored under [__proto__].  Arrays are lists; a thrown
    exception is an [outcome] of its own; the event dispatcher is a log
    of events carried in the component state. *)

From Stdlib Require Import ZArith QArith Qabs Ascii String List Lia.
From stdpp Require Import base option list gmap strings fin_maps pretty sorting.

Set Default Proof Using "Type".

(* ================================================================== *)
(** * Pick-index codec ([indexToColor] / [colorToIndex]) *)
(* ================================================================== *)

Module Codec.

Local Open Scope Z_scope.

(** The three colour channels of a canvas pixel (the alpha channel is
    sliced away before [colorToIndex] is called). *)
Record rgb : Type := RGB { red : Z; green : Z; blue : Z }.

Definition white : rgb := RGB 255 255 255.

(** The channels computed by [indexToColor].  Indices are integers, on
    which the double arithmetic of the source is exact;
    [Math.floor(i/256/256)] divides twice by a power of two, so it is
    the floor of the quotient by [256*256]. *)
Definition indexToRGB (i : Z) : rgb :=
  if 256 * 256 * 256 <? i then white
  else
    let i := i + 1 in
    let b := i / (256 * 256) in
    let g := (i - b * 256 * 256) / 256 in
    let r := i - b * 256 * 256 - g * 256 in
    RGB r g b.

(** ['rgb('+r+','+g+','+b+')'] *)
Definition css (c : rgb) : string :=
  ("rgb(" +:+ pretty (red c) +:+ "," +:+ pretty (green c)
          +:+ "," +:+ pretty (blue c) +:+ ")")%string.

(** [indexToColor]: the CSS colour string handed to the canvas. *)
Definition indexToColor (i : Z) : string := css (indexToRGB i).

(** [colorToIndex]: [(rgb[0] + rgb[1]*256 + rgb[2]*256*256) - 1]. *)
Definition colorToIndex (c : rgb) : Z :=
  (red c + green c * 256 + blue c * 256 * 256) - 1.

(** A channel value that an 8-bit canvas pixel can hold. *)
Definition is_channel (x : Z) : Prop := 0 <= x <= 255.

Definition valid_rgb (c : rgb) : Prop :=
  is_channel (red c) /\ is_channel (green c) /\ is_channel (blue c).

End Codec.

(* ================================================================== *)
(** * Outcomes of running a function *)
(* ================================================================== *)

(** A call returns a value, throws (the only exception the modelled code
    can raise is a [TypeError], from a property access on [undefined]),
    or is cut off because the iteration budget of the model is used up. *)
Inductive outcome (A : Type) : Type :=
  | Returns (a : A)
  | TypeError
  | OutOfFuel.

Arguments Returns {A} a.
Arguments TypeError {A}.
Arguments OutOfFuel {A}.

Definition obind {A B : Type} (m : outcome A) (k : A -> outcome B) : outcome B :=
  match m with
  | Returns a => k a
  | TypeError => TypeError
  | OutOfFuel => OutOfFuel
  end.

#[global] Instance outcome_ret : MRet outcome := @Returns.
#[global] Instance outcome_bind : MBind outcome := fun A B k m => obind m k.

(** [list.forEach(f)] where the callback updates a state and may throw. *)
Fixpoint forEach {A St : Type} (f : A -> St -> outcome St) (l : list A) (s : St)
  : outcome St :=
  match l with
  | [] => Returns s
  | a :: l' => s' ← f a s; forEach f l' s'
  end.

(** [list.forEach(function(x, index) ...)], the index counted from [i]. *)
Fixpoint forEachIndexed {A St : Type} (f : A -> nat -> St -> outcome St)
  (i : nat) (l : list A) (s : St) : outcome St :=
  match l with
  | [] => Returns s
  | a :: l' => s' ← f a i s; forEachIndexed f (S i) l' s'
  end.

(** The indices, counted from [i], of the elements of [l] that pass the
    test [P], in increasing order. *)
Fixpoint indices_where {A : Type} (P : A -> bool) (i : nat) (l : list A)
  : list nat :=
  match l with
  | [] => []
  | a :: l' => (if P a then [i] else []) ++ indices_where P (S i) l'
  end.

(* ================================================================== *)
(** * The CSV parser ([parseCSV]) *)
(* ================================================================== *)

Module CSV.

(** Characters are the code units of the text, restricted to one byte. *)
Definition COMMA : ascii := ascii_of_nat 44.
Definition DQUOTE : ascii := ascii_of_nat 34.
Definition CR : ascii := ascii_of_nat 13.
Definition LF : ascii := ascii_of_nat 10.

(** A cell of the parsed grid: [undefined] or a string. *)
Abbreviation cell := (option string).
Abbreviation grid := (list (list cell)).

(** Which of the two value groups of the regular expression took part
    in a match: group 2 (the text between the outer quotes) or group 3. *)
Inductive capture : Type :=
  | Quoted (quotedValue : string)
  | Unquoted (value : string).

(** One result of [csvRegex.exec]: group 1 and the value group. *)
Record rmatch : Type := Match { delimiter : string; captured : capture }.

(** Group 1 of the expression, tried at the head of [s]: a comma, a line
    feed with or without a carriage return before it, a carriage return,
    or the start of the text, tried in this order.  [at_start]
    tells whether the head of [s] is index 0 of the text, where [^]
    matches.  Returns the delimiter and the text after it. *)
Definition match_delimiter (at_start : bool) (s : string)
  : option (string * string) :=
  match s with
  | String c r =>
      if Ascii.eqb c COMMA then Some (String COMMA EmptyString, r)
      else if Ascii.eqb c CR then
        match r with
        | String c' r' =>
            if Ascii.eqb c' LF
            then Some (String CR (String LF EmptyString), r')
            else Some (String CR EmptyString, r)
        | EmptyString => Some (String CR EmptyString, r)
        end
      else if Ascii.eqb c LF then Some (String LF EmptyString, r)
      else if at_start then Some (EmptyString, s) else None
  | EmptyString => if at_start then Some (EmptyString, s) else None
  end.

(** The rest of the quoted alternative, matched against the text after
    an opening quote: a run of characters other than the double quote,
    then any number of times a pair of double quotes and such a run,
    then the closing quote.  The backtracking of the regular expression
    is followed: a pair of quotes is taken as an escaped quote first, and
    as a closing quote followed by another character only when no closing
    quote is found further on.  Returns group 2 and the text after the
    closing quote. *)
Fixpoint quoted_body (s : string) : option (string * string) :=
  match s with
  | EmptyString => None
  | String c r =>
      if Ascii.eqb c DQUOTE then
        match r with
        | String c' r' =>
            if Ascii.eqb c' DQUOTE then
              match quoted_body r' with
              | Some (q, rest) => Some (String DQUOTE (String DQUOTE q), rest)
              | None => Some (EmptyString, r)
              end
            else Some (EmptyString, r)
        | EmptyString => Some (EmptyString, r)
        end
      else
        match quoted_body r with
        | Some (q, rest) => Some (String c q, rest)
        | None => None
        end
  end.

Definition is_separator (c : ascii) : bool :=
  Ascii.eqb c COMMA || Ascii.eqb c CR || Ascii.eqb c LF.

(** The unquoted alternative, greedy: group 3 (the longest run without
    comma, carriage return and line feed) and the text after it. *)
Fixpoint unquoted_body (s : string) : string * string :=
  match s with
  | EmptyString => (EmptyString, EmptyString)
  | String c r =>
      if is_separator c then (EmptyString, s)
      else let (v, rest) := unquoted_body r in (String c v, rest)
  end.

(** The value part of the expression: the quoted alternative first, the
    unquoted one when that fails. *)
Definition match_value (s : string) : capture * string :=
  match s with
  | String c r =>
      if Ascii.eqb c DQUOTE then
        match quoted_body r with
        | Some (q, rest) => (Quoted q, rest)
        | None => let (v, rest) := unquoted_body s in (Unquoted v, rest)
        end
      else let (v, rest) := unquoted_body s in (Unquoted v, rest)
  | EmptyString => (Unquoted EmptyString, EmptyString)
  end.

(** [csvRegex.exec(csvText)] with the [g] flag, [s] being the text from
    [lastIndex] on: the first position at or after [lastIndex] where
    the expression matches.  Returns the match and the text from the
    new [lastIndex] on, or [None] for [null]. *)
Fixpoint exec (at_start : bool) (s : string) : option (rmatch * string) :=
  match match_delimiter at_start s with
  | Some (d, r) => let (c, rest) := match_value r in Some (Match d c, rest)
  | None =>
      match s with
      | EmptyString => None
      | String _ s' => exec false s'
      end
  end.

(** [s.replace(/qq/g, q)] with [q] the double quote: every pair of
    quotes, found from left to right, becomes one quote. *)
Fixpoint unescape (s : string) : string :=
  match s with
  | EmptyString => EmptyString
  | String a t =>
      match t with
      | String b s' =>
          if Ascii.eqb a DQUOTE && Ascii.eqb b DQUOTE
          then String DQUOTE (unescape s')
          else String a (unescape t)
      | EmptyString => String a EmptyString
      end
  end.

(** [data[data.length-1].push(c)]: a [TypeError] on an empty [data]. *)
Definition push_cell (data : grid) (c : cell) : outcome grid :=
  match last data with
  | Some row => Returns (<[pred (length data) := row ++ [c]]> data)
  | None => TypeError
  end.

(** The cell a match decodes to (the two [push] branches). *)
Definition decode (c : capture) : cell :=
  match c with
  | Quoted quotedValue => Some (unescape quotedValue)
  | Unquoted value =>
      if String.eqb value EmptyString then None else Some (unescape value)
  end.

(** The body of the [while] loop for one match. *)
Definition add_match (m : rmatch) (data : grid) : outcome grid :=
  let data :=
    if String.eqb (delimiter m) (String COMMA EmptyString) then data
    else data ++ [[]] in
  push_cell data (decode (captured m)).

(** The [while (matches = csvRegex.exec(csvText))] loop.  [lastIndex]
    stays 0 exactly when it was 0 and the match was empty. *)
Fixpoint parse_loop (fuel : nat) (at_start : bool) (s : string) (data : grid)
  : outcome grid :=
  match fuel with
  | O => OutOfFuel
  | S fuel' =>
      match exec at_start s with
      | None => Returns data
      | Some (m, rest) =>
          data' ← add_match m data;
          parse_loop fuel' (at_start && (String.length rest =? String.length s))
                     rest data'
      end
  end.

(** The removal of a last line that is a single [undefined]. *)
Definition drop_stray_line (data : grid) : grid :=
  match last data with
  | Some [None] => if 1 <? length data then take (pred (length data)) data else data
  | _ => data
  end.

Definition parseCSV (csvText : string) : outcome grid :=
  if String.eqb csvText EmptyString then Returns []
  else
    data ← parse_loop (S (String.length csvText)) true csvText [];
    Returns (drop_stray_line data).

(** All matches the loop goes through (the loop without its body). *)
Fixpoint all_matches (fuel : nat) (at_start : bool) (s : string) : list rmatch :=
  match fuel with
  | O => []
  | S fuel' =>
      match exec at_start s with
      | None => []
      | Some (m, rest) =>
          m :: all_matches fuel'
                 (at_start && (String.length rest =? String.length s)) rest
      end
  end.

Definition matches_of (csvText : string) : list rmatch :=
  if String.eqb csvText EmptyString then []
  else all_matches (S (String.length csvText)) true csvText.

(** Text building blocks for examples. *)
Definition nl : string := String LF EmptyString.
Definition quote (s : string) : string :=
  String DQUOTE (s +:+ String DQUOTE EmptyString).

End CSV.

(* ================================================================== *)
(** * JavaScript numbers and values *)
(* ================================================================== *)

(** The number arithmetic of the language, as an interface: the code is
    modelled over any implementation of it, so what is proved of the code
    does not depend on how doubles round.  [Ideal] below implements it
    with exact rationals for running the code on concrete inputs. *)
Class JSNumber : Type := {
  num : Type;
  (** literals *)
  of_Z : Z -> num;
  NaN : num;
  (** the global [isNaN] on a number, and [Number.isInteger] *)
  num_isNaN : num -> bool;
  num_isInteger : num -> bool;
  (** [+], [-], [*], [/], [Math.abs], [Math.min], [Math.max] *)
  add : num -> num -> num;
  sub : num -> num -> num;
  mul : num -> num -> num;
  div : num -> num -> num;
  Math_abs : num -> num;
  num_min : num -> num -> num;
  num_max : num -> num -> num;
  (** [<=] and [==] / [===] between numbers *)
  num_le : num -> num -> bool;
  num_eq : num -> num -> bool;
  (** the conversion of a string to a number *)
  StringToNumber : string -> num
}.

(** The text that a member of [Object.prototype] converts to, which [==]
    compares with a string.  For a built-in function the language leaves
    the spacing of this text to the engine, so it is an interface too. *)
Class Builtins : Type := {
  member_text : string -> string
}.

Module JS.
Section Values.

Context {N : JSNumber} {B : Builtins}.

(** The values that occur in rows, queries and scales: the primitive
    ones, and the members of [Object.prototype] (its functions and, for
    [__proto__], the prototype itself), which a plain object gives for a
    property of that name that it does not have itself. *)
Inductive value : Type :=
  | Undefined
  | Str (s : string)
  | Num (n : num)
  | Builtin (name : string).

(** A cell of the parsed grid as a value. *)
Definition of_cell (c : CSV.cell) : value :=
  match c with
  | Some s => Str s
  | None => Undefined
  end.

(** The conversion to a number.  A member of [Object.prototype] is
    converted through its text, which is no numeric literal. *)
Definition ToNumber (v : value) : num :=
  match v with
  | Undefined => NaN
  | Str s => StringToNumber s
  | Num n => n
  | Builtin _ => NaN
  end.

(** The global [isNaN(v)]: converts, then tests. *)
Definition isNaN (v : value) : bool :=
  match v with
  | Builtin _ => true
  | _ => num_isNaN (ToNumber v)
  end.

(** [Number.isInteger(v)]: no conversion, [false] on a non-number. *)
Definition Number_isInteger (v : value) : bool :=
  match v with
  | Num n => num_isInteger n
  | _ => false
  end.

(** The truth value of [v] in a condition. *)
Definition truthy (v : value) : bool :=
  match v with
  | Undefined => false
  | Str s => negb (String.eqb s EmptyString)
  | Num n => negb (num_eq n (of_Z 0)) && negb (num_isNaN n)
  | Builtin _ => true
  end.

(** [v === undefined] *)
Definition is_undefined (v : value) : bool :=
  match v with
  | Undefined => true
  | _ => false
  end.

(** [a == b].  Two objects are equal when they are the same object; an
    object is compared with a string through its text, and with a number
    through the number its text converts to. *)
Definition loose_eq (a b : value) : bool :=
  match a, b with
  | Undefined, Undefined => true
  | Str s, Str t => String.eqb s t
  | Num m, Num n => num_eq m n
  | Str s, Num n => num_eq (StringToNumber s) n
  | Num n, Str s => num_eq n (StringToNumber s)
  | Builtin a, Builtin b => String.eqb a b
  | Builtin a, Str s => String.eqb (member_text a) s
  | Str s, Builtin a => String.eqb s (member_text a)
  | Builtin a, Num n => num_eq NaN n
  | Num n, Builtin a => num_eq n NaN
  | _, _ => false
  end.

(** [a <= b] where [a] is a number: [b] is converted. *)
Definition le_value (a : num) (b : value) : bool := num_le a (ToNumber b).

(** [a - b], [Math.min(a,b)], [Math.max(a,b)] on values. *)
Definition minus (a b : value) : num := sub (ToNumber a) (ToNumber b).
Definition Math_min (a b : value) : value :=
  Num (num_min (ToNumber a) (ToNumber b)).
Definition Math_max (a b : value) : value :=
  Num (num_max (ToNumber a) (ToNumber b)).

(** [s.toUpperCase()] on the letters a to z.  The source only compares
    the result with a word of capital letters, which no other character
    maps into. *)
Definition upper_char (c : ascii) : ascii :=
  let n := nat_of_ascii c in
  if (97 <=? n)%nat && (n <=? 122)%nat then ascii_of_nat (n - 32) else c.

Fixpoint toUpperCase (s : string) : string :=
  match s with
  | EmptyString => EmptyString
  | String c r => String (upper_char c) (toUpperCase r)
  end.

(** The names of the properties of [Object.prototype] in the browsers
    the library runs in. *)
Definition Object_prototype : list string :=
  [ "constructor"; "__defineGetter__"; "__defineSetter__"; "hasOwnProperty";
    "__lookupGetter__"; "__lookupSetter__"; "isPrototypeOf";
    "propertyIsEnumerable"; "toString"; "valueOf"; "__proto__";
    "toLocaleString" ].

(** What a plain object gives for a property it does not have itself:
    the member of its prototype, [undefined] when there is none. *)
Definition inherited (k : string) : value :=
  if existsb (String.eqb k) Object_prototype then Builtin k else Undefined.

(** [o[k]] on a plain object ([{}] or an object literal), [o] being its
    own properties. *)
Definition get (o : gmap string value) (k : string) : value :=
  match o !! k with
  | Some v => v
  | None => inherited k
  end.

(** [o[k] = v] on a plain object, [v] being a primitive value: the name
    [__proto__] is an accessor of the prototype whose setter ignores a
    primitive value, so nothing is stored; any other name becomes a
    property of the object itself. *)
Definition set (k : string) (v : value) (o : gmap string value)
  : gmap string value :=
  if String.eqb k "__proto__" then o else <[k := v]> o.

(** Reading index [i] of an array. *)
Definition at_index (a : list value) (i : nat) : value :=
  default Undefined (a !! i).

(** The property name a cell is converted to when used as a key. *)
Definition to_key (c : CSV.cell) : string :=
  match c with
  | Some s => s
  | None => "undefined"
  end.

End Values.
End JS.

(* ================================================================== *)
(** * The database ([CINEMA_COMPONENTS.Database]) *)
(* ================================================================== *)

Module Database.
Section Database.

Context {N : JSNumber} {B : Builtins}.
Import JS.

Inductive DIMENSION_TYPE : Type := INTEGER | FLOAT | STRING.

#[global] Instance DIMENSION_TYPE_eq_dec : EqDecision DIMENSION_TYPE.
Proof. solve_decision. Defined.

Record t : Type := Build {
  data : list (gmap string value);
  dimensions : list string;
  dimensionTypes : gmap string DIMENSION_TYPE;
  dimensionDomains : gmap string (list value)
}.

(** [checkErrors]: the message of the first error found, if any. *)
Definition checkErrors (data : CSV.grid) : option string :=
  if (length data <? 2)%nat
  then Some "The first and second lines in the file are required."
  else
    let header := default [] (data !! 0%nat) in
    if (length header <? 2)%nat
    then Some "The dataset must include at least two dimensions"
    else if existsb (fun c => is_undefined (of_cell c)) header
    then Some "Empty values may not occur in the header (first line)."
    else if existsb (fun row => negb (length row =? length header)%nat) data
    then Some "Each line must have an equal number of comma separated values (columns)."
    else None.

(** One row as an object: [dimensions.forEach(function(p,i){obj[p] = d[i];})]. *)
Fixpoint row_object (dims : list CSV.cell) (i : nat) (d : list CSV.cell)
  (obj : gmap string value) : gmap string value :=
  match dims with
  | [] => obj
  | p :: dims' =>
      row_object dims' (S i) d
        (set (to_key p) (of_cell (default None (d !! i))) obj)
  end.

(** The loop that looks for a value to take the type from: the value of
    the first row whose value is truthy, [val] when there is none. *)
Fixpoint sample_value (d : string) (rows : list (gmap string value))
  (val : value) : value :=
  match rows with
  | [] => val
  | row :: rows' =>
      if truthy (get row d) then get row d else sample_value d rows' val
  end.

(** [val && (!isNaN(val) || val.toUpperCase() === NAN)].  The method is
    reached with a truthy value that converts to no number; only a string
    has it, on any other value the call throws. *)
Definition looks_numeric (val : value) : outcome bool :=
  if truthy val then
    if negb (isNaN val) then Returns true
    else
      match val with
      | Str s => Returns (String.eqb (toUpperCase s) "NAN")
      | _ => TypeError
      end
  else Returns false.

(** The rows from the first one whose value is not NaN on. *)
Fixpoint skip_NaN (d : string) (rows : list (gmap string value))
  : list (gmap string value) :=
  match rows with
  | [] => []
  | row :: rows' => if isNaN (get row d) then skip_NaN d rows' else rows
  end.

(** The loop over [j] that folds the minimum and maximum. *)
Fixpoint extrema (d : string) (rows : list (gmap string value))
  (min max : value) : value * value :=
  match rows with
  | [] => (min, max)
  | row :: rows' =>
      if negb (isNaN (get row d))
      then extrema d rows' (Math_min min (get row d)) (Math_max max (get row d))
      else extrema d rows' min max
  end.

Definition numeric_domain (d : string) (rows : list (gmap string value))
  : list value :=
  match skip_NaN d rows with
  | [] => [Num (of_Z 0); Num (of_Z 0)]
  | (row :: _) as rest =>
      let (min, max) := extrema d rest (get row d) (get row d) in
      [min; max]
  end.

(** The body of [self.dimensions.forEach] that fills in the type and the
    domain of dimension [d]. *)
Definition infer_dimension (d : string) (self : t) : outcome t :=
  match data self with
  | [] => TypeError
  | row0 :: _ =>
      let val := sample_value d (data self) (get row0 d) in
      numeric ← looks_numeric val;
      if numeric : bool then
        let ty := if isNaN val || negb (Number_isInteger val)
                  then FLOAT else INTEGER in
        Returns (Build (data self) (dimensions self)
                   (<[d := ty]> (dimensionTypes self))
                   (<[d := numeric_domain d (data self)]> (dimensionDomains self)))
      else
        Returns (Build (data self) (dimensions self)
                   (<[d := STRING]> (dimensionTypes self))
                   (<[d := map (fun p => get p d) (data self)]>
                      (dimensionDomains self)))
  end.

(** What the constructor leaves behind: an error message, or the
    loaded database. *)
Inductive loaded : Type :=
  | Failed (error : string)
  | Loaded (self : t).

(** The callback of the constructor that receives the parsed
    [data.csv] (the axis ordering file is read afterwards and does not
    change the fields modelled here). *)
Definition build (data_arr : CSV.grid) : outcome loaded :=
  match checkErrors data_arr with
  | Some error => Returns (Failed error)
  | None =>
      match data_arr with
      | [] => TypeError
      | header :: lines =>
          let dims := map to_key header in
          let rows := map (fun d => row_object header 0 d ∅) lines in
          self ← forEach infer_dimension dims (Build rows dims ∅ ∅);
          Returns (Loaded self)
      end
  end.

(** Loading from the text of [data.csv]. *)
Definition load (csvText : string) : outcome loaded :=
  data_arr ← CSV.parseCSV csvText;
  build data_arr.

(** [isStringDimension] *)
Definition isStringDimension (self : t) (dimension : string) : bool :=
  bool_decide (dimensionTypes self !! dimension = Some STRING).

(** [getNormalizedValue] *)
Definition getNormalizedValue (val min max : value) : num :=
  if num_eq (minus max min) (of_Z 0) then of_Z 0
  else div (minus val min) (minus max min).

(** [extent[0]] and [extent[1]] for [extent = self.dimensionDomains[d]].
    Where no domain is stored, [extent] is [undefined] and reading its
    property throws, unless [d] names a member of [Object.prototype]:
    that member is found instead, and it has neither property. *)
Definition domain_ends (self : t) (d : string) : outcome (value * value) :=
  match dimensionDomains self !! d with
  | Some extent => Returns (at_index extent 0, at_index extent 1)
  | None =>
      if existsb (String.eqb d) Object_prototype
      then Returns (Undefined, Undefined) else TypeError
  end.

(** The body of the inner [forEach] of [getSimilar]: the distance
    accumulated so far, with the term of dimension [d] added. *)
Definition add_distance (self : t) (query row : gmap string value)
  (d : string) (dist : num) : outcome num :=
  if negb (is_undefined (get query d)) then
    if isStringDimension self d
    then Returns (add dist (if loose_eq (get row d) (get query d)
                            then of_Z 0 else of_Z 1))
    else if isNaN (get query d)
    then Returns (add dist (if isNaN (get row d) then of_Z 0 else of_Z 1))
    else if is_undefined (get row d)
    then Returns (add dist (of_Z 1))
    else
      ends ← domain_ends self d;
      Returns (add dist (Math_abs (sub
        (getNormalizedValue (get query d) (fst ends) (snd ends))
        (getNormalizedValue (get row d) (fst ends) (snd ends)))))
  else Returns dist.

(** The body of the outer [forEach]: row [index] is pushed when its
    distance is at most the threshold. *)
Definition visit_row (self : t) (query : gmap string value) (threshold : value)
  (row : gmap string value) (index : nat) (similar : list nat)
  : outcome (list nat) :=
  dist ← forEach (add_distance self query row) (dimensions self) (of_Z 0);
  if le_value dist threshold then Returns (similar ++ [index])
  else Returns similar.

Definition getSimilar (self : t) (query : gmap string value) (threshold : value)
  : outcome (list nat) :=
  forEachIndexed (visit_row self query threshold) 0 (data self) [].

(** ** The type and the domain the constructor stores for a dimension *)

(** The value the type of dimension [d] is taken from. *)
Definition sampled (d : string) (rows : list (gmap string value)) : value :=
  sample_value d rows (get (default ∅ (head rows)) d).

(** Whether the test of the sample sends the dimension to the numeric
    branch (it does not when the test throws). *)
Definition numeric_sample (val : value) : bool :=
  match looks_numeric val with
  | Returns numeric => numeric
  | _ => false
  end.

Definition inferred_type (d : string) (rows : list (gmap string value))
  : DIMENSION_TYPE :=
  if numeric_sample (sampled d rows) then
    if isNaN (sampled d rows) || negb (Number_isInteger (sampled d rows))
    then FLOAT else INTEGER
  else STRING.

Definition inferred_domain (d : string) (rows : list (gmap string value))
  : list value :=
  if numeric_sample (sampled d rows) then numeric_domain d rows
  else map (fun p => get p d) rows.

(** ** The distance that the similarity query computes *)

(** Dimension [d] counts as present in the query: reading it from the
    query gives a value other than [undefined]. *)
Definition present (query : gmap string value) (d : string) : bool :=
  negb (is_undefined (get query d)).

Definition domainMin (self : t) (d : string) : value :=
  at_index (default [] (dimensionDomains self !! d)) 0.

Definition domainMax (self : t) (d : string) : value :=
  at_index (default [] (dimensionDomains self !! d)) 1.

(** [normalize(v) = (v - domainMin) / (domainMax - domainMin)], and 0 on
    a degenerate domain, one whose maximum less its minimum is 0. *)
Definition normalize (self : t) (d : string) (v : value) : num :=
  if num_eq (minus (domainMax self d) (domainMin self d)) (of_Z 0)
  then of_Z 0
  else div (minus v (domainMin self d))
           (minus (domainMax self d) (domainMin self d)).

(** The term of one dimension of the query in the distance. *)
Definition term (self : t) (query row : gmap string value) (d : string) : num :=
  if isStringDimension self d
  then (if loose_eq (get row d) (get query d) then of_Z 0 else of_Z 1)
  else if isNaN (get query d)
  then (if isNaN (get row d) then of_Z 0 else of_Z 1)
  else if is_undefined (get row d)
  then of_Z 1
  else Math_abs (sub (normalize self d (get query d))
                     (normalize self d (get row d))).

(** The sum, from 0 and in the order of the dimensions, of the terms of
    the dimensions present in the query. *)
Definition distance (self : t) (query row : gmap string value) : num :=
  fold_left add
    (map (term self query row) (List.filter (present query) (dimensions self)))
    (of_Z 0).

Definition similar (self : t) (query : gmap string value) (threshold : value)
  (row : gmap string value) : bool :=
  le_value (distance self query row) threshold.

(** ** The similarity query as the specification words it *)

(** The value the query point states for dimension [d]; none when the
    dimension is absent from the query. *)
Definition stated (query : gmap string value) (d : string) : value :=
  default Undefined (query !! d).

(** Dimension [d] is present in the query point. *)
Definition stated_present (query : gmap string value) (d : string) : bool :=
  negb (is_undefined (stated query d)).

(** The term of a dimension present in the query point: the equality
    distance on a categorical dimension; on a numeric one, 0 or 1 when
    the value of the query is NaN, 1 when the row has no value, and the
    distance of the normalized values otherwise. *)
Definition stated_term (self : t) (query row : gmap string value) (d : string)
  : num :=
  if isStringDimension self d
  then (if loose_eq (get row d) (stated query d) then of_Z 0 else of_Z 1)
  else if isNaN (stated query d)
  then (if isNaN (get row d) then of_Z 0 else of_Z 1)
  else if is_undefined (get row d)
  then of_Z 1
  else Math_abs (sub (normalize self d (stated query d))
                     (normalize self d (get row d))).

(** The sum over the dimensions present in the query point; the
    dimensions absent from it contribute nothing. *)
Definition stated_distance (self : t) (query row : gmap string value) : num :=
  fold_left add
    (map (stated_term self query row)
       (List.filter (stated_present query) (dimensions self)))
    (of_Z 0).

Definition stated_similar (self : t) (query : gmap string value)
  (threshold : value) (row : gmap string value) : bool :=
  le_value (stated_distance self query row) threshold.

End Database.
End Database.

(* ================================================================== *)
(** * The parallel coordinates component ([CINEMA_COMPONENTS.Pcoord]) *)
(* ================================================================== *)

(** The d3 scales the component keeps for its axes, as an interface: a
    scale is called on a value and gives a position (or [undefined]), and
    its range can be reset to run from [r] down to 0. *)
Class D3Scale {N : JSNumber} : Type := {
  scale : Type;
  call : scale -> JS.value -> JS.value;
  range : num -> scale -> scale
}.

Module Pcoord.
Section Pcoord.

Context {N : JSNumber} {D : D3Scale}.
Import JS.

Record Margin : Type := { top : num; right : num; bottom : num; left : num }.

(** What the component sends out: the [selectionchange] event of its
    dispatcher and the calls of the redraw methods that the subclasses
    implement. *)
Inductive event : Type :=
  | selectionchange (selection : list nat)
  | redrawSelectedPaths
  | redrawHighlightedPaths
  | redrawOverlayPaths.

(** A brush selection as d3 reports it: [null] or the array [[lo, hi]]. *)
Definition extent : Type := option (num * num).

(** The fields of the component that selection and resizing read and
    write.  [axes] is the data bound to the axis groups; [y] has a scale
    for every dimension shown; [emitted] lists the events sent so far,
    the latest last.  No dimension shown has the name of a member of
    [Object.prototype]: where the constructor sets up the scales, such a
    name finds the inherited member in [self.y], no scale is made for
    it, and the call of [domain] on the member throws.  So [y] and
    [brushExtents], read at a dimension, give what was stored there. *)
Record t : Type := Build {
  db : Database.t;
  dimensions : list string;
  axes : list string;
  margin : Margin;
  internalHeight : num;
  NaNMargin : num;
  y : string -> scale;
  brushExtents : gmap string extent;
  dontUpdateSelectionOnBrush : bool;
  selection : list nat;
  emitted : list event
}.

Definition set_brushExtents (b : gmap string extent) (self : t) : t :=
  Build (db self) (dimensions self) (axes self) (margin self)
    (internalHeight self) (NaNMargin self) (y self) b
    (dontUpdateSelectionOnBrush self) (selection self) (emitted self).

Definition set_dontUpdateSelectionOnBrush (f : bool) (self : t) : t :=
  Build (db self) (dimensions self) (axes self) (margin self)
    (internalHeight self) (NaNMargin self) (y self) (brushExtents self)
    f (selection self) (emitted self).

Definition set_selection (sel : list nat) (self : t) : t :=
  Build (db self) (dimensions self) (axes self) (margin self)
    (internalHeight self) (NaNMargin self) (y self) (brushExtents self)
    (dontUpdateSelectionOnBrush self) sel (emitted self).

Definition emit (evs : list event) (self : t) : t :=
  Build (db self) (dimensions self) (axes self) (margin self)
    (internalHeight self) (NaNMargin self) (y self) (brushExtents self)
    (dontUpdateSelectionOnBrush self) (selection self) (emitted self ++ evs).

(** [getYPosition] *)
Definition getYPosition (self : t) (d : string) (p : gmap string value) : value :=
  if negb (Database.isStringDimension (db self) d) && isNaN (get p d)
  then Num (internalHeight self)
  else call (y self d) (get p d).

(** The loop over the dimensions in [updateSelection] for the data point
    [d]: the value of [selected] when the loop ends or breaks. *)
Fixpoint row_selected (self : t) (dims : list string) (d : gmap string value)
  : bool :=
  match dims with
  | [] => true
  | dim :: dims' =>
      match brushExtents self !! dim with
      | Some (Some (lo, hi)) =>
          let y := getYPosition self dim d in
          if num_le lo (ToNumber y) && num_le (ToNumber y) hi
          then row_selected self dims' d
          else false
      | _ => row_selected self dims' d
      end
  end.

(** [this.db.data.forEach(function(d,i) ...)] pushing onto [newSelection]. *)
Fixpoint collect_selected (self : t) (i : nat) (rows : list (gmap string value))
  (newSelection : list nat) : list nat :=
  match rows with
  | [] => newSelection
  | d :: rows' =>
      collect_selected self (S i) rows'
        (if row_selected self (dimensions self) d
         then newSelection ++ [i] else newSelection)
  end.

Definition newSelection (self : t) : list nat :=
  collect_selected self 0 (Database.data (db self)) [].

(** The loop of [arraysEqual], run after the lengths were compared. *)
Fixpoint same_elements (a b : list nat) : bool :=
  match a, b with
  | x :: a', x' :: b' => if (x =? x')%nat then same_elements a' b' else false
  | _, _ => true
  end.

Definition arraysEqual (a b : list nat) : bool :=
  if negb (length a =? length b)%nat then false else same_elements a b.

(** [updateSelection(force)] *)
Definition updateSelection (force : bool) (self : t) : t :=
  let new := newSelection self in
  if negb (arraysEqual (selection self) new) || force
  then emit [selectionchange new; redrawSelectedPaths] (set_selection new self)
  else self.

(** The brush event handler [axisBrush(d)].  [d3_event] is [None] when
    the handler is called by hand ([d3.event] is null), and the selection
    of the brush event otherwise. *)
Definition axisBrush (d3_event : option extent) (d : string) (self : t) : t :=
  let self1 :=
    match d3_event with
    | Some sel =>
        let b := <[d := sel]> (brushExtents self) in
        match sel with
        | Some (lo, hi) =>
            if num_eq lo hi then set_brushExtents (delete d b) self
            else set_brushExtents b self
        | None => set_brushExtents b self
        end
    | None => self
    end in
  if negb (dontUpdateSelectionOnBrush self1)
  then updateSelection false self1
  else self1.

(** [brush.move] of d3 on the brush of axis [d], given the new selection:
    d3 keeps an empty selection (both ends equal) as null, then sends its
    start, brush and end events with the selection kept; [axisBrush] is
    the listener of the first two. *)
Definition brush_move (d : string) (sel : extent) (self : t) : t :=
  let kept :=
    match sel with
    | Some (lo, hi) => if num_eq lo hi then None else Some (lo, hi)
    | None => None
    end in
  axisBrush (Some kept) d (axisBrush (Some kept) d self).

(** The selection [updateSize] moves the brush of axis [d] to: null when
    no extent is stored, both ends times the ratio of the heights
    otherwise. *)
Definition rescaled (oldHeight : num) (d : string) (self : t) : extent :=
  match brushExtents self !! d with
  | Some (Some (lo, hi)) =>
      Some (mul (div lo oldHeight) (internalHeight self),
            mul (div hi oldHeight) (internalHeight self))
  | _ => None
  end.

(** The part of [updateSize] up to the redrawing of the brushes: the new
    size (from the height of the parent), the ranges of the scales, and
    [redrawPaths]. *)
Definition resize (parentHeight : num) (self : t) : t :=
  let h := sub (sub parentHeight (top (margin self))) (bottom (margin self)) in
  let nan_margin := div h (of_Z 11) in
  Build (db self) (dimensions self) (axes self) (margin self) h nan_margin
    (fun d =>
       if bool_decide (d ∈ dimensions self)
       then range (if Database.isStringDimension (db self) d
                   then h else sub h nan_margin) (y self d)
       else y self d)
    (brushExtents self) (dontUpdateSelectionOnBrush self) (selection self)
    (emitted self ++
       [redrawSelectedPaths; redrawHighlightedPaths; redrawOverlayPaths]).

(** The loop over the brush groups in [updateSize]; applying the brush
    to its group again sends no event, moving it does. *)
Fixpoint move_brushes (oldHeight : num) (ds : list string) (self : t) : t :=
  match ds with
  | [] => self
  | d :: ds' =>
      move_brushes oldHeight ds' (brush_move d (rescaled oldHeight d self) self)
  end.

(** [updateSize], the parent of the component being [parentHeight] high. *)
Definition updateSize (parentHeight : num) (self : t) : t :=
  let oldHeight := internalHeight self in
  let self1 := resize parentHeight self in
  let self2 := set_dontUpdateSelectionOnBrush true self1 in
  let self3 := move_brushes oldHeight (axes self2) self2 in
  set_dontUpdateSelectionOnBrush false self3.

(** Whether an event is a [selectionchange]. *)
Definition is_selectionchange (e : event) : bool :=
  match e with
  | selectionchange _ => true
  | _ => false
  end.

(** The events a call added, given the state before and after it. *)
Definition emitted_since (before after : t) : list event :=
  drop (length (emitted before)) (emitted after).

(** ** The selection as the specification words it *)

(** The position [y] lies within [[lo, hi]], both ends included. *)
Definition within (lo hi : num) (y : value) : Prop :=
  num_le lo (ToNumber y) = true /\ num_le (ToNumber y) hi = true.

(** Dimension [d] has the active brush extent [[lo, hi]]. *)
Definition active (self : t) (d : string) (lo hi : num) : Prop :=
  brushExtents self !! d = Some (Some (lo, hi)).

(** The data point is inside every active brush extent of the dimensions
    in [dims]. *)
Definition inside_brushes (self : t) (dims : list string)
  (p : gmap string value) : Prop :=
  forall d lo hi, d ∈ dims -> active self d lo hi ->
    within lo hi (getYPosition self d p).

(** The selection of the component is the one its brushes stand for. *)
Definition selection_is_current (self : t) : Prop :=
  selection self = newSelection self.

(** A resize forces a recomputation once it is over: the selection is
    the recomputed one and a [selectionchange] was sent, as
    [updateSelection(true)] always sends one. *)
Definition forces_recomputation (parentHeight : num) (self : t) : Prop :=
  selection_is_current (updateSize parentHeight self) /\
  exists sel,
    selectionchange sel ∈ emitted_since self (updateSize parentHeight self).

(** The extent that a resize from [oldHeight] to [newHeight] leaves for
    a stored extent: nothing stored or null gives null, an extent whose
    rescaled ends are equal gives null, any other its rescaled ends. *)
Definition resized_extent (oldHeight newHeight : num) (e : option extent)
  : extent :=
  match e with
  | Some (Some (lo, hi)) =>
      let lo' := mul (div lo oldHeight) newHeight in
      let hi' := mul (div hi oldHeight) newHeight in
      if num_eq lo' hi' then None else Some (lo', hi')
  | _ => None
  end.

(** The resize as the specification describes it: recomputation is
    switched off while the stored extents are rescaled, switched on
    again afterwards, and then forced. *)
Definition resize_as_claimed (parentHeight : num) (self : t) : Prop :=
  (forall d, d ∈ axes self ->
     brushExtents (updateSize parentHeight self) !! d =
     Some (resized_extent (internalHeight self)
             (internalHeight (updateSize parentHeight self))
             (brushExtents self !! d))) /\
  dontUpdateSelectionOnBrush (updateSize parentHeight self) = false /\
  forces_recomputation parentHeight self.

End Pcoord.
End Pcoord.

(* ================================================================== *)
(** * An implementation of the numbers for running the code *)
(* ================================================================== *)

(** Numbers as exact rationals with the two infinities and NaN: doubles
    without rounding, overflow and the sign of zero.  It serves to run
    the model on concrete inputs. *)
Module Ideal.

Inductive xnum : Type :=
  | XNaN
  | XInf (negative : bool)
  | XFin (q : Q).

Definition is_zero (q : Q) : bool := (Qnum q =? 0)%Z.
Definition is_negative (q : Q) : bool := (Qnum q <? 0)%Z.

Definition xisNaN (a : xnum) : bool :=
  match a with
  | XNaN => true
  | _ => false
  end.

Definition xisInteger (a : xnum) : bool :=
  match a with
  | XFin q => (Z.pos (Qden (Qred q)) =? 1)%Z
  | _ => false
  end.

Definition xneg (a : xnum) : xnum :=
  match a with
  | XNaN => XNaN
  | XInf s => XInf (negb s)
  | XFin q => XFin (Qred (- q))
  end.

Definition xadd (a b : xnum) : xnum :=
  match a, b with
  | XNaN, _ | _, XNaN => XNaN
  | XInf s, XInf s' => if Bool.eqb s s' then XInf s else XNaN
  | XInf s, XFin _ => XInf s
  | XFin _, XInf s => XInf s
  | XFin p, XFin q => XFin (Qred (p + q))
  end.

Definition xsub (a b : xnum) : xnum := xadd a (xneg b).

Definition xmul (a b : xnum) : xnum :=
  match a, b with
  | XNaN, _ | _, XNaN => XNaN
  | XInf s, XInf s' => XInf (xorb s s')
  | XInf s, XFin q | XFin q, XInf s =>
      if is_zero q then XNaN else XInf (xorb s (is_negative q))
  | XFin p, XFin q => XFin (Qred (p * q))
  end.

Definition xdiv (a b : xnum) : xnum :=
  match a, b with
  | XNaN, _ | _, XNaN => XNaN
  | XInf _, XInf _ => XNaN
  | XInf s, XFin q => XInf (xorb s (is_negative q))
  | XFin _, XInf _ => XFin 0
  | XFin p, XFin q =>
      if is_zero q
      then (if is_zero p then XNaN else XInf (is_negative p))
      else XFin (Qred (p / q))
  end.

Definition xabs (a : xnum) : xnum :=
  match a with
  | XNaN => XNaN
  | XInf _ => XInf false
  | XFin q => XFin (Qabs q)
  end.

Definition xle (a b : xnum) : bool :=
  match a, b with
  | XNaN, _ | _, XNaN => false
  | XInf true, _ => true
  | _, XInf false => true
  | XInf false, _ => false
  | _, XInf true => false
  | XFin p, XFin q => Qle_bool p q
  end.

Definition xeq (a b : xnum) : bool :=
  match a, b with
  | XInf s, XInf s' => Bool.eqb s s'
  | XFin p, XFin q => Qeq_bool p q
  | _, _ => false
  end.

Definition xmin (a b : xnum) : xnum :=
  match a, b with
  | XNaN, _ | _, XNaN => XNaN
  | _, _ => if xle a b then a else b
  end.

Definition xmax (a b : xnum) : xnum :=
  match a, b with
  | XNaN, _ | _, XNaN => XNaN
  | _, _ => if xle a b then b else a
  end.

(** ** Strings as numeric literals *)

Definition is_space (c : ascii) : bool :=
  let n := nat_of_ascii c in
  ((9 <=? n) && (n <=? 13) || (n =? 32) || (n =? 160))%nat.

Fixpoint trim_left (l : list ascii) : list ascii :=
  match l with
  | c :: r => if is_space c then trim_left r else l
  | [] => []
  end.

Definition trim (l : list ascii) : list ascii :=
  rev (trim_left (rev (trim_left l))).

(** The value of a digit in the given base, letters counting from ten. *)
Definition digit (base : Z) (c : ascii) : option Z :=
  let n := Z.of_nat (nat_of_ascii c) in
  let v :=
    if (48 <=? n)%Z && (n <=? 57)%Z then Some (n - 48)%Z
    else if (97 <=? n)%Z && (n <=? 102)%Z then Some (n - 87)%Z
    else if (65 <=? n)%Z && (n <=? 70)%Z then Some (n - 55)%Z
    else None in
  match v with
  | Some d => if (d <? base)%Z then Some d else None
  | None => None
  end.

(** The longest run of digits at the head, and what follows it. *)
Fixpoint digits (base : Z) (l : list ascii) : list Z * list ascii :=
  match l with
  | c :: r =>
      match digit base c with
      | Some d => let (ds, rest) := digits base r in (d :: ds, rest)
      | None => ([], l)
      end
  | [] => ([], [])
  end.

Definition digits_value (base : Z) (ds : list Z) : Z :=
  fold_left (fun acc d => acc * base + d)%Z ds 0%Z.

(** [m * 10^e] *)
Definition scale10 (m e : Z) : Q :=
  if (0 <=? e)%Z then inject_Z (m * 10 ^ e)
  else Qred (Qmake m (Z.to_pos (10 ^ (- e)))).

Definition is_char (n : nat) (c : ascii) : bool := (nat_of_ascii c =? n)%nat.

(** The exponent part: nothing, or [e] or [E], a sign, digits. *)
Definition exponent (l : list ascii) : option Z :=
  match l with
  | [] => Some 0%Z
  | c :: r =>
      if is_char 101 c || is_char 69 c then
        let (negative, r') :=
          match r with
          | s :: r'' =>
              if is_char 45 s then (true, r'')
              else if is_char 43 s then (false, r'') else (false, r)
          | [] => (false, r)
          end in
        match digits 10 r' with
        | ((_ :: _) as ds, []) =>
            Some (if negative then - digits_value 10 ds else digits_value 10 ds)%Z
        | _ => None
        end
      else None
  end.

(** An unsigned decimal literal. *)
Definition unsigned_decimal (l : list ascii) : option xnum :=
  if String.eqb (string_of_list_ascii l) "Infinity" then Some (XInf false)
  else
    let (ip, r1) := digits 10 l in
    let '(fp, r2) :=
      match r1 with
      | c :: r => if is_char 46 c then digits 10 r else ([], r1)
      | [] => ([], r1)
      end in
    match ip ++ fp with
    | [] => None
    | (_ :: _) as ds =>
        match exponent r2 with
        | Some e =>
            Some (XFin (scale10 (digits_value 10 ds) (e - Z.of_nat (length fp))))
        | None => None
        end
    end.

(** A literal in base 2, 8 or 16 after its prefix. *)
Definition radix_literal (base : Z) (l : list ascii) : option xnum :=
  match digits base l with
  | ((_ :: _) as ds, []) => Some (XFin (inject_Z (digits_value base ds)))
  | _ => None
  end.

Definition numeric_literal (l : list ascii) : option xnum :=
  match l with
  | [] => Some (XFin 0)
  | c :: r =>
      let prefixed :=
        match r with
        | p :: r' =>
            if negb (is_char 48 c) then None
            else if is_char 120 p || is_char 88 p then Some (radix_literal 16 r')
            else if is_char 111 p || is_char 79 p then Some (radix_literal 8 r')
            else if is_char 98 p || is_char 66 p then Some (radix_literal 2 r')
            else None
        | [] => None
        end in
      match prefixed with
      | Some result => result
      | None =>
          if is_char 45 c then xneg <$> unsigned_decimal r
          else if is_char 43 c then unsigned_decimal r
          else unsigned_decimal l
      end
  end.

Definition xStringToNumber (s : string) : xnum :=
  default XNaN (numeric_literal (trim (list_ascii_of_string s))).

#[global] Instance number : JSNumber := {|
  num := xnum;
  of_Z := fun z => XFin (inject_Z z);
  NaN := XNaN;
  num_isNaN := xisNaN;
  num_isInteger := xisInteger;
  add := xadd;
  sub := xsub;
  mul := xmul;
  div := xdiv;
  Math_abs := xabs;
  num_min := xmin;
  num_max := xmax;
  num_le := xle;
  num_eq := xeq;
  StringToNumber := xStringToNumber
|}.

(** The text of the members of [Object.prototype] as one engine gives
    it: the prototype itself for [__proto__], the function [Object] for
    [constructor], a function of the same name otherwise. *)
Definition native_text (name : string) : string :=
  if String.eqb name "__proto__" then "[object Object]"
  else
    "function " +:+ (if String.eqb name "constructor" then "Object" else name)
    +:+ "() { [native code] }".

#[global] Instance builtins : Builtins := {| member_text := native_text |}.

(** A linear scale for examples: the domain [[d0, d1]] is mapped onto
    the range from [r] down to 0; a string is converted first. *)
Record linear : Type := Linear { d0 : xnum; d1 : xnum; r0 : xnum }.

Definition linear_call (s : linear) (v : JS.value) : JS.value :=
  JS.Num (xsub (r0 s)
    (xmul (xdiv (xsub (JS.ToNumber v) (d0 s)) (xsub (d1 s) (d0 s))) (r0 s))).

#[global] Instance linear_scale : D3Scale := {|
  scale := linear;
  call := linear_call;
  range := fun r s => Linear (d0 s) (d1 s) r
|}.

End Ideal.

(* ================================================================== *)
(** * Concrete inputs *)
(* ================================================================== *)

Module Scenario.

Import CSV JS Ideal.

Definition int (z : Z) : xnum := XFin (inject_Z z).

(** The text of a table with the header [a,b] and the lines [1,2] and
    [3,4], each line ended by a line feed. *)
Definition text : string :=
  "a,b" +:+ nl +:+ "1,2" +:+ nl +:+ "3,4" +:+ nl.

(** The database the constructor builds from [text]. *)
Definition db : Database.t :=
  Database.Build
    [ {[ "a" := Str "1"; "b" := Str "2" ]};
      {[ "a" := Str "3"; "b" := Str "4" ]} ]
    ["a"; "b"]
    {[ "a" := Database.FLOAT; "b" := Database.FLOAT ]}
    {[ "a" := [Num (int 1); Num (int 3)];
       "b" := [Num (int 2); Num (int 4)] ]}.

(** A table whose third column is empty in every line. *)
Definition sparse_text : string :=
  "a,b,c" +:+ nl +:+ "1,x," +:+ nl +:+ "3,y," +:+ nl.

Definition sparse_db : Database.t :=
  Database.Build
    [ {[ "a" := Str "1"; "b" := Str "x"; "c" := Undefined ]};
      {[ "a" := Str "3"; "b" := Str "y"; "c" := Undefined ]} ]
    ["a"; "b"; "c"]
    {[ "a" := Database.FLOAT; "b" := Database.STRING; "c" := Database.STRING ]}
    {[ "a" := [Num (int 1); Num (int 3)];
       "b" := [Str "x"; Str "y"];
       "c" := [Undefined; Undefined] ]}.

(** A query with the value 2 on dimension [a] and nothing on [b]. *)
Definition query : gmap string value := {[ "a" := Num (int 2) ]}.

(** The threshold 0.5. *)
Definition half : xnum := XFin (1 # 2).

(** A table whose second column is named [constructor], as the member of
    [Object.prototype] that every query object inherits. *)
Definition members_text : string :=
  "a,constructor" +:+ nl +:+ "1,5" +:+ nl +:+ "3,6" +:+ nl.

(** The database the constructor builds from [members_text]. *)
Definition members_db : Database.t :=
  Database.Build
    [ {[ "a" := Str "1"; "constructor" := Str "5" ]};
      {[ "a" := Str "3"; "constructor" := Str "6" ]} ]
    ["a"; "constructor"]
    {[ "a" := Database.FLOAT; "constructor" := Database.FLOAT ]}
    {[ "a" := [Num (int 1); Num (int 3)];
       "constructor" := [Num (int 5); Num (int 6)] ]}.

(** A table with two columns named [a]: each later cell of a line
    overwrites the earlier one in the row, and [a] is listed twice among
    the dimensions. *)
Definition twin_text : string :=
  "a,a" +:+ nl +:+ "1,2" +:+ nl +:+ "3,4" +:+ nl.

Definition twin_db : Database.t :=
  Database.Build
    [ {[ "a" := Str "2" ]}; {[ "a" := Str "4" ]} ]
    ["a"; "a"]
    {[ "a" := Database.FLOAT ]}
    {[ "a" := [Num (int 2); Num (int 4)] ]}.

(** A chart over [db], 110 high inside its margins, with a brush on axis
    [a] from 50 to 110 that holds the first row only (its position is
    100, that of the second row is 0). *)
Definition chart : Pcoord.t :=
  Pcoord.Build db ["a"; "b"] ["a"; "b"]
    {| Pcoord.top := int 30; Pcoord.right := int 10;
       Pcoord.bottom := int 10; Pcoord.left := int 10 |}
    (int 110) (int 10)
    (fun d => if String.eqb d "a" then Linear (int 1) (int 3) (int 100)
              else Linear (int 2) (int 4) (int 100))
    {[ "a" := Some (int 50, int 110) ]}
    false [0%nat] [].

(** A chart over [twin_db], with its two axis groups of the name [a] and
    the same brush. *)
Definition twin_chart : Pcoord.t :=
  Pcoord.Build twin_db ["a"; "a"] ["a"; "a"]
    {| Pcoord.top := int 30; Pcoord.right := int 10;
       Pcoord.bottom := int 10; Pcoord.left := int 10 |}
    (int 110) (int 10)
    (fun _ => Linear (int 2) (int 4) (int 100))
    {[ "a" := Some (int 50, int 110) ]}
    false [0%nat] [].

End Scenario.

(* ================================================================== *)
(** * Texts in the format the parser reads *)
(* ================================================================== *)

(** A family of input texts for [parseCSV]: a grid written down with
    every string between quotes, its quotes doubled, a missing cell as
    nothing, cells joined by commas and lines by line feeds. *)
Module Written.

Import CSV.

(** Every double quote of [s] doubled. *)
Fixpoint double_quotes (s : string) : string :=
  match s with
  | EmptyString => EmptyString
  | String c r =>
      if Ascii.eqb c DQUOTE then String DQUOTE (String DQUOTE (double_quotes r))
      else String c (double_quotes r)
  end.

Definition cell_text (c : cell) : string :=
  match c with
  | Some s => quote (double_quotes s)
  | None => EmptyString
  end.

(** The cells after the first one of a line, each after a comma. *)
Fixpoint more_cells (cs : list cell) : string :=
  match cs with
  | [] => EmptyString
  | c :: cs' => String COMMA (cell_text c +:+ more_cells cs')
  end.

Definition line_text (row : list cell) : string :=
  match row with
  | [] => EmptyString
  | c :: cs => cell_text c +:+ more_cells cs
  end.

(** The lines after the first one, each after a line feed. *)
Fixpoint more_lines (rows : list (list cell)) : string :=
  match rows with
  | [] => EmptyString
  | row :: rows' => String LF (line_text row +:+ more_lines rows')
  end.

Definition grid_text (data : grid) : string :=
  match data with
  | [] => EmptyString
  | row :: rows => line_text row +:+ more_lines rows
  end.

(** The text starts with a separator or is empty. *)
Definition at_separator (rest : string) : Prop :=
  match rest with
  | String c _ => is_separator c = true
  | EmptyString => True
  end.

(** The grids that are read back as they are: no line is empty, the first
    cell of the first line is a string, and the last line is not a single
    missing cell. *)
Definition readable (data : grid) : Prop :=
  Forall (fun row => row <> []) data /\
  (exists s cs rows, data = (Some s :: cs) :: rows) /\
  last data <> Some [None].

End Written.

(* ================================================================== *)
(** * Laws of the order of numbers *)
(* ================================================================== *)

(** What some properties of the code need of [<=], [Math.min] and
    [Math.max]: facts that hold of doubles, NaN left aside. *)
Class OrderedNumbers (N : JSNumber) : Prop := {
  le_transitive : forall a b c : num,
    num_le a b = true -> num_le b c = true -> num_le a c = true;
  min_le_l : forall a b : num,
    num_isNaN a = false -> num_isNaN b = false -> num_le (num_min a b) a = true;
  min_le_r : forall a b : num,
    num_isNaN a = false -> num_isNaN b = false -> num_le (num_min a b) b = true;
  max_ge_l : forall a b : num,
    num_isNaN a = false -> num_isNaN b = false -> num_le a (num_max a b) = true;
  max_ge_r : forall a b : num,
    num_isNaN a = false -> num_isNaN b = false -> num_le b (num_max a b) = true;
  min_cases : forall a b : num,
    num_isNaN a = false -> num_isNaN b = false ->
    num_min a b = a \/ num_min a b = b;
  max_cases : forall a b : num,
    num_isNaN a = false -> num_isNaN b = false ->
    num_max a b = a \/ num_max a b = b
}.

(* ================================================================== *)
(** * More tables for running the code *)
(* ================================================================== *)

Module Tables.

Import CSV JS Ideal.

(** A table whose first column holds no number: the text NaN, in two
    spellings. *)
Definition nan_text : string :=
  "a,b" +:+ nl +:+ "NaN,x" +:+ nl +:+ "nan,y" +:+ nl.

Definition nan_db : Database.t :=
  Database.Build
    [ {[ "a" := Str "NaN"; "b" := Str "x" ]};
      {[ "a" := Str "nan"; "b" := Str "y" ]} ]
    ["a"; "b"]
    {[ "a" := Database.FLOAT; "b" := Database.STRING ]}
    {[ "a" := [Num (XFin (inject_Z 0)); Num (XFin (inject_Z 0))];
       "b" := [Str "x"; Str "y"] ]}.

End Tables.

(* ================================================================== *)
(** * The numbers of a column *)
(* ================================================================== *)

Module Column.
Section Column.

Context {N : JSNumber}.
Import JS.

(** The numbers among the values of column [d]: what the loop that
    computes a numeric domain folds over. *)
Definition numbers_of (d : string) (rows : list (gmap string value)) : list num :=
  map (fun row => ToNumber (get row d))
      (List.filter (fun row => negb (isNaN (get row d))) rows).

End Column.
End Column.

(* ================================================================== *)
(** * The order of the axes *)
(* ================================================================== *)

Module Axes.
Section Axes.

Context {N : JSNumber} {D : D3Scale}.

(** The component after [self.dimensions.sort(...)], which [axisDrag]
    and [setAxisOrder] run: the array of dimensions holds the same
    elements in the order [dims], and no other field is written. *)
Definition set_dimensions (dims : list string) (self : Pcoord.t) : Pcoord.t :=
  Pcoord.Build (Pcoord.db self) dims (Pcoord.axes self) (Pcoord.margin self)
    (Pcoord.internalHeight self) (Pcoord.NaNMargin self) (Pcoord.y self)
    (Pcoord.brushExtents self) (Pcoord.dontUpdateSelectionOnBrush self)
    (Pcoord.selection self) (Pcoord.emitted self).

End Axes.
End Axes.

(* ================================================================== *)
(** * Picking a path on the index canvas ([getIndexAtPoint]) *)
(* ================================================================== *)

Module Picking.

Import Codec.
Local Open Scope Z_scope.

#[global] Instance rgb_eq_dec : EqDecision rgb.
Proof. solve_decision. Defined.

(** The pixels of the data of an image: four entries a pixel, of which
    [colorData.slice(i*4, i*4+3)] keeps the first three.  The data of an
    image always holds a multiple of four entries. *)
Fixpoint pixels (colorData : list Z) : list rgb :=
  match colorData with
  | r :: g :: b :: _ :: rest => RGB r g b :: pixels rest
  | _ => []
  end.

(** The order of [indices.sort()], called without a comparison function:
    the elements are compared as strings, by their code units. *)
Definition default_order (a b : Z) : Prop := String.le (pretty a) (pretty b).

#[global] Instance default_order_dec : RelDecision default_order :=
  fun a b => decide (String.le (pretty a) (pretty b)).

Definition sort (indices : list Z) : list Z := merge_sort default_order indices.

(** The loop that counts equal neighbours; it returns [matched], which
    is set by the branch that breaks out of the loop. *)
Fixpoint count_matches (indices : list Z) (matched count counting : Z) : Z :=
  match indices with
  | [] => matched
  | x :: rest =>
      if negb (counting =? x) then count_matches rest matched 1 x
      else if count + 1 =? 5 then counting
      else count_matches rest matched (count + 1) counting
  end.

(** [getIndexAtPoint], given the data of the image of three by three
    pixels that the canvas returns around the point. *)
Definition getIndexAtPoint (colorData : list Z) : Z :=
  let indices := map colorToIndex (pixels colorData) in
  count_matches (sort indices) (-1) 0 (-1).

End Picking.

(* ================================================================== *)
(** * Drawing the selected paths ([CINEMA_COMPONENTS.PcoordCanvas]) *)
(* ================================================================== *)

Module Canvas.

Import Codec.

(** One path stroked on the canvas of the selected paths and, in the
    colour of its pick index, on the index canvas: the row whose path it
    is, and the colour. *)
Record stroke : Type := Stroke { row : nat; pick : string }.

(** The generator that [redrawSelectedPaths] makes: its argument, its
    variable [i], and whether its body was entered. *)
Record generator : Type := Generator {
  queue : list nat;
  i : nat;
  started : bool
}.

(** The fields the drawing reads and writes: the iterator (or
    [undefined]), whether the indicator that drawing goes on is
    displayed, and the strokes on the two canvases since they were
    cleared. *)
Record t : Type := Build {
  drawIterator : option generator;
  loading : bool;
  strokes : list stroke
}.

(** [redrawSelectedPaths], the selection being [selection]: both
    canvases are cleared and a new generator is stored; its body does not
    run yet. *)
Definition redrawSelectedPaths (selection : list nat) (self : t) : t :=
  Build (Some (Generator selection 0 false)) (loading self) [].

(** [next()] on the generator [g]: the body runs up to the next [yield]
    or to its end; the result says whether it is done.  The queue is the
    selection, whose entries are rows of the database, so the path of
    each entry can be made. *)
Definition next (g : generator) (self : t) : bool * t :=
  let shown := if started g then loading self else true in
  match queue g !! i g with
  | Some r =>
      (false,
       Build (Some (Generator (queue g) (S (i g)) true)) shown
         (strokes self ++ [Stroke r (indexToColor (Z.of_nat (i g)))]))
  | None =>
      (true, Build (Some (Generator (queue g) (i g) true)) shown (strokes self))
  end.

(** The body of the loop of the interval callback. *)
Definition poll (self : t) : t :=
  match drawIterator self with
  | Some g =>
      let (done, self') := next g self in
      if done then Build None false (strokes self') else self'
  | None => self
  end.

(** The interval callback: 25 rounds of the loop. *)
Definition tick (self : t) : t := Nat.iter 25 poll self.

(** The strokes of the first [n] paths of a queue. *)
Definition drawn (n : nat) (selection : list nat) : list stroke :=
  imap (fun i r => Stroke r (indexToColor (Z.of_nat i))) (take n selection).

End Canvas.

(* ================================================================== *)
(** * The path under the mouse (the [mousemove] listener) *)
(* ================================================================== *)

Module Pointer.

Import Picking.

(** What [lastMouseMove] holds and the [mouseover] event carries: null,
    a row of the database, or [undefined] when the selection has no entry
    at the index that was picked. *)
Inductive target : Type :=
  | Null
  | NoEntry
  | Row (n : nat).

(** [lastMouseMove], and the [mouseover] events sent so far, the latest
    last. *)
Record t : Type := Build {
  lastMouseMove : target;
  mouseover : list target
}.

(** The component when it is made: [this.lastMouseMove = null]. *)
Definition initial : t := Build Null [].

(** [self.selection[index]] *)
Definition selected_at (selection : list nat) (index : Z) : target :=
  if (0 <=? index)%Z then
    match selection !! Z.to_nat index with
    | Some n => Row n
    | None => NoEntry
    end
  else NoEntry.

(** [a != b]: null and [undefined] are equal to each other and to
    nothing else. *)
Definition loose_ne (a b : target) : bool :=
  match a, b with
  | Row n, Row m => negb (n =? m)%nat
  | Row _, _ | _, Row _ => true
  | _, _ => false
  end.

(** One move of the mouse over the component, as the listener sees it:
    the selection at that time, the position of the mouse in pixels of
    the canvas, and the data of the image that the index canvas returns
    around that position. *)
Record move : Type := Move {
  selection : list nat;
  x : Q;
  y : Q;
  colorData : list Z
}.

(** The listener of [mousemove]. *)
Definition mousemove (m : move) (self : t) : t :=
  if Qle_bool 0 (x m) && Qle_bool 0 (y m) then
    let index := getIndexAtPoint (colorData m) in
    if negb (index =? -1)%Z then
      if loose_ne (lastMouseMove self) (selected_at (selection m) index)
      then Build (selected_at (selection m) index)
             (mouseover self ++ [selected_at (selection m) index])
      else self
    else
      match lastMouseMove self with
      | Null => self
      | _ => Build Null (mouseover self ++ [Null])
      end
  else self.

(** The listener run on a sequence of moves. *)
Definition mousemoves (ms : list move) (self : t) : t :=
  fold_left (fun self m => mousemove m self) ms self.

(** What the listener keeps true: [lastMouseMove] is what the last event
    carried, null before the first one; no event carries what the one
    before it carried; the first event does not carry null. *)
Definition tidy (self : t) : Prop :=
  lastMouseMove self = default Null (last (mouseover self)) /\
  (forall k a b, mouseover self !! k = Some a ->
     mouseover self !! S k = Some b -> a <> b) /\
  head (mouseover self) <> Some Null.

End Pointer.

(* ================================================================== *)
(** * The axis ordering file ([checkAxisDataErrors]) *)
(* ================================================================== *)

Module AxisOrder.
Section AxisOrder.

Context {N : JSNumber}.
Import JS.

(** [dimensions.includes(c)]: the dimensions are strings, which
    [undefined] is not one of. *)
Definition includes (dimensions : list string) (c : CSV.cell) : bool :=
  match c with
  | Some s => bool_decide (s ∈ dimensions)
  | None => false
  end.

(** The loop over the lines that looks at their first two cells. *)
Fixpoint undefined_key (data : CSV.grid) : option string :=
  match data with
  | [] => None
  | row :: rest =>
      if is_undefined (of_cell (default None (row !! 0%nat)))
      then Some "Category cannot be undefined."
      else if is_undefined (of_cell (default None (row !! 1%nat)))
      then Some "Value cannot be undefined."
      else undefined_key rest
  end.

(** [checkAxisDataErrors]: the message of the first error found, if
    any. *)
Definition checkAxisDataErrors (data : CSV.grid) (dimensions : list string)
  : option string :=
  if (length data <? 2)%nat
  then Some "The first and second lines in the file are required."
  else
    let header := default [] (data !! 0%nat) in
    if existsb (fun row => negb (length row =? length header)%nat) data
    then Some "Each line must have an equal number of comma separated values (columns)."
    else
      match List.find (fun c => negb (includes dimensions c)) (drop 2 header) with
      | Some c =>
          Some ("Dimension in axis order file '" +:+ to_key c +:+ "' is not valid")
      | None =>
          match undefined_key data with
          | Some error => Some error
          | None =>
              if existsb
                   (fun row =>
                      existsb (fun c => isNaN (of_cell c)
                                        && negb (is_undefined (of_cell c)))
                        (drop 2 row))
                   (drop 1 data)
              then Some "Values for dimensions cannot be NaN."
              else None
          end
      end.

End AxisOrder.
End AxisOrder.

(* ================================================================== *)
(** * The sections of a path ([Pcoord.getPath]) *)
(* ================================================================== *)

Module Path.
Section Path.

Context {N : JSNumber}.
Import JS.

(** [d[p] != undefined] *)
Definition has_value (d : gmap string value) (p : string) : bool :=
  negb (is_undefined (get d p)).

(** [this.dimensions.forEach] in [getPath]: the dimensions are split
    into sections at the dimensions where the data point has no value. *)
Fixpoint split (d : gmap string value) (dims : list string)
  (currentSection : list string) (sections : list (list string))
  : list (list string) * list string :=
  match dims with
  | [] => (sections, currentSection)
  | p :: dims' =>
      if has_value d p then split d dims' (currentSection ++ [p]) sections
      else if negb (length currentSection =? 0)%nat
      then split d dims' [] (sections ++ [currentSection])
      else split d dims' currentSection sections
  end.

(** The sections that [getPath] draws for the data point [d]. *)
Definition sections (d : gmap string value) (dims : list string)
  : list (list string) :=
  let (sections, currentSection) := split d dims [] [] in
  if (0 <? length currentSection)%nat then sections ++ [currentSection]
  else sections.

(** [section] is a run of [dims]: dimensions next to each other, all
    with a value, with no dimension that has a value right before or
    right after. *)
Definition run_of (d : gmap string value) (dims section : list string) : Prop :=
  section <> [] /\
  Forall (fun p => has_value d p = true) section /\
  exists before after,
    dims = before ++ section ++ after /\
    (forall p, last before = Some p -> has_value d p = false) /\
    (forall p, head after = Some p -> has_value d p = false).

(** A run that a dimension without a value has ended. *)
Definition ended_run (d : gmap string value) (dims section : list string) : Prop :=
  section <> [] /\
  Forall (fun p => has_value d p = true) section /\
  exists before p after,
    dims = before ++ section ++ p :: after /\
    (forall p', last before = Some p' -> has_value d p' = false) /\
    has_value d p = false.

End Path.
End Path.

(* ================================================================== *)
(** * Texts with quotes only where they are needed *)
(* ================================================================== *)

(** A second family of input texts for [parseCSV]: a grid written down
    as CSV writers do, a string between quotes only when it is empty or
    holds a comma, a double quote or a line break, and the lines ended in
    the way of Unix or of Windows. *)
Module Minimal.

Import CSV.

Definition is_plain_char (c : ascii) : bool :=
  negb (is_separator c) && negb (Ascii.eqb c DQUOTE).

Fixpoint all_plain (s : string) : bool :=
  match s with
  | EmptyString => true
  | String c r => is_plain_char c && all_plain r
  end.

(** The strings that can stand in the text as they are. *)
Definition plain (s : string) : bool :=
  negb (String.eqb s EmptyString) && all_plain s.

Definition cell_text (c : cell) : string :=
  match c with
  | Some s => if plain s then s else quote (Written.double_quotes s)
  | None => EmptyString
  end.

Inductive line_end : Type := Unix | Windows.

Definition eol (e : line_end) : string :=
  match e with
  | Unix => String LF EmptyString
  | Windows => String CR (String LF EmptyString)
  end.

Fixpoint more_cells (cs : list cell) : string :=
  match cs with
  | [] => EmptyString
  | c :: cs' => String COMMA (cell_text c +:+ more_cells cs')
  end.

Definition line_text (row : list cell) : string :=
  match row with
  | [] => EmptyString
  | c :: cs => cell_text c +:+ more_cells cs
  end.

Fixpoint more_lines (e : line_end) (rows : list (list cell)) : string :=
  match rows with
  | [] => EmptyString
  | row :: rows' => eol e +:+ (line_text row +:+ more_lines e rows')
  end.

Definition grid_text (e : line_end) (data : grid) : string :=
  match data with
  | [] => EmptyString
  | row :: rows => line_text row +:+ more_lines e rows
  end.

End Minimal.

(* ================================================================== *)
(** * Theorems *)
(* ================================================================== *)

(** Runs a [bind] whose first computation has returned. *)
Ltac run_bind := change (Returns ?x ≫= ?k) with (k x); cbv beta.

Section CodecFacts.

Import Codec.
Local Open Scope Z_scope.

Lemma indexToRGB_below (i : Z) :
  i <= 256 * 256 * 256 ->
  indexToRGB i =
    RGB ((i + 1) - (i + 1) / 65536 * 256 * 256
           - ((i + 1) - (i + 1) / 65536 * 256 * 256) / 256 * 256)
        (((i + 1) - (i + 1) / 65536 * 256 * 256) / 256)
        ((i + 1) / 65536).
Proof.
  intros Hi. unfold indexToRGB.
  destruct (Z.ltb_spec (256 * 256 * 256) i) as [Hlt | _]; [lia | reflexivity].
Qed.

(** C4: for every integer index from -1 up to 256^3 - 2, decoding the
    channels produced by the encoder gives the index back, and the three
    channels are values an 8-bit pixel can hold. *)
Theorem colorToIndex_indexToRGB (i : Z) :
  -1 <= i <= 256 ^ 3 - 2 ->
  colorToIndex (indexToRGB i) = i /\ valid_rgb (indexToRGB i).
Proof.
  intros [Hlo Hhi].
  rewrite indexToRGB_below by lia.
  unfold colorToIndex, valid_rgb, is_channel; cbn [red green blue].
  set (n := i + 1).
  assert (Hn : 0 <= n < 256 * 65536) by (unfold n; lia).
  pose proof (Z.div_mod n 65536 ltac:(lia)) as Hb.
  pose proof (Z.mod_pos_bound n 65536 ltac:(lia)) as Hbm.
  set (b := n / 65536) in *.
  assert (Hrest : n - b * 256 * 256 = n mod 65536) by lia.
  rewrite Hrest.
  pose proof (Z.div_mod (n mod 65536) 256 ltac:(lia)) as Hg.
  pose proof (Z.mod_pos_bound (n mod 65536) 256 ltac:(lia)) as Hgm.
  set (m := n mod 65536) in *.
  set (g := m / 256) in *.
  assert (0 <= b <= 255) by (unfold b; split;
    [apply Z.div_pos; lia | apply Z.lt_succ_r, Z.div_lt_upper_bound; lia]).
  assert (0 <= g <= 255) by (unfold g; split;
    [apply Z.div_pos; lia | apply Z.lt_succ_r, Z.div_lt_upper_bound; lia]).
  repeat split; lia.
Qed.

Lemma colorToIndex_indexToRGB_witness :
  (-1 <= 70000 <= 256 ^ 3 - 2) /\
  colorToIndex (indexToRGB 70000) = 70000 /\ valid_rgb (indexToRGB 70000).
Proof.
  split; [lia | apply (colorToIndex_indexToRGB 70000); lia].
Defined.

(** C5, at the failing input: the indices 256^3 - 1 and 256^3 are above
    256^3 - 2, yet the encoder does not give white for them: they pass
    the test [i > 256*256*256] and get a blue channel of 256. *)
Theorem indexToColor_above_limit_not_white :
  indexToColor (256 ^ 3 - 1) = "rgb(0,0,256)"%string /\
  indexToColor (256 ^ 3) = "rgb(1,0,256)"%string /\
  indexToColor (256 ^ 3 - 1) <> css white /\
  indexToColor (256 ^ 3) <> css white.
Proof. repeat split; try reflexivity; discriminate. Qed.

(** Above 256^3 the encoder gives white. *)
Lemma indexToColor_saturates (i : Z) :
  256 ^ 3 < i -> indexToColor i = "rgb(255,255,255)"%string.
Proof.
  intros Hi. unfold indexToColor, indexToRGB.
  destruct (Z.ltb_spec (256 * 256 * 256) i) as [_ | Hle]; [reflexivity | lia].
Qed.

End CodecFacts.



Section CSVFacts.

Import CSV.

Lemma unquoted_body_length s v rest :
  unquoted_body s = (v, rest) -> (String.length rest <= String.length s)%nat.
Proof.
  revert v rest. induction s as [| c s IH]; intros v rest; cbn.
  - intros [= <- <-]. done.
  - destruct (is_separator c).
    + intros [= <- <-]. done.
    + destruct (unquoted_body s) as [v' rest'] eqn:Hb.
      intros [= <- <-]. specialize (IH _ _ eq_refl). lia.
Qed.

Lemma unquoted_body_progress c s v rest :
  is_separator c = false ->
  unquoted_body (String c s) = (v, rest) ->
  (String.length rest < String.length (String c s))%nat.
Proof.
  cbn. intros ->. destruct (unquoted_body s) as [v' rest'] eqn:Hb.
  intros [= <- <-]. apply unquoted_body_length in Hb. lia.
Qed.

Lemma quoted_body_length s q rest :
  quoted_body s = Some (q, rest) -> (String.length rest < String.length s)%nat.
Proof.
  assert (Hall : forall n s, (String.length s < n)%nat -> forall q rest,
    quoted_body s = Some (q, rest) -> (String.length rest < String.length s)%nat);
    [| apply (Hall (S (String.length s))); lia].
  clear s q rest. induction n as [| n IHn]; intros s Hn q rest; [lia |].
  assert (IH : forall s', (String.length s' < String.length s)%nat ->
    forall q rest, quoted_body s' = Some (q, rest) ->
    (String.length rest < String.length s')%nat)
    by (intros s' Hs'; apply IHn; lia).
  clear IHn Hn. destruct s as [| c r]; cbn; [done |].
  destruct (Ascii.eqb c DQUOTE).
  - destruct r as [| c' r']; [intros [= <- <-]; cbn; lia |].
    destruct (Ascii.eqb c' DQUOTE); [| intros [= <- <-]; cbn; lia].
    destruct (quoted_body r') as [[q' rest'] |] eqn:Hq.
    + intros [= <- <-]. apply IH in Hq; cbn in *; lia.
    + intros [= <- <-]. cbn. lia.
  - destruct (quoted_body r) as [[q' rest'] |] eqn:Hq; [| done].
    intros [= <- <-]. apply IH in Hq; cbn in *; lia.
Qed.

Lemma match_value_length s c rest :
  match_value s = (c, rest) -> (String.length rest <= String.length s)%nat.
Proof.
  unfold match_value. destruct s as [| a r]; [intros [= <- <-]; done |].
  destruct (Ascii.eqb a DQUOTE).
  - destruct (quoted_body r) as [[q rest'] |] eqn:Hq.
    + intros [= <- <-]. apply quoted_body_length in Hq. cbn. lia.
    + destruct (unquoted_body (String a r)) as [v rest'] eqn:Hb.
      intros [= <- <-]. by apply unquoted_body_length in Hb.
  - destruct (unquoted_body (String a r)) as [v rest'] eqn:Hb.
    intros [= <- <-]. by apply unquoted_body_length in Hb.
Qed.

Lemma match_value_progress a r c rest :
  is_separator a = false ->
  match_value (String a r) = (c, rest) ->
  (String.length rest < String.length (String a r))%nat.
Proof.
  intros Hsep. unfold match_value. destruct (Ascii.eqb a DQUOTE).
  - destruct (quoted_body r) as [[q rest'] |] eqn:Hq.
    + intros [= <- <-]. apply quoted_body_length in Hq. cbn. lia.
    + destruct (unquoted_body (String a r)) as [v rest'] eqn:Hb.
      intros [= <- <-]. by eapply unquoted_body_progress.
  - destruct (unquoted_body (String a r)) as [v rest'] eqn:Hb.
    intros [= <- <-]. by eapply unquoted_body_progress.
Qed.

(** A delimiter found at the head of the text is a comma or a line break
    and is consumed, or it is the empty match of the start of the text,
    before a character that is not a separator or before the end. *)
Lemma match_delimiter_cases at_start s d r :
  match_delimiter at_start s = Some (d, r) ->
  (String.length r < String.length s)%nat \/
  (at_start = true /\ d = EmptyString /\ r = s /\
   match s with
   | String a _ => is_separator a = false
   | EmptyString => True
   end).
Proof.
  unfold match_delimiter, is_separator. destruct s as [| a s'].
  - destruct at_start; [| done]. intros [= <- <-]. by right.
  - destruct (Ascii.eqb a COMMA); [intros [= <- <-]; left; cbn; lia |].
    destruct (Ascii.eqb a CR).
    { destruct s' as [| a' s'']; [intros [= <- <-]; left; cbn; lia |].
      destruct (Ascii.eqb a' LF); intros [= <- <-]; left; cbn; lia. }
    destruct (Ascii.eqb a LF); [intros [= <- <-]; left; cbn; lia |].
    destruct at_start; [| done]. intros [= <- <-]. by right.
Qed.

Lemma exec_progress at_start s m rest :
  exec at_start s = Some (m, rest) ->
  (at_start = true -> s <> EmptyString) ->
  (String.length rest < String.length s)%nat.
Proof.
  revert at_start. induction s as [| a s IH]; intros at_start; cbn [exec].
  - destruct (match_delimiter at_start EmptyString) as [[d r] |] eqn:Hd; [| done].
    destruct at_start; [intros _ Hne; by destruct Hne | done].
  - destruct (match_delimiter at_start (String a s)) as [[d r] |] eqn:Hd.
    + destruct (match_value r) as [c rest'] eqn:Hv. intros [= <- <-] _.
      destruct (match_delimiter_cases _ _ _ _ Hd) as [Hlt | (_ & _ & -> & Hsep)].
      * apply match_value_length in Hv. lia.
      * by eapply match_value_progress.
    + intros Hex _. apply IH in Hex; [cbn; lia | done].
Qed.

(** An empty unquoted field: a delimiter followed at once by a
    separator or by the end of the text is matched with an empty value. *)
Lemma exec_empty_unquoted at_start s d r :
  match_delimiter at_start s = Some (d, r) ->
  match r with
  | String c _ => is_separator c = true
  | EmptyString => True
  end ->
  exec at_start s = Some (Match d (Unquoted EmptyString), r).
Proof.
  intros Hd Hr.
  assert (Hv : match_value r = (Unquoted EmptyString, r)).
  { destruct r as [| c r']; [done |]. unfold match_value.
    assert (Hq : Ascii.eqb c DQUOTE = false).
    { unfold is_separator in Hr.
      destruct (Ascii.eqb_spec c DQUOTE) as [-> | ]; [discriminate Hr | done]. }
    rewrite Hq. cbn [unquoted_body]. by rewrite Hr. }
  destruct s as [| a s']; cbn [exec]; by rewrite Hd, Hv.
Qed.

(** An empty quoted field: a delimiter followed by two quotes, and then
    by something other than a quote, is matched with an empty quoted
    value. *)
Lemma exec_empty_quoted at_start s d r :
  match_delimiter at_start s = Some (d, String DQUOTE (String DQUOTE r)) ->
  match r with
  | String c _ => Ascii.eqb c DQUOTE = false
  | EmptyString => True
  end ->
  exec at_start s = Some (Match d (Quoted EmptyString), r).
Proof.
  intros Hd Hr.
  assert (Hv : match_value (String DQUOTE (String DQUOTE r)) =
               (Quoted EmptyString, r)).
  { unfold match_value. rewrite Ascii.eqb_refl. cbn [quoted_body].
    rewrite Ascii.eqb_refl. destruct r as [| c r']; [done |]. by rewrite Hr. }
  destruct s as [| a s']; cbn [exec]; by rewrite Hd, Hv.
Qed.

Lemma parse_loop_terminates fuel at_start s data :
  (at_start = true -> s <> EmptyString) ->
  (String.length s < fuel)%nat ->
  parse_loop fuel at_start s data <> OutOfFuel.
Proof.
  revert at_start s data. induction fuel as [| fuel IH];
    intros at_start s data Hstart Hfuel; [lia |].
  cbn [parse_loop]. destruct (exec at_start s) as [[m rest] |] eqn:Hex; [| done].
  pose proof (exec_progress _ _ _ _ Hex Hstart) as Hlt.
  destruct (add_match m data) as [data' | |] eqn:Hadd; cbn; [| done | ].
  - apply IH; [| lia].
    destruct (Nat.eqb_spec (String.length rest) (String.length s)); [lia |].
    rewrite andb_false_r. done.
  - unfold add_match, push_cell in Hadd.
    by destruct (last _) in Hadd.
Qed.

Lemma push_cell_concat data c data' :
  push_cell data c = Returns data' ->
  concat data' = concat data ++ [c] /\ data' <> [].
Proof.
  unfold push_cell. destruct (last data) as [row |] eqn:Hlast; [| done].
  apply last_Some in Hlast as [init ->]. intros [= <-].
  rewrite length_app, Nat.add_1_r. cbn [pred length].
  rewrite insert_app_r_alt by lia. rewrite Nat.sub_diag. cbn.
  split; [| by destruct init].
  rewrite !concat_app. cbn. by rewrite !app_nil_r, app_assoc.
Qed.

Lemma add_match_concat m data data' :
  add_match m data = Returns data' ->
  concat data' = concat data ++ [decode (captured m)] /\ data' <> [].
Proof.
  unfold add_match. intros Hpush. apply push_cell_concat in Hpush as [Hc Hne].
  split; [| done]. rewrite Hc. f_equal.
  destruct (String.eqb (delimiter m) (String COMMA EmptyString)); [done |].
  rewrite concat_app. cbn. by rewrite app_nil_r.
Qed.

Lemma add_match_throws m data :
  add_match m data = TypeError ->
  data = [] /\ delimiter m = String COMMA EmptyString.
Proof.
  unfold add_match, push_cell.
  destruct (String.eqb_spec (delimiter m) (String COMMA EmptyString)) as [Hd | _].
  - destruct data as [| row data]; [done |].
    destruct (last (row :: data)) eqn:Hlast; [done |].
    by apply last_None in Hlast.
  - rewrite last_snoc. done.
Qed.

Lemma parse_loop_cells fuel at_start s data data' :
  parse_loop fuel at_start s data = Returns data' ->
  concat data' =
  concat data ++ map (fun m => decode (captured m)) (all_matches fuel at_start s).
Proof.
  revert at_start s data. induction fuel as [| fuel IH];
    intros at_start s data; cbn [parse_loop all_matches]; [done |].
  destruct (exec at_start s) as [[m rest] |].
  - destruct (add_match m data) as [data1 | |] eqn:Hadd; cbn; [| done | done].
    intros Hloop. apply IH in Hloop. apply add_match_concat in Hadd as [Hc _].
    rewrite Hloop, Hc. cbn. by rewrite <- app_assoc.
  - intros [= <-]. cbn. by rewrite app_nil_r.
Qed.

Lemma parse_loop_no_throw fuel at_start s data :
  data <> [] -> parse_loop fuel at_start s data <> TypeError.
Proof.
  revert at_start s data. induction fuel as [| fuel IH];
    intros at_start s data Hne; cbn [parse_loop]; [done |].
  destruct (exec at_start s) as [[m rest] |]; [| done].
  destruct (add_match m data) as [data1 | |] eqn:Hadd; cbn; [| | done].
  - apply IH. by apply add_match_concat in Hadd as [_ ?].
  - by apply add_match_throws in Hadd as [? _].
Qed.

(** The first match has a comma as its delimiter only when the text
    begins with one. *)
Lemma exec_first_comma a r m rest :
  exec true (String a r) = Some (m, rest) ->
  delimiter m = String COMMA EmptyString ->
  a = COMMA.
Proof.
  cbn [exec]. unfold match_delimiter.
  destruct (Ascii.eqb_spec a COMMA) as [-> | _]; [done |].
  destruct (Ascii.eqb a CR).
  { destruct r as [| a' r']; [| destruct (Ascii.eqb a' LF)].
    all: destruct (match_value _); intros [= <- <-]; cbn; intros [= Hc]; done. }
  destruct (Ascii.eqb a LF);
    destruct (match_value _); intros [= <- <-]; cbn; intros [= Hc]; done.
Qed.

Lemma parseCSV_throws csvText :
  parseCSV csvText = TypeError -> exists r, csvText = String COMMA r.
Proof.
  unfold parseCSV. destruct csvText as [| a r]; [done |]. cbn [String.eqb].
  generalize (String.length (String a r)). intros n.
  destruct (parse_loop (S n) true (String a r) [])
    as [data | |] eqn:Hloop; cbn; [done | intros _ | done].
  cbn [parse_loop] in Hloop.
  destruct (exec true (String a r)) as [[m rest] |] eqn:Hex; [| done].
  destruct (add_match m []) as [data1 | |] eqn:Hadd; cbn in Hloop.
  - exfalso. revert Hloop. apply parse_loop_no_throw.
    by apply add_match_concat in Hadd as [_ ?].
  - apply add_match_throws in Hadd as [_ Hd].
    exists r. f_equal. by eapply exec_first_comma.
  - done.
Qed.

Lemma parseCSV_leading_comma r : parseCSV (String COMMA r) = TypeError.
Proof.
  unfold parseCSV. cbn [String.eqb parse_loop exec].
  change (match_delimiter true (String COMMA r))
    with (Some (String COMMA EmptyString, r)).
  cbv beta iota. by destruct (match_value r).
Qed.

Lemma parseCSV_terminates csvText : parseCSV csvText <> OutOfFuel.
Proof.
  unfold parseCSV. destruct (String.eqb_spec csvText EmptyString) as [| Hne];
    [done |].
  pose proof (parse_loop_terminates (S (String.length csvText)) true csvText []
                (fun _ => Hne) ltac:(lia)) as Hloop.
  by destruct (parse_loop _ _ _ _).
Qed.

(** The parser returns a grid for every text that does not begin with a
    comma. *)
Lemma parseCSV_returns csvText :
  (forall r, csvText <> String COMMA r) ->
  exists data, parseCSV csvText = Returns data.
Proof.
  intros Hstart. destruct (parseCSV csvText) as [data | |] eqn:Hparse.
  - by exists data.
  - apply parseCSV_throws in Hparse as [r ->]. by destruct (Hstart r).
  - by apply parseCSV_terminates in Hparse.
Qed.

(** The budget of [matches_of] is enough: a larger one finds the same
    matches. *)
Lemma all_matches_enough_fuel fuel fuel' at_start s :
  (at_start = true -> s <> EmptyString) ->
  (String.length s < fuel)%nat -> (String.length s < fuel')%nat ->
  all_matches fuel at_start s = all_matches fuel' at_start s.
Proof.
  revert fuel' at_start s. induction fuel as [| fuel IH];
    intros fuel' at_start s Hstart Hfuel Hfuel'; [lia |].
  destruct fuel' as [| fuel']; [lia |]. cbn [all_matches].
  destruct (exec at_start s) as [[m rest] |] eqn:Hex; [| done].
  pose proof (exec_progress _ _ _ _ Hex Hstart) as Hlt.
  f_equal. apply IH; [| lia | lia].
  destruct (Nat.eqb_spec (String.length rest) (String.length s)); [lia |].
  by rewrite andb_false_r.
Qed.

Lemma drop_stray_line_concat (data : grid) :
  exists tail, (tail = [] \/ tail = [None]) /\
    concat data = concat (drop_stray_line data) ++ tail.
Proof.
  unfold drop_stray_line.
  destruct (last data) as [[| [s |] [| c row]] |] eqn:Hlast;
    try (exists []; split; [by left | by rewrite app_nil_r]).
  destruct (1 <? length data)%nat;
    [| exists []; split; [by left | by rewrite app_nil_r]].
  apply last_Some in Hlast as [init ->].
  exists [None]. split; [by right |].
  rewrite length_app. cbn. rewrite Nat.add_1_r. cbn.
  rewrite take_app_length, concat_app. cbn. done.
Qed.

Lemma decode_undefined c : decode c = None <-> c = Unquoted EmptyString.
Proof.
  destruct c as [q | v]; cbn; [done |].
  destruct (String.eqb_spec v EmptyString) as [-> | Hne]; [done |].
  split; [done | by intros [= ->]].
Qed.

Lemma unescape_empty s : unescape s = EmptyString -> s = EmptyString.
Proof.
  destruct s as [| a [| b s]]; cbn; [done | done |].
  by destruct (Ascii.eqb a DQUOTE && Ascii.eqb b DQUOTE).
Qed.

Lemma decode_empty_string c : decode c = Some EmptyString <-> c = Quoted EmptyString.
Proof.
  destruct c as [q | v]; cbn.
  - split; [| by intros [= ->]]. intros [= Hq]. by apply unescape_empty in Hq as ->.
  - destruct (String.eqb_spec v EmptyString) as [-> | Hne]; [done |].
    split; [| done]. intros [= Hv]. by apply unescape_empty in Hv.
Qed.

(** For every text the parser stops; when it returns a grid, the cells
    of the grid, read line by line, are the decodings of the matches of
    the text in order (less the one [undefined] of a stray last line); an
    unquoted match with an empty value, and no other match, decodes to
    [undefined]; a quoted match with nothing between its quotes, and no
    other match, decodes to the empty string; and the two cells differ.
    The parser throws only on a text that begins with a comma. *)
Theorem parseCSV_empty_fields csvText :
  match parseCSV csvText with
  | Returns data =>
      exists tail, (tail = [] \/ tail = [None]) /\
        map (fun m => decode (captured m)) (matches_of csvText) =
        concat data ++ tail
  | TypeError => exists r, csvText = String COMMA r
  | OutOfFuel => False
  end /\
  (forall c, decode c = None <-> c = Unquoted EmptyString) /\
  (forall c, decode c = Some EmptyString <-> c = Quoted EmptyString) /\
  decode (Unquoted EmptyString) <> decode (Quoted EmptyString).
Proof.
  split; [| split; [apply decode_undefined | split; [apply decode_empty_string | done]]].
  destruct (parseCSV csvText) as [data | |] eqn:Hparse.
  - unfold parseCSV, matches_of in *.
    destruct (String.eqb csvText EmptyString).
    + injection Hparse as <-. exists []. by split; [left |].
    + destruct (parse_loop _ _ _ _) as [raw | |] eqn:Hloop; cbn in Hparse;
        try done.
      injection Hparse as <-. apply parse_loop_cells in Hloop.
      destruct (drop_stray_line_concat raw) as (tail & Htail & Hcells).
      exists tail. split; [done |]. rewrite <- Hcells. exact (eq_sym Hloop).
  - by apply parseCSV_throws.
  - by apply parseCSV_terminates in Hparse.
Qed.

End CSVFacts.

Section IndexFacts.

Lemma elem_of_indices_where {A : Type} (P : A -> bool) (l : list A) (i k : nat) :
  k ∈ indices_where P i l <->
  (i <= k)%nat /\ exists a, l !! (k - i)%nat = Some a /\ P a = true.
Proof.
  revert i. induction l as [| a l IH]; intros i; cbn [indices_where].
  - split; [intros H; inversion H | intros (_ & a & Ha & _); discriminate].
  - rewrite elem_of_app, IH. split.
    + intros [Hk | (Hle & b & Hb & HP)].
      * destruct (P a) eqn:HPa; [| inversion Hk].
        apply list_elem_of_singleton in Hk as ->.
        split; [lia |]. exists a. by rewrite Nat.sub_diag.
      * split; [lia |]. exists b. split; [| done].
        replace (k - i)%nat with (S (k - S i)) by lia. done.
    + intros (Hle & b & Hb & HP).
      destruct (decide (k = i)) as [-> | Hne].
      * rewrite Nat.sub_diag in Hb. injection Hb as ->. rewrite HP.
        left. by apply list_elem_of_singleton.
      * right. split; [lia |]. exists b. split; [| done].
        replace (k - i)%nat with (S (k - S i)) in Hb by lia. done.
Qed.

Lemma indices_where_bounds {A : Type} (P : A -> bool) (l : list A) (i k : nat) :
  k ∈ indices_where P i l -> (i <= k < i + length l)%nat.
Proof.
  rewrite elem_of_indices_where. intros (Hle & a & Ha & _).
  apply lookup_lt_Some in Ha. lia.
Qed.

Lemma indices_where_NoDup {A : Type} (P : A -> bool) (l : list A) (i : nat) :
  NoDup (indices_where P i l).
Proof.
  revert i. induction l as [| a l IH]; intros i; cbn [indices_where].
  - constructor.
  - destruct (P a); cbn; [| apply IH].
    constructor; [| apply IH].
    intros Hin. apply indices_where_bounds in Hin. lia.
Qed.

Lemma indices_where_all {A : Type} (P : A -> bool) (l : list A) (i : nat) :
  (forall a, a ∈ l -> P a = true) -> indices_where P i l = seq i (length l).
Proof.
  revert i. induction l as [| a l IH]; intros i Hall; cbn; [done |].
  rewrite Hall by apply list_elem_of_here. cbn. f_equal.
  apply IH. intros b Hb. apply Hall. by apply list_elem_of_further.
Qed.

Lemma indices_where_sublist {A : Type} (P Q : A -> bool) (l : list A) (i : nat) :
  (forall a, a ∈ l -> P a = true -> Q a = true) ->
  sublist (indices_where P i l) (indices_where Q i l).
Proof.
  revert i. induction l as [| a l IH]; intros i Himp; cbn [indices_where].
  - constructor.
  - assert (Hrest : sublist (indices_where P (S i) l) (indices_where Q (S i) l)).
    { apply IH. intros b Hb. apply Himp. by apply list_elem_of_further. }
    destruct (P a) eqn:HP.
    + rewrite (Himp a (list_elem_of_here _ _) HP). cbn. by constructor.
    + cbn. destruct (Q a); cbn; [by constructor | done].
Qed.

Lemma indices_where_ext {A : Type} (P Q : A -> bool) (l : list A) (i : nat) :
  (forall a, P a = Q a) -> indices_where P i l = indices_where Q i l.
Proof.
  intros Heq. revert i. induction l as [| a l IH]; intros i; cbn; [done |].
  by rewrite Heq, IH.
Qed.

End IndexFacts.

Section PcoordFacts.

Context {N : JSNumber} {D : D3Scale}.
Import JS Pcoord.

Implicit Types (self : Pcoord.t) (d : string) (p : gmap string value) (i : nat).

Lemma row_selected_spec self dims p :
  row_selected self dims p = true <-> inside_brushes self dims p.
Proof.
  unfold inside_brushes, active, within.
  induction dims as [| dim dims IH]; cbn [row_selected].
  - split; [intros _ d lo hi Hd; inversion Hd | done].
  - destruct (brushExtents self !! dim) as [[[lo hi] |] |] eqn:Hb.
    + destruct (num_le lo (ToNumber (getYPosition self dim p))
                && num_le (ToNumber (getYPosition self dim p)) hi) eqn:Hin.
      * apply andb_prop in Hin as [Hlo Hhi]. rewrite IH. split.
        -- intros Hrest d lo' hi' Hd Hact.
           apply elem_of_cons in Hd as [-> | Hd]; [| by eapply Hrest].
           rewrite Hb in Hact. by injection Hact as <- <-.
        -- intros Hall d lo' hi' Hd. apply Hall. by apply list_elem_of_further.
      * split; [done |]. intros Hall.
        destruct (Hall dim lo hi (list_elem_of_here _ _) Hb) as [Hlo Hhi].
        by rewrite Hlo, Hhi in Hin.
    + rewrite IH. split.
      * intros Hrest d lo hi Hd Hact.
        apply elem_of_cons in Hd as [-> | Hd]; [congruence | by eapply Hrest].
      * intros Hall d lo hi Hd. apply Hall. by apply list_elem_of_further.
    + rewrite IH. split.
      * intros Hrest d lo hi Hd Hact.
        apply elem_of_cons in Hd as [-> | Hd]; [congruence | by eapply Hrest].
      * intros Hall d lo hi Hd. apply Hall. by apply list_elem_of_further.
Qed.

Lemma collect_selected_eq self i rows acc :
  collect_selected self i rows acc =
  acc ++ indices_where (row_selected self (dimensions self)) i rows.
Proof.
  revert i acc. induction rows as [| p rows IH]; intros i acc; cbn.
  - by rewrite app_nil_r.
  - rewrite IH. destruct (row_selected self (dimensions self) p); cbn.
    + by rewrite <- app_assoc.
    + done.
Qed.

Lemma newSelection_eq self :
  newSelection self =
  indices_where (row_selected self (dimensions self)) 0 (Database.data (db self)).
Proof. unfold newSelection. by rewrite collect_selected_eq. Qed.

Lemma same_elements_eq (a b : list nat) :
  length a = length b -> same_elements a b = true -> a = b.
Proof.
  revert b. induction a as [| x a IH]; intros [| x' b] Hlen Hsame;
    try discriminate; [done |].
  cbn in Hsame. destruct (Nat.eqb_spec x x') as [-> | _]; [| discriminate].
  f_equal. apply IH; [by injection Hlen | done].
Qed.

Lemma arraysEqual_true (a b : list nat) : arraysEqual a b = true -> a = b.
Proof.
  unfold arraysEqual. destruct (Nat.eqb_spec (length a) (length b)) as [Hlen | _];
    cbn; [by apply same_elements_eq | discriminate].
Qed.

Lemma updateSelection_selection force self :
  selection (updateSelection force self) = newSelection self.
Proof.
  unfold updateSelection.
  destruct (arraysEqual (selection self) (newSelection self)) eqn:Heq; cbn.
  - destruct force; cbn; [done | by apply arraysEqual_true].
  - done.
Qed.

Lemma newSelection_member self i :
  i ∈ newSelection self <->
  exists p, Database.data (db self) !! i = Some p /\
            inside_brushes self (dimensions self) p.
Proof.
  rewrite newSelection_eq, elem_of_indices_where, Nat.sub_0_r.
  split.
  - intros (_ & p & Hp & Hsel). exists p. by rewrite <- row_selected_spec.
  - intros (p & Hp & Hin). split; [lia |]. exists p.
    by rewrite row_selected_spec.
Qed.

(** The position tested against a brush extent, written out: the scale
    of the dimension applied to the value of the row, or the inner
    height of the chart when the dimension is numeric and the value is
    not a number. *)
Lemma inside_brushes_positions self dims p :
  inside_brushes self dims p <->
  forall d lo hi, d ∈ dims ->
    brushExtents self !! d = Some (Some (lo, hi)) ->
    if negb (Database.isStringDimension (db self) d) && isNaN (get p d)
    then num_le lo (internalHeight self) = true /\
         num_le (internalHeight self) hi = true
    else num_le lo (ToNumber (call (y self d) (get p d))) = true /\
         num_le (ToNumber (call (y self d) (get p d))) hi = true.
Proof.
  unfold inside_brushes, active, within, getYPosition.
  split; intros H d lo hi Hd Hact; specialize (H d lo hi Hd Hact);
    by destruct (negb (Database.isStringDimension (db self) d)
                 && isNaN (get p d)).
Qed.

(** C1: after [updateSelection], the selection holds every row index
    once, and holds exactly the indices of the rows whose rendered
    position lies within the extent, ends included, on each dimension
    that has an active brush extent.  The rendered position of a row on
    a dimension is what the scale [y] of the dimension gives for the
    value of the row, and the inner height of the chart in place of it
    when the dimension is numeric and the value is not a number.  When
    no dimension has an active extent the selection is the list of all
    row indices. *)
Theorem updateSelection_exact force self :
  NoDup (selection (updateSelection force self)) /\
  (forall i, i ∈ selection (updateSelection force self) <->
     exists p, Database.data (db self) !! i = Some p /\
       forall d lo hi, d ∈ dimensions self ->
         brushExtents self !! d = Some (Some (lo, hi)) ->
         if negb (Database.isStringDimension (db self) d) && isNaN (get p d)
         then num_le lo (internalHeight self) = true /\
              num_le (internalHeight self) hi = true
         else num_le lo (ToNumber (call (y self d) (get p d))) = true /\
              num_le (ToNumber (call (y self d) (get p d))) hi = true) /\
  ((forall d lo hi, d ∈ dimensions self ->
      brushExtents self !! d <> Some (Some (lo, hi))) ->
   selection (updateSelection force self) =
   seq 0 (length (Database.data (db self)))).
Proof.
  rewrite updateSelection_selection. split; [| split].
  - rewrite newSelection_eq. apply indices_where_NoDup.
  - intros i. rewrite newSelection_member.
    split; intros (p & Hp & Hin); exists p; split; try done;
      by apply inside_brushes_positions.
  - intros Hnone. rewrite newSelection_eq. apply indices_where_all.
    intros p _. apply row_selected_spec.
    intros d lo hi Hd Hact. by destruct (Hnone d lo hi Hd).
Qed.

Lemma inside_brushes_insert self d lo hi dims p :
  (forall lo' hi', ~ active self d lo' hi') ->
  inside_brushes
    (set_brushExtents (<[d := Some (lo, hi)]> (brushExtents self)) self) dims p ->
  inside_brushes self dims p.
Proof.
  intros Hfree Hin d' lo' hi' Hd' Hact.
  destruct (decide (d' = d)) as [-> | Hne]; [by destruct (Hfree lo' hi') |].
  apply (Hin d' lo' hi' Hd').
  unfold active in *. cbn. by rewrite lookup_insert_ne.
Qed.

(** C6: every index of a recomputed selection is below the number of
    rows, and making the brush extent of one more dimension active, the
    other extents and the scales staying as they are, gives a recomputed
    selection that is contained in the previous one and is not longer. *)
Theorem selection_bounded_and_narrowing force force' self d lo hi :
  (forall lo' hi', ~ active self d lo' hi') ->
  let before := selection (updateSelection force self) in
  let after :=
    selection (updateSelection force'
      (set_brushExtents (<[d := Some (lo, hi)]> (brushExtents self)) self)) in
  (forall i, i ∈ before -> (i < length (Database.data (db self)))%nat) /\
  (forall i, i ∈ after -> (i < length (Database.data (db self)))%nat) /\
  after ⊆ before /\
  (length after <= length before)%nat.
Proof.
  intros Hfree before after. subst before after.
  rewrite !updateSelection_selection, !newSelection_eq. cbn.
  assert (Hsub : sublist
    (indices_where (row_selected
       (set_brushExtents (<[d := Some (lo, hi)]> (brushExtents self)) self)
       (dimensions self)) 0 (Database.data (db self)))
    (indices_where (row_selected self (dimensions self)) 0
       (Database.data (db self)))).
  { apply indices_where_sublist. intros p _ Hsel.
    apply row_selected_spec. apply row_selected_spec in Hsel.
    by eapply inside_brushes_insert. }
  repeat split.
  - intros i Hi. apply indices_where_bounds in Hi. lia.
  - intros i Hi. apply indices_where_bounds in Hi. lia.
  - by apply sublist_subseteq.
  - by apply sublist_length.
Qed.

Lemma updateSelection_cases force self :
  updateSelection force self = self \/
  updateSelection force self =
    emit [selectionchange (newSelection self); redrawSelectedPaths]
         (set_selection (newSelection self) self).
Proof.
  unfold updateSelection.
  destruct (negb (arraysEqual (selection self) (newSelection self)) || force);
    [by right | by left].
Qed.

Lemma updateSelection_brushExtents force self :
  brushExtents (updateSelection force self) = brushExtents self.
Proof. by destruct (updateSelection_cases force self) as [-> | ->]. Qed.

Lemma updateSelection_dimensions force self :
  dimensions (updateSelection force self) = dimensions self.
Proof. by destruct (updateSelection_cases force self) as [-> | ->]. Qed.

Lemma updateSelection_getYPosition force self d p :
  getYPosition (updateSelection force self) d p = getYPosition self d p.
Proof. by destruct (updateSelection_cases force self) as [-> | ->]. Qed.

Lemma row_selected_ext self self' dims p :
  brushExtents self = brushExtents self' ->
  (forall d, getYPosition self d p = getYPosition self' d p) ->
  row_selected self dims p = row_selected self' dims p.
Proof.
  intros Hb Hy. induction dims as [| dim dims IH]; cbn [row_selected]; [done |].
  by rewrite Hb, Hy, IH.
Qed.

Lemma newSelection_ext self self' :
  db self = db self' ->
  dimensions self = dimensions self' ->
  brushExtents self = brushExtents self' ->
  (forall d p, getYPosition self d p = getYPosition self' d p) ->
  newSelection self = newSelection self'.
Proof.
  intros Hdb Hdims Hb Hy. rewrite !newSelection_eq, Hdb, Hdims.
  apply indices_where_ext. intros p. by apply row_selected_ext.
Qed.

Lemma updateSelection_newSelection force self :
  newSelection (updateSelection force self) = newSelection self.
Proof.
  by destruct (updateSelection_cases force self) as [-> | ->];
    [| apply newSelection_ext].
Qed.

(** What [axisBrush] stores for a brush event with selection [sel]. *)
Lemma axisBrush_event sel d self :
  axisBrush (Some sel) d self =
  let self1 :=
    set_brushExtents
      (match sel with
       | Some (lo, hi) =>
           if num_eq lo hi then delete d (brushExtents self)
           else <[d := sel]> (brushExtents self)
       | None => <[d := sel]> (brushExtents self)
       end) self in
  if negb (dontUpdateSelectionOnBrush self) then updateSelection false self1
  else self1.
Proof.
  unfold axisBrush. destruct sel as [[lo hi] |]; [| done].
  destruct (num_eq lo hi); [| done].
  by rewrite delete_insert_eq.
Qed.

(** C8: a brush event whose selection has equal ends leaves no extent
    stored for its dimension: the stored extents are the previous ones
    without that dimension, which then has no active extent, a data point
    is inside the brushes exactly when it is inside those of the other
    dimensions, and (unless updates are switched off) the selection is
    recomputed from them.  The handler returns a state in every case. *)
Theorem degenerate_brush_is_cleared self d (lo hi : num) :
  num_eq lo hi = true ->
  let self' := axisBrush (Some (Some (lo, hi))) d self in
  brushExtents self' = delete d (brushExtents self) /\
  (forall lo' hi', ~ active self' d lo' hi') /\
  (forall p, inside_brushes self' (dimensions self') p <->
     forall d' lo' hi', d' ∈ dimensions self -> d' <> d ->
       active self d' lo' hi' -> within lo' hi' (getYPosition self d' p)) /\
  (dontUpdateSelectionOnBrush self = false -> selection_is_current self').
Proof.
  intros Heq self'. subst self'. rewrite axisBrush_event, Heq. cbn zeta.
  set (self1 := set_brushExtents (delete d (brushExtents self)) self).
  assert (Hb : brushExtents
    (if negb (dontUpdateSelectionOnBrush self) then updateSelection false self1
     else self1) = delete d (brushExtents self)).
  { destruct (negb (dontUpdateSelectionOnBrush self));
      [by rewrite updateSelection_brushExtents | done]. }
  assert (Hd : dimensions
    (if negb (dontUpdateSelectionOnBrush self) then updateSelection false self1
     else self1) = dimensions self).
  { destruct (negb (dontUpdateSelectionOnBrush self));
      [by rewrite updateSelection_dimensions | done]. }
  assert (Hy : forall d' p, getYPosition
    (if negb (dontUpdateSelectionOnBrush self) then updateSelection false self1
     else self1) d' p = getYPosition self d' p).
  { intros d' p. destruct (negb (dontUpdateSelectionOnBrush self));
      [by rewrite updateSelection_getYPosition | done]. }
  split; [done |]. split; [| split].
  - intros lo' hi'. unfold active. rewrite Hb, lookup_delete_eq. discriminate.
  - intros p. unfold inside_brushes, active. rewrite Hb, Hd. split.
    + intros Hin d' lo' hi' Hd' Hne Hact. rewrite <- Hy.
      apply Hin; [done |]. by rewrite lookup_delete_ne.
    + intros Hin d' lo' hi' Hd' Hact. rewrite Hy.
      destruct (decide (d' = d)) as [-> | Hne];
        [by rewrite lookup_delete_eq in Hact |].
      rewrite lookup_delete_ne in Hact by done. by apply Hin.
  - intros ->. cbn. unfold selection_is_current.
    by rewrite updateSelection_selection, updateSelection_newSelection.
Qed.

(** What d3 keeps of a selection it is moved to. *)
Lemma brush_move_suppressed d (sel : extent) self :
  dontUpdateSelectionOnBrush self = true ->
  brush_move d sel self =
  set_brushExtents
    (<[d := match sel with
            | Some (lo, hi) => if num_eq lo hi then None else Some (lo, hi)
            | None => None
            end]> (brushExtents self)) self.
Proof.
  intros Hflag. unfold brush_move.
  set (kept := match sel with
               | Some (lo, hi) => if num_eq lo hi then None else Some (lo, hi)
               | None => None
               end).
  assert (Hkept : forall b : gmap string extent,
    match kept with
    | Some (lo, hi) => if num_eq lo hi then delete d b else <[d := kept]> b
    | None => <[d := kept]> b
    end = <[d := kept]> b).
  { intros b. subst kept. destruct sel as [[lo hi] |]; [| done].
    destruct (num_eq lo hi) eqn:Heq; [done | by rewrite Heq]. }
  rewrite !axisBrush_event. cbn zeta. rewrite Hflag. cbn.
  rewrite Hflag. cbn. rewrite !Hkept. by rewrite insert_insert_eq.
Qed.

Lemma move_brushes_suppressed oldHeight ds self :
  dontUpdateSelectionOnBrush self = true ->
  NoDup ds ->
  exists b,
    move_brushes oldHeight ds self = set_brushExtents b self /\
    (forall d, d ∈ ds ->
       b !! d = Some (resized_extent oldHeight (internalHeight self)
                        (brushExtents self !! d))) /\
    (forall d, d ∉ ds -> b !! d = brushExtents self !! d).
Proof.
  intros Hflag Hnd. revert self Hflag.
  induction Hnd as [| d ds Hd Hnd IH]; intros self Hflag; cbn [move_brushes].
  - exists (brushExtents self). split; [by destruct self |].
    split; [intros d Hd; inversion Hd | done].
  - rewrite brush_move_suppressed by done.
    set (kept := match rescaled oldHeight d self with
                 | Some (lo, hi) =>
                     if num_eq lo hi then None else Some (lo, hi)
                 | None => None
                 end).
    assert (Hkept : kept = resized_extent oldHeight (internalHeight self)
                             (brushExtents self !! d)).
    { subst kept. unfold rescaled, resized_extent.
      by destruct (brushExtents self !! d) as [[[lo hi] |] |]. }
    destruct (IH (set_brushExtents (<[d := kept]> (brushExtents self)) self) Hflag)
      as (b & Hmove & Hin & Hout).
    exists b. split; [by rewrite Hmove |]. cbn in Hin, Hout. split.
    + intros d' Hd'. apply elem_of_cons in Hd' as [-> | Hd'].
      * rewrite Hout by done. by rewrite lookup_insert_eq, Hkept.
      * rewrite Hin by done. rewrite lookup_insert_ne; [done |].
        intros ->. by apply Hd.
    + intros d' Hd'. apply not_elem_of_cons in Hd' as [Hne Hd'].
      rewrite Hout by done. by rewrite lookup_insert_ne.
Qed.

(** The loop over the axis groups with the selection switched off, for
    any list of groups: the stored extent of a dimension is rescaled as
    many times as the list names it. *)
Lemma move_brushes_counts oldHeight ds self :
  dontUpdateSelectionOnBrush self = true ->
  exists b,
    move_brushes oldHeight ds self = set_brushExtents b self /\
    forall d,
      b !! d =
      Nat.iter (count_occ string_dec ds d)
        (fun e => Some (resized_extent oldHeight (internalHeight self) e))
        (brushExtents self !! d).
Proof.
  revert self. induction ds as [| d0 ds IH]; intros self Hflag;
    cbn [move_brushes].
  - exists (brushExtents self). split; [by destruct self | done].
  - rewrite brush_move_suppressed by done.
    set (kept := match rescaled oldHeight d0 self with
                 | Some (lo, hi) =>
                     if num_eq lo hi then None else Some (lo, hi)
                 | None => None
                 end).
    assert (Hkept : kept = resized_extent oldHeight (internalHeight self)
                             (brushExtents self !! d0)).
    { subst kept. unfold rescaled, resized_extent.
      by destruct (brushExtents self !! d0) as [[[lo hi] |] |]. }
    destruct (IH (set_brushExtents (<[d0 := kept]> (brushExtents self)) self) Hflag)
      as (b & Hmove & Hb).
    exists b. split; [by rewrite Hmove |]. cbn in Hb.
    intros d. rewrite Hb. cbn [count_occ].
    destruct (string_dec d0 d) as [-> | Hne].
    + rewrite Nat.iter_succ_r. by rewrite lookup_insert_eq, Hkept.
    + by rewrite lookup_insert_ne.
Qed.

(** The resize itself does not touch the stored selection. *)
Lemma updateSize_selection parentHeight self :
  selection (updateSize parentHeight self) = selection self.
Proof.
  unfold updateSize.
  destruct (move_brushes_counts (internalHeight self)
              (axes (set_dontUpdateSelectionOnBrush true (resize parentHeight self)))
              (set_dontUpdateSelectionOnBrush true (resize parentHeight self))
              eq_refl) as (b & -> & _).
  done.
Qed.

(** C7, as amended: during [updateSize] the selection is not recomputed
    while the stored brush extents are rescaled by the ratio of the new
    height to the old one, once for every axis group that carries the
    name of the dimension (so once when the names of the axes are
    distinct, and not at all for a dimension without an axis);
    afterwards recomputation is switched on again.  The resize sends
    the three redraw requests and no [selectionchange]. *)
Theorem updateSize_suppresses_and_rescales parentHeight self :
  let self' := updateSize parentHeight self in
  emitted_since self self' =
    [redrawSelectedPaths; redrawHighlightedPaths; redrawOverlayPaths] /\
  (forall e, e ∈ emitted_since self self' -> is_selectionchange e = false) /\
  dontUpdateSelectionOnBrush self' = false /\
  (forall d,
     brushExtents self' !! d =
     Nat.iter (count_occ string_dec (axes self) d)
       (fun e => Some (resized_extent (internalHeight self)
                         (internalHeight self') e))
       (brushExtents self !! d)) /\
  (NoDup (axes self) ->
   (forall d, d ∈ axes self ->
      brushExtents self' !! d =
      Some (resized_extent (internalHeight self) (internalHeight self')
              (brushExtents self !! d))) /\
   (forall d, d ∉ axes self ->
      brushExtents self' !! d = brushExtents self !! d)).
Proof.
  intros self'. subst self'. unfold updateSize.
  destruct (move_brushes_counts (internalHeight self)
              (axes (set_dontUpdateSelectionOnBrush true (resize parentHeight self)))
              (set_dontUpdateSelectionOnBrush true (resize parentHeight self))
              eq_refl) as (b & Hmove & Hb).
  rewrite Hmove. cbn in Hb.
  assert (Hev : emitted_since self
    (set_dontUpdateSelectionOnBrush false
       (set_brushExtents b
          (set_dontUpdateSelectionOnBrush true (resize parentHeight self)))) =
    [redrawSelectedPaths; redrawHighlightedPaths; redrawOverlayPaths]).
  { unfold emitted_since. cbn. by rewrite drop_app_length. }
  split; [done |]. split.
  { rewrite Hev. intros e He.
    repeat (apply elem_of_cons in He as [-> | He]; [done |]). inversion He. }
  split; [done |]. split; [exact Hb |].
  intros Hnd.
  destruct (move_brushes_suppressed (internalHeight self)
              (axes (set_dontUpdateSelectionOnBrush true (resize parentHeight self)))
              (set_dontUpdateSelectionOnBrush true (resize parentHeight self))
              eq_refl Hnd) as (b' & Hmove' & Hin & Hout).
  rewrite Hmove in Hmove'. injection Hmove' as <-.
  cbn in Hin, Hout. by split.
Qed.

End PcoordFacts.

Section DatabaseFacts.

Context {N : JSNumber} {B : Builtins}.
Import JS Database.

Implicit Types (self : Database.t) (d : string) (row : gmap string value)
  (rows : list (gmap string value)) (i : nat).

Lemma infer_dimension_spec d self numeric :
  data self <> [] ->
  looks_numeric (sampled d (data self)) = Returns numeric ->
  infer_dimension d self =
  Returns (Build (data self) (dimensions self)
             (<[d := inferred_type d (data self)]> (dimensionTypes self))
             (<[d := inferred_domain d (data self)]> (dimensionDomains self))).
Proof.
  unfold infer_dimension, inferred_type, inferred_domain, numeric_sample, sampled.
  destruct (data self) as [| row0 rows] eqn:Hdata; [done |]. intros _.
  change (get (default ∅ (head (row0 :: rows))) d) with (get row0 d).
  intros ->. run_bind. by destruct numeric.
Qed.

Lemma infer_dimension_throws d self :
  data self <> [] ->
  looks_numeric (sampled d (data self)) = TypeError ->
  infer_dimension d self = TypeError.
Proof.
  unfold infer_dimension, sampled.
  destruct (data self) as [| row0 rows] eqn:Hdata; [done |]. intros _.
  change (get (default ∅ (head (row0 :: rows))) d) with (get row0 d).
  by intros ->.
Qed.

Lemma looks_numeric_cases (val : value) :
  (exists numeric, looks_numeric val = Returns numeric) \/
  looks_numeric val = TypeError.
Proof.
  unfold looks_numeric. destruct (truthy val); [| by left; eexists].
  destruct (negb (isNaN val)); [by left; eexists |].
  destruct val; first [by right | by left; eexists].
Qed.

Lemma forEach_infer_dimension ds rows dims types domains :
  rows <> [] ->
  (forall d, d ∈ ds -> exists numeric,
     looks_numeric (sampled d rows) = Returns numeric) ->
  exists types' domains',
    forEach infer_dimension ds (Build rows dims types domains) =
      Returns (Build rows dims types' domains') /\
    (forall d, d ∈ ds ->
       types' !! d = Some (inferred_type d rows) /\
       domains' !! d = Some (inferred_domain d rows)) /\
    (forall d, d ∉ ds -> types' !! d = types !! d /\ domains' !! d = domains !! d).
Proof.
  intros Hrows. revert types domains.
  induction ds as [| d0 ds IH]; intros types domains Hreturns; cbn [forEach].
  - exists types, domains. split; [done |].
    split; [intros d Hd; inversion Hd | done].
  - destruct (Hreturns d0 (list_elem_of_here _ _)) as [numeric Hnumeric].
    rewrite (infer_dimension_spec d0 _ numeric) by done. cbn.
    destruct (IH (<[d0 := inferred_type d0 rows]> types)
                 (<[d0 := inferred_domain d0 rows]> domains))
      as (types' & domains' & Hrun & Hin & Hout).
    { intros d Hd. apply Hreturns. by apply list_elem_of_further. }
    exists types', domains'. split; [done |]. split.
    + intros d Hd. destruct (decide (d ∈ ds)) as [Hds | Hds]; [by apply Hin |].
      apply elem_of_cons in Hd as [-> | Hd]; [| done].
      destruct (Hout d0 Hds) as [-> ->]. by rewrite !lookup_insert_eq.
    + intros d Hd. apply not_elem_of_cons in Hd as [Hne Hd].
      destruct (Hout d Hd) as [-> ->]. by rewrite !lookup_insert_ne.
Qed.

Lemma forEach_infer_dimension_throws ds rows dims types domains d :
  rows <> [] ->
  d ∈ ds ->
  looks_numeric (sampled d rows) = TypeError ->
  forEach infer_dimension ds (Build rows dims types domains) = TypeError.
Proof.
  intros Hrows Hd Hthrows. revert types domains.
  induction ds as [| d0 ds IH]; intros types domains; [inversion Hd |].
  cbn [forEach].
  destruct (looks_numeric_cases (sampled d0 rows)) as [[numeric Hnumeric] | Hthrows0].
  - rewrite (infer_dimension_spec d0 _ numeric) by done. cbn.
    apply IH. apply elem_of_cons in Hd as [-> | Hd]; [congruence | done].
  - by rewrite infer_dimension_throws.
Qed.

Lemma checkErrors_passes (data_arr : CSV.grid) :
  checkErrors data_arr = None ->
  exists header line lines, data_arr = header :: line :: lines.
Proof.
  unfold checkErrors. destruct data_arr as [| header [| line lines]];
    [done | done |]. intros _. by exists header, line, lines.
Qed.

Lemma get_set k v obj d :
  get (set k v obj) d =
  if String.eqb k "__proto__" then get obj d
  else if String.eqb k d then v else get obj d.
Proof.
  unfold set. destruct (String.eqb k "__proto__"); [done |]. unfold get.
  destruct (String.eqb_spec k d) as [-> | Hne].
  - by rewrite lookup_insert_eq.
  - by rewrite lookup_insert_ne.
Qed.

(** The properties of the object of a line: those it started with and
    one for every name of the header but [__proto__]. *)
Lemma row_object_dom (header cells : list CSV.cell) k obj name :
  is_Some (row_object header k cells obj !! name) <->
  (name ∈ map to_key header /\ name <> "__proto__"%string) \/
  is_Some (obj !! name).
Proof.
  revert k obj. induction header as [| p header IH]; intros k obj;
    cbn [row_object map].
  - split; [by right | intros [[H _] | H]; [inversion H | done]].
  - rewrite IH, elem_of_cons. unfold set.
    destruct (String.eqb_spec (to_key p) "__proto__") as [Hproto | Hproto].
    + split.
      * intros [[H ?] | H]; [left; split; [by right | done] | by right].
      * intros [[[-> | H] ?] | H]; [done | by left | by right].
    + destruct (decide (to_key p = name)) as [<- | Hne].
      * rewrite lookup_insert_eq.
        split; [intros _; left; split; [by left | done] | intros _; by right].
      * rewrite lookup_insert_ne by done. split.
        -- intros [[H ?] | H]; [left; split; [by right | done] | by right].
        -- intros [[[H | H] ?] | H]; [by destruct Hne | by left | by right].
Qed.

(** The values of the properties of the object of a line: the cells, and
    what the object started with. *)
Lemma row_object_own header i cells obj d v :
  row_object header i cells obj !! d = Some v ->
  obj !! d = Some v \/ exists c, v = of_cell c.
Proof.
  revert i obj. induction header as [| p header IH]; intros i obj;
    cbn [row_object]; [by left |].
  intros Hv. destruct (IH _ _ Hv) as [Hobj | Hcell]; [| by right].
  unfold set in Hobj. destruct (String.eqb (to_key p) "__proto__"); [by left |].
  destruct (decide (to_key p = d)) as [<- | Hne].
  - rewrite lookup_insert_eq in Hobj. injection Hobj as <-. right. by eexists.
  - rewrite lookup_insert_ne in Hobj by done. by left.
Qed.

(** What a row of the table gives for a name of the header: a cell, or
    for the name [__proto__] the prototype of the row. *)
Lemma row_object_get header cells d :
  d ∈ map to_key header ->
  if String.eqb d "__proto__"
  then get (row_object header 0 cells ∅) d = Builtin d
  else exists c, get (row_object header 0 cells ∅) d = of_cell c.
Proof.
  intros Hd. destruct (String.eqb_spec d "__proto__") as [-> | Hne].
  - unfold get.
    destruct (row_object header 0 cells ∅ !! "__proto__"%string) as [v |] eqn:Hv;
      [| done].
    assert (Hsome : is_Some (row_object header 0 cells ∅ !! "__proto__"%string))
      by by eexists.
    apply row_object_dom in Hsome as [[_ ?] | [? Hempty]]; [done |].
    by rewrite lookup_empty in Hempty.
  - assert (Hsome : is_Some (row_object header 0 cells ∅ !! d))
      by (apply row_object_dom; by left).
    destruct Hsome as [v Hv]. unfold get. rewrite Hv.
    destruct (row_object_own _ _ _ _ _ _ Hv) as [Hempty | Hcell]; [| done].
    by rewrite lookup_empty in Hempty.
Qed.

Lemma sample_value_cases d rows val :
  sample_value d rows val = val \/
  exists row, row ∈ rows /\ sample_value d rows val = get row d /\
    truthy (get row d) = true.
Proof.
  induction rows as [| row rows IH]; cbn; [by left |].
  destruct (truthy (get row d)) eqn:Htruthy.
  - right. exists row. split; [apply list_elem_of_here | done].
  - destruct IH as [-> | (row' & Hrow' & -> & Htruthy')]; [by left |].
    right. exists row'. split; [by apply list_elem_of_further | done].
Qed.

(** The value the type is taken from is the value of some row. *)
Lemma sampled_row d rows :
  rows <> [] -> exists row, row ∈ rows /\ sampled d rows = get row d.
Proof.
  destruct rows as [| row0 rows]; [done |]. intros _. unfold sampled.
  change (get (default ∅ (head (row0 :: rows))) d) with (get row0 d).
  destruct (sample_value_cases d (row0 :: rows) (get row0 d))
    as [-> | (row & Hrow & -> & _)].
  - exists row0. split; [apply list_elem_of_here | done].
  - by exists row.
Qed.

(** On the rows of a table the test of the sample throws exactly for a
    column named [__proto__]. *)
Lemma looks_numeric_table header (lines : list (list CSV.cell)) d :
  lines <> [] ->
  d ∈ map to_key header ->
  let rows := map (fun cells => row_object header 0 cells ∅) lines in
  if String.eqb d "__proto__"
  then looks_numeric (sampled d rows) = TypeError
  else exists numeric, looks_numeric (sampled d rows) = Returns numeric.
Proof.
  intros Hlines Hd rows.
  destruct (sampled_row d rows) as (row & Hrow & ->);
    [by destruct lines |].
  apply list_elem_of_fmap in Hrow as (cells & -> & _).
  pose proof (row_object_get header cells d Hd) as Hget.
  destruct (String.eqb d "__proto__").
  - by rewrite Hget.
  - destruct Hget as [c ->]. unfold looks_numeric.
    destruct c as [s |]; cbn [of_cell truthy]; [| by eexists].
    destruct (negb (String.eqb s EmptyString)); [| by eexists].
    destruct (negb (isNaN (Str s))); by eexists.
Qed.

(** What a successful load leaves in the database. *)
Lemma load_spec csvText self :
  load csvText = Returns (Loaded self) ->
  exists header line lines,
    CSV.parseCSV csvText = Returns (header :: line :: lines) /\
    checkErrors (header :: line :: lines) = None /\
    data self = map (fun cells => row_object header 0 cells ∅) (line :: lines) /\
    dimensions self = map to_key header /\
    (forall d, d ∈ dimensions self ->
       dimensionTypes self !! d = Some (inferred_type d (data self)) /\
       dimensionDomains self !! d = Some (inferred_domain d (data self))) /\
    (forall d, d ∉ dimensions self ->
       dimensionTypes self !! d = None /\ dimensionDomains self !! d = None) /\
    "__proto__"%string ∉ dimensions self.
Proof.
  unfold load. destruct (CSV.parseCSV csvText) as [data_arr | |]; cbn; try done.
  unfold build. destruct (checkErrors data_arr) as [msg |] eqn:Hcheck; [done |].
  destruct (checkErrors_passes _ Hcheck) as (header & line & lines & ->).
  destruct (decide ("__proto__"%string ∈ map to_key header)) as [Hproto | Hproto].
  { pose proof (looks_numeric_table header (line :: lines) _ ltac:(done) Hproto)
      as Hthrows. cbn in Hthrows.
    by rewrite (forEach_infer_dimension_throws _ _ _ _ _ "__proto__"). }
  destruct (forEach_infer_dimension (map to_key header)
              (map (fun cells => row_object header 0 cells ∅) (line :: lines))
              (map to_key header) ∅ ∅ ltac:(done))
    as (types' & domains' & -> & Hin & Hout).
  { intros d Hd.
    pose proof (looks_numeric_table header (line :: lines) d ltac:(done) Hd)
      as Hreturns. cbn zeta in Hreturns.
    destruct (String.eqb_spec d "__proto__") as [-> | _]; [done | done]. }
  cbn. intros [= <-]. exists header, line, lines. cbn.
  repeat split; try done; by apply Hin || apply Hout.
Qed.

Lemma sample_value_all_undefined d rows :
  (forall row, row ∈ rows -> get row d = Undefined) ->
  sample_value d rows Undefined = Undefined.
Proof.
  induction rows as [| row rows IH]; intros Hall; cbn; [done |].
  rewrite (Hall row) by apply list_elem_of_here. cbn.
  apply IH. intros row' Hrow'. apply Hall. by apply list_elem_of_further.
Qed.

(** C10: in a loaded database, a dimension for which every row holds
    [undefined] has the type STRING, and its domain is the list of the
    values of the rows. *)
Theorem all_missing_dimension_is_STRING csvText self d :
  load csvText = Returns (Loaded self) ->
  d ∈ dimensions self ->
  (forall row, row ∈ data self -> get row d = Undefined) ->
  dimensionTypes self !! d = Some STRING /\
  dimensionDomains self !! d = Some (map (fun p => get p d) (data self)).
Proof.
  intros Hload Hd Hall.
  destruct (load_spec _ _ Hload)
    as (header & line & lines & _ & _ & Hdata & _ & Hin & _).
  destruct (Hin d Hd) as [-> ->].
  assert (Hs : sampled d (data self) = Undefined).
  { unfold sampled. destruct (data self) as [| row0 rows] eqn:Hrows;
      [by rewrite Hdata in Hrows |].
    change (sample_value d (row0 :: rows) (get row0 d) = Undefined).
    rewrite (Hall row0) by apply list_elem_of_here.
    by apply sample_value_all_undefined. }
  unfold inferred_type, inferred_domain. by rewrite Hs.
Qed.

Lemma add_distance_step self query row d dist :
  is_Some (dimensionDomains self !! d) ->
  add_distance self query row d dist =
  Returns (if present query d then add dist (term self query row d) else dist).
Proof.
  intros [extent Hext].
  unfold add_distance, domain_ends, present, term, normalize, domainMin, domainMax.
  rewrite Hext. cbn [default].
  destruct (negb (is_undefined (get query d))); [| done].
  destruct (isStringDimension self d); [done |].
  destruct (isNaN (get query d)); [done |].
  by destruct (is_undefined (get row d)).
Qed.

Lemma forEach_add_distance self query row ds dist :
  (forall d, d ∈ ds -> is_Some (dimensionDomains self !! d)) ->
  forEach (add_distance self query row) ds dist =
  Returns (fold_left add
             (map (term self query row) (List.filter (present query) ds)) dist).
Proof.
  revert dist. induction ds as [| d ds IH]; intros dist Hdom;
    cbn [forEach List.filter]; [done |].
  rewrite add_distance_step by apply Hdom, list_elem_of_here.
  run_bind.
  rewrite IH by (intros d' Hd'; apply Hdom; by apply list_elem_of_further).
  by destruct (present query d).
Qed.

Lemma forEachIndexed_visit_row self query threshold rows i found :
  (forall d, d ∈ dimensions self -> is_Some (dimensionDomains self !! d)) ->
  forEachIndexed (visit_row self query threshold) i rows found =
  Returns (found ++ indices_where (similar self query threshold) i rows).
Proof.
  intros Hdom. revert i found.
  induction rows as [| row rows IH]; intros i found; cbn [forEachIndexed].
  - cbn. by rewrite app_nil_r.
  - assert (Hvisit : visit_row self query threshold row i found =
      Returns (if similar self query threshold row then found ++ [i] else found)).
    { unfold visit_row. rewrite forEach_add_distance by done.
      run_bind.
      fold (distance self query row). fold (similar self query threshold row).
      by destruct (similar self query threshold row). }
    rewrite Hvisit. run_bind.
    rewrite IH. cbn [indices_where].
    destruct (similar self query threshold row); [by rewrite <- app_assoc | done].
Qed.

(** On a loaded database, [getSimilar] returns, each once and in
    increasing order of the rows, exactly the indices of the rows whose
    distance to the query is at most the threshold, the distance being
    the sum of the terms of [term] over the dimensions for which reading
    the query gives a value, its own or one of its prototype. *)
Lemma getSimilar_exact csvText self query threshold :
  load csvText = Returns (Loaded self) ->
  getSimilar self query threshold =
    Returns (indices_where (similar self query threshold) 0 (data self)) /\
  NoDup (indices_where (similar self query threshold) 0 (data self)) /\
  (forall i, i ∈ indices_where (similar self query threshold) 0 (data self) <->
     exists row, data self !! i = Some row /\
       le_value (distance self query row) threshold = true).
Proof.
  intros Hload.
  destruct (load_spec _ _ Hload) as (header & line & lines & _ & _ & _ & _ & Hin & _).
  split; [| split].
  - unfold getSimilar. rewrite forEachIndexed_visit_row; [done |].
    intros d Hd. destruct (Hin d Hd) as [_ ->]. done.
  - apply indices_where_NoDup.
  - intros i. rewrite elem_of_indices_where, Nat.sub_0_r. unfold similar.
    split; [intros (_ & row & ? & ?); by exists row |].
    intros (row & ? & ?). split; [lia | by exists row].
Qed.

(** The rows of a loaded database hold strings and [undefined] only. *)
Lemma row_object_values header i cells obj d :
  (forall n, get obj d <> Num n) ->
  forall n, get (row_object header i cells obj) d <> Num n.
Proof.
  revert i obj. induction header as [| p header IH]; intros i obj Hobj;
    cbn [row_object]; [done |].
  apply IH. intros n. rewrite get_set.
  destruct (String.eqb (to_key p) "__proto__"); [apply Hobj |].
  destruct (String.eqb (to_key p) d); [| apply Hobj].
  by destruct (default None (cells !! i)).
Qed.

Lemma sample_value_not_Num d rows val :
  (forall n, val <> Num n) ->
  (forall row, row ∈ rows -> forall n, get row d <> Num n) ->
  forall n, sample_value d rows val <> Num n.
Proof.
  intros Hval. induction rows as [| row rows IH]; intros Hrows; cbn; [done |].
  destruct (truthy (get row d)).
  - apply Hrows, list_elem_of_here.
  - apply IH. intros row' Hrow'. apply Hrows. by apply list_elem_of_further.
Qed.

(** No dimension of a loaded database has the type INTEGER:
    [Number.isInteger] is applied to the text of a cell, never to a
    number. *)
Lemma load_never_INTEGER csvText self d :
  load csvText = Returns (Loaded self) ->
  dimensionTypes self !! d <> Some INTEGER.
Proof.
  intros Hload.
  destruct (load_spec _ _ Hload)
    as (header & line & lines & _ & _ & Hdata & _ & Hin & Hout & _).
  destruct (decide (d ∈ dimensions self)) as [Hd | Hd];
    [| by destruct (Hout d Hd) as [-> _]].
  destruct (Hin d Hd) as [-> _]. unfold inferred_type.
  assert (Hrows : forall row, row ∈ data self -> forall n, get row d <> Num n).
  { intros row Hrow. rewrite Hdata in Hrow.
    apply list_elem_of_fmap in Hrow as (cells & -> & _).
    apply row_object_values. intros n. unfold get, inherited.
    rewrite lookup_empty. by destruct (existsb _ _). }
  assert (Hs : forall n, sampled d (data self) <> Num n).
  { unfold sampled. apply sample_value_not_Num; [| done].
    destruct (data self) as [| row0 rows]; [done |].
    apply Hrows, list_elem_of_here. }
  destruct (sampled d (data self)) as [| s | n | name]; cbn.
  - done.
  - rewrite orb_true_r. by destruct (numeric_sample (Str s)).
  - by destruct (Hs n).
  - done.
Qed.

End DatabaseFacts.

Section Scenarios.

Import CSV JS Ideal Scenario.

Lemma load_text : Database.load text = Returns (Database.Loaded db).
Proof. reflexivity. Qed.

Lemma load_sparse_text :
  Database.load sparse_text = Returns (Database.Loaded sparse_db).
Proof. reflexivity. Qed.

(** The parser on a line with an empty unquoted field and an empty
    quoted field, and on a quoted field that holds a comma. *)
Example parseCSV_fields :
  parseCSV ("a,," +:+ quote "" +:+ nl +:+ quote "x,y" +:+ ",2,") =
  Returns [[Some "a"; None; Some ""]; [Some "x,y"; Some "2"; None]]%string.
Proof. reflexivity. Qed.

(** A text that begins with a line break loses its empty first line. *)
Example parseCSV_leading_newline : parseCSV (nl +:+ "a") = Returns [[Some "a"%string]].
Proof. reflexivity. Qed.

(** C9, at the failing inputs: the empty unquoted field that opens the
    text is not decoded to [undefined].  Before a comma, as in [,a], the
    parser throws on it, for whatever follows the comma, where the grid
    of one line with the cells [undefined] and [a] is claimed; before a
    line break it is dropped with its line, where the lines [undefined]
    and [a] are claimed.  The same field later in the text decodes to
    [undefined], apart from the empty string of an empty quoted field. *)
Theorem parseCSV_first_empty_field :
  parseCSV ",a" = TypeError /\
  (forall r, parseCSV (String COMMA r) = TypeError) /\
  parseCSV (nl +:+ "a") = Returns [[Some "a"%string]] /\
  parseCSV ("a" +:+ nl +:+ ",a") = Returns [[Some "a"]; [None; Some "a"]]%string /\
  parseCSV (quote "" +:+ ",a") = Returns [[Some ""; Some "a"]]%string.
Proof.
  split; [reflexivity |]. split; [apply parseCSV_leading_comma |].
  repeat split; reflexivity.
Qed.

(** C3, at the failing input: the table with the lines [a,b], [1,2] and
    [3,4] loads with the dimensions [a] and [b] and the domains [1,3] and
    [2,4], but both dimensions get the type FLOAT, not INTEGER. *)
Theorem load_text_types_are_FLOAT :
  Database.load text = Returns (Database.Loaded db) /\
  Database.dimensions db = ["a"; "b"]%string /\
  Database.dimensionTypes db !! "a"%string = Some Database.FLOAT /\
  Database.dimensionTypes db !! "b"%string = Some Database.FLOAT /\
  Database.dimensionDomains db !! "a"%string = Some [Num (int 1); Num (int 3)] /\
  Database.dimensionDomains db !! "b"%string = Some [Num (int 2); Num (int 4)].
Proof. repeat split; reflexivity. Qed.

(** The rows within 0.5 of the query (both are at distance 0.5), and
    those within 0.4 (none). *)
Example getSimilar_text :
  Database.getSimilar db query (Str "0.5") = Returns [0; 1]%nat /\
  Database.getSimilar db query (Str "0.4") = Returns [].
Proof. split; reflexivity. Qed.

(** C2, at the failing input: on the table with the columns [a] and
    [constructor], the query that states the value 2 for [a] and nothing
    else finds no row within 0.5.  The dimension [constructor] is absent
    from the query, but reading it there gives the member the query
    inherits from [Object.prototype], which is not a number, so it adds 1
    to the distance of every row.  With the absent dimension
    contributing 0, as claimed, both rows are at distance 0.5 and are
    found.  This holds whatever text the engine gives its built-in
    functions. *)
Theorem getSimilar_counts_inherited_member (B : Builtins) :
  Database.load members_text = Returns (Database.Loaded members_db) /\
  query !! "constructor"%string = None /\
  Database.getSimilar (B:=B) members_db query (Num half) = Returns [] /\
  indices_where (Database.stated_similar (B:=B) members_db query (Num half)) 0
    (Database.data members_db) = [0; 1]%nat /\
  Database.getSimilar (B:=B) members_db
    (<["constructor" := Num (int 5)]> query)%string (Num half) =
    Returns [0%nat].
Proof. repeat split; reflexivity. Qed.

Lemma getSimilar_exact_witness :
  Database.getSimilar db query (Str "0.5") =
    Returns (indices_where (Database.similar db query (Str "0.5")) 0
               (Database.data db)) /\
  NoDup (indices_where (Database.similar db query (Str "0.5")) 0
           (Database.data db)) /\
  (forall i : nat,
     i ∈ indices_where (Database.similar db query (Str "0.5")) 0
           (Database.data db) <->
     exists row, Database.data db !! i = Some row /\
       le_value (Database.distance db query row) (Str "0.5") = true).
Proof. exact (getSimilar_exact text db query (Str "0.5") load_text). Defined.

Lemma all_missing_dimension_is_STRING_witness :
  Database.dimensionTypes sparse_db !! "c"%string = Some Database.STRING /\
  Database.dimensionDomains sparse_db !! "c"%string =
    Some (map (fun p => get p "c") (Database.data sparse_db)).
Proof.
  apply (all_missing_dimension_is_STRING sparse_text sparse_db "c" load_sparse_text).
  - apply list_elem_of_In. simpl. tauto.
  - intros row Hrow. apply list_elem_of_In in Hrow. simpl in Hrow.
    destruct Hrow as [<- | [<- | []]]; reflexivity.
Defined.

(** The chart of the scenario: its selection is the one its brush
    stands for, and a brush on [b] from 0 to 50 on top leaves no row. *)
Example chart_selection :
  Pcoord.newSelection chart = [0%nat] /\
  Pcoord.newSelection
    (Pcoord.set_brushExtents
       (<["b"%string := Some (int 0, int 50)]> (Pcoord.brushExtents chart)) chart)
  = [].
Proof. split; reflexivity. Qed.

Lemma selection_bounded_and_narrowing_witness :
  let before := Pcoord.selection (Pcoord.updateSelection false chart) in
  let after :=
    Pcoord.selection (Pcoord.updateSelection false
      (Pcoord.set_brushExtents
         (<["b"%string := Some (int 0, int 50)]> (Pcoord.brushExtents chart))
         chart)) in
  (forall i, i ∈ before ->
     (i < length (Database.data (Pcoord.db chart)))%nat) /\
  (forall i, i ∈ after ->
     (i < length (Database.data (Pcoord.db chart)))%nat) /\
  after ⊆ before /\
  (length after <= length before)%nat.
Proof.
  apply (selection_bounded_and_narrowing false false chart "b" (int 0) (int 50)).
  intros lo' hi' Hactive.
  change (None = Some (Some (lo', hi'))) in Hactive. discriminate Hactive.
Defined.

Lemma degenerate_brush_is_cleared_witness :
  let self' := Pcoord.axisBrush (Some (Some (int 70, int 70))) "a" chart in
  Pcoord.brushExtents self' = delete "a"%string (Pcoord.brushExtents chart) /\
  (forall lo' hi', ~ Pcoord.active self' "a" lo' hi') /\
  (forall p, Pcoord.inside_brushes self' (Pcoord.dimensions self') p <->
     forall d' lo' hi', d' ∈ Pcoord.dimensions chart -> d' <> "a"%string ->
       Pcoord.active chart d' lo' hi' ->
       Pcoord.within lo' hi' (Pcoord.getYPosition chart d' p)) /\
  (Pcoord.dontUpdateSelectionOnBrush chart = false ->
   Pcoord.selection_is_current self').
Proof.
  apply (degenerate_brush_is_cleared chart "a" (int 70) (int 70)).
  reflexivity.
Defined.

(** A brush event with equal ends on the chart: every row is selected
    afterwards, and the change is announced. *)
Example degenerate_brush_on_chart :
  let self' := Pcoord.axisBrush (Some (Some (int 70, int 70))) "a" chart in
  Pcoord.selection self' = [0; 1]%nat /\
  Pcoord.emitted self' =
    [Pcoord.selectionchange [0; 1]%nat; Pcoord.redrawSelectedPaths].
Proof. split; reflexivity. Qed.

Lemma chart_axes_NoDup : NoDup (Pcoord.axes chart).
Proof.
  apply NoDup_ListNoDup. repeat constructor; simpl; intuition discriminate.
Defined.

Lemma updateSize_suppresses_and_rescales_witness :
  let self' := Pcoord.updateSize (int 260) chart in
  Pcoord.emitted_since chart self' =
    [Pcoord.redrawSelectedPaths; Pcoord.redrawHighlightedPaths;
     Pcoord.redrawOverlayPaths] /\
  (forall e, e ∈ Pcoord.emitted_since chart self' ->
     Pcoord.is_selectionchange e = false) /\
  Pcoord.dontUpdateSelectionOnBrush self' = false /\
  (forall d,
     Pcoord.brushExtents self' !! d =
     Nat.iter (count_occ string_dec (Pcoord.axes chart) d)
       (fun e => Some (Pcoord.resized_extent (Pcoord.internalHeight chart)
                         (Pcoord.internalHeight self') e))
       (Pcoord.brushExtents chart !! d)) /\
  (forall d, d ∈ Pcoord.axes chart ->
     Pcoord.brushExtents self' !! d =
     Some (Pcoord.resized_extent (Pcoord.internalHeight chart)
             (Pcoord.internalHeight self') (Pcoord.brushExtents chart !! d))) /\
  (forall d, d ∉ Pcoord.axes chart ->
     Pcoord.brushExtents self' !! d = Pcoord.brushExtents chart !! d).
Proof.
  intros self'.
  destruct (updateSize_suppresses_and_rescales (N:=number) (D:=linear_scale)
              (int 260) chart) as (Hev & Hnone & Hflag & Hcount & Hdistinct).
  destruct (Hdistinct chart_axes_NoDup) as [Hin Hout].
  repeat split; assumption.
Defined.

(** The chart made 220 high: the brush on [a] is stretched to twice its
    ends, and nothing else happens. *)
Example updateSize_on_chart :
  let self' := Pcoord.updateSize (int 260) chart in
  Pcoord.internalHeight self' = int 220 /\
  Pcoord.brushExtents self' !! "a"%string = Some (Some (int 100, int 220)) /\
  Pcoord.selection self' = [0%nat] /\
  Pcoord.emitted self' =
    [Pcoord.redrawSelectedPaths; Pcoord.redrawHighlightedPaths;
     Pcoord.redrawOverlayPaths].
Proof. repeat split; reflexivity. Qed.

(** C7, against the claim as stated: resizing the chart does not force a
    recomputation, since no [selectionchange] is sent, which a forced
    recomputation always sends. *)
Lemma updateSize_forces_no_recomputation :
  ~ Pcoord.resize_as_claimed (int 260) chart.
Proof.
  intros (_ & _ & _ & sel & Hsel).
  change (Pcoord.selectionchange sel ∈
    [Pcoord.redrawSelectedPaths; Pcoord.redrawHighlightedPaths;
     Pcoord.redrawOverlayPaths]) in Hsel.
  apply list_elem_of_In in Hsel. simpl in Hsel.
  destruct Hsel as [H | [H | [H | []]]]; discriminate H.
Qed.

(** A resize can leave the stored selection out of date: made 0 high,
    the chart loses its brush (both ends become 0), so that every row
    satisfies the brushes, while the stored selection still holds the
    first row only. *)
Lemma updateSize_can_leave_selection_stale :
  Pcoord.brushExtents (Pcoord.updateSize (int 40) chart) !! "a"%string = Some None /\
  Pcoord.selection (Pcoord.updateSize (int 40) chart) = [0%nat] /\
  Pcoord.newSelection (Pcoord.updateSize (int 40) chart) = [0; 1]%nat.
Proof. repeat split; reflexivity. Qed.

(** The table with two columns named [a] loads, and its chart has two
    axis groups of that name: made 220 high from 110, the one stored
    extent of [a] is stretched twice, to four times its ends. *)
Example updateSize_on_twin_axes :
  Database.load twin_text = Returns (Database.Loaded twin_db) /\
  Pcoord.internalHeight (Pcoord.updateSize (int 260) twin_chart) = int 220 /\
  Pcoord.brushExtents (Pcoord.updateSize (int 260) twin_chart) !! "a"%string =
    Some (Some (int 200, int 440)).
Proof. repeat split; reflexivity. Qed.

End Scenarios.

Section ParserShape.

Import CSV.

Lemma push_cell_rows data c data' :
  Forall (fun row => row <> []) data ->
  push_cell data c = Returns data' ->
  Forall (fun row => row <> []) data'.
Proof.
  unfold push_cell. destruct (last data) as [row |] eqn:Hlast; [| done].
  apply last_Some in Hlast as [init ->]. intros Hrows [= <-].
  rewrite length_app, Nat.add_1_r. cbn [pred length].
  rewrite insert_app_r_alt by lia. rewrite Nat.sub_diag. cbn.
  apply Forall_app in Hrows as [Hinit _]. apply Forall_app. split; [done |].
  constructor; [by destruct row | constructor].
Qed.

Lemma add_match_rows m data data' :
  Forall (fun row => row <> []) data ->
  add_match m data = Returns data' ->
  Forall (fun row => row <> []) data'.
Proof.
  unfold add_match. intros Hrows.
  destruct (String.eqb (delimiter m) (String COMMA EmptyString)).
  - by apply push_cell_rows.
  - unfold push_cell. rewrite last_snoc. intros [= <-].
    rewrite length_app, Nat.add_1_r. cbn [pred length].
    rewrite insert_app_r_alt by lia. rewrite Nat.sub_diag. cbn.
    apply Forall_app. split; [done |]. by repeat constructor.
Qed.

Lemma parse_loop_rows fuel at_start s data data' :
  Forall (fun row => row <> []) data ->
  parse_loop fuel at_start s data = Returns data' ->
  Forall (fun row => row <> []) data' /\ (data <> [] -> data' <> []).
Proof.
  revert at_start s data. induction fuel as [| fuel IH];
    intros at_start s data Hrows; cbn [parse_loop]; [done |].
  destruct (exec at_start s) as [[m rest] |]; [| by intros [= <-]].
  destruct (add_match m data) as [data1 | |] eqn:Hadd; cbn; [| done | done].
  intros Hloop. apply IH in Hloop as [Hrows' Hne]; [| by eapply add_match_rows].
  split; [done |]. intros _. apply Hne.
  by apply add_match_concat in Hadd as [_ ?].
Qed.

Lemma drop_stray_line_rows (data : grid) :
  Forall (fun row => row <> []) data ->
  Forall (fun row => row <> []) (drop_stray_line data) /\
  (data <> [] -> drop_stray_line data <> []).
Proof.
  intros Hrows. unfold drop_stray_line.
  destruct (last data) as [[| [s |] [| c row]] |]; try done.
  destruct (Nat.ltb_spec 1 (length data)) as [Hlen | _]; [| done].
  split; [by apply Forall_take |].
  intros _ Hnil. apply (f_equal length) in Hnil.
  rewrite length_take in Hnil. cbn in Hnil. lia.
Qed.

(** X1: every line of a grid the parser returns has at least one cell,
    and the grid has no line only for the empty text. *)
Theorem parseCSV_lines_not_empty csvText data :
  parseCSV csvText = Returns data ->
  Forall (fun row => row <> []) data /\
  (data = [] <-> csvText = EmptyString).
Proof.
  unfold parseCSV. destruct (String.eqb_spec csvText EmptyString) as [-> | Hne].
  - intros [= <-]. by split.
  - destruct (parse_loop _ _ _ _) as [raw | |] eqn:Hloop; cbn; try done.
    intros [= <-].
    assert (Hraw : Forall (fun row => row <> []) raw /\ raw <> []).
    { remember (String.length csvText) as n eqn:Hn in Hloop. clear Hn.
      cbn [parse_loop] in Hloop.
      destruct (exec true csvText) as [[m rest] |] eqn:Hex.
      - destruct (add_match m []) as [data1 | |] eqn:Hadd; cbn in Hloop;
          [| done | done].
        rename Hloop into Hrest.
        apply parse_loop_rows in Hrest as [Hrows Hne1];
          [| by eapply add_match_rows].
        split; [done |]. apply Hne1.
        by apply add_match_concat in Hadd as [_ ?].
      - destruct csvText as [| a r]; [done |]. cbn [exec] in Hex.
        unfold match_delimiter in Hex.
        destruct (Ascii.eqb a COMMA); [by destruct (match_value _) |].
        destruct (Ascii.eqb a CR);
          [destruct r as [| a' r']; [| destruct (Ascii.eqb a' LF)];
           by destruct (match_value _) |].
        destruct (Ascii.eqb a LF); by destruct (match_value _). }
    destruct Hraw as [Hrows Hne1].
    destruct (drop_stray_line_rows raw Hrows) as [Hdrop Hne2].
    split; [done |]. split; [intros Hnil; by destruct (Hne2 Hne1) | done].
Qed.

Lemma parseCSV_lines_not_empty_witness :
  Forall (fun row : list (option string) => row <> [])
    [[Some "a"; None]; [Some "b"]]%string /\
  ([[Some "a"; None]; [Some "b"]]%string = [] <->
   ("a," +:+ nl +:+ "b") = EmptyString).
Proof.
  apply (parseCSV_lines_not_empty ("a," +:+ nl +:+ "b")). reflexivity.
Defined.

End ParserShape.

Section ReadingBack.

Import CSV Written.

Lemma app_cons c (x y : string) : String c x +:+ y = String c (x +:+ y).
Proof. reflexivity. Qed.

Lemma app_assoc_string (x y z : string) : (x +:+ y) +:+ z = x +:+ (y +:+ z).
Proof. induction x as [| c x IH]; [done |]. by rewrite !app_cons, IH. Qed.

Lemma length_app_string (x y : string) :
  String.length (x +:+ y) = (String.length x + String.length y)%nat.
Proof. induction x as [| c x IH]; [done |]. rewrite app_cons. cbn. by rewrite IH. Qed.

Lemma at_separator_no_quote rest :
  at_separator rest ->
  match rest with
  | String c _ => Ascii.eqb c DQUOTE = false
  | EmptyString => True
  end.
Proof.
  destruct rest as [| c r]; [done |]. cbn. unfold is_separator.
  destruct (Ascii.eqb_spec c DQUOTE) as [-> | ]; [discriminate | done].
Qed.

Lemma unescape_double_quotes s : unescape (double_quotes s) = s.
Proof.
  induction s as [| c r IH]; [done |]. cbn [double_quotes].
  destruct (Ascii.eqb_spec c DQUOTE) as [-> | Hne].
  - cbn. by rewrite IH.
  - destruct (double_quotes r) as [| b t] eqn:Hd.
    + destruct r as [| c' r']; [done |]. cbn in Hd.
      by destruct (Ascii.eqb c' DQUOTE).
    + change (unescape (String c (String b t)))
        with (if Ascii.eqb c DQUOTE && Ascii.eqb b DQUOTE
              then String DQUOTE (unescape t)
              else String c (unescape (String b t))).
      destruct (Ascii.eqb_spec c DQUOTE) as [| _]; [done |]. cbn [andb].
      by rewrite IH.
Qed.

Lemma quoted_body_double_quotes s rest :
  match rest with
  | String c _ => Ascii.eqb c DQUOTE = false
  | EmptyString => True
  end ->
  quoted_body (double_quotes s +:+ String DQUOTE rest) =
  Some (double_quotes s, rest).
Proof.
  intros Hrest. induction s as [| c r IH]; cbn [double_quotes].
  - change (EmptyString +:+ String DQUOTE rest) with (String DQUOTE rest).
    cbn [quoted_body]. rewrite Ascii.eqb_refl.
    destruct rest as [| c' r']; [done |]. by rewrite Hrest.
  - destruct (Ascii.eqb_spec c DQUOTE) as [-> | Hne].
    + rewrite !app_cons. cbn [quoted_body]. rewrite !Ascii.eqb_refl.
      by rewrite IH.
    + rewrite app_cons. cbn [quoted_body].
      destruct (Ascii.eqb_spec c DQUOTE) as [| _]; [done |]. by rewrite IH.
Qed.

(** The value matched at the head of the text of a cell, and what it
    decodes to. *)
Lemma match_value_cell_text c rest :
  at_separator rest ->
  exists cap, match_value (cell_text c +:+ rest) = (cap, rest) /\ decode cap = c.
Proof.
  intros Hrest. destruct c as [s |]; cbn [cell_text].
  - exists (Quoted (double_quotes s)). split.
    + unfold quote. rewrite app_cons, app_assoc_string. unfold match_value.
      rewrite Ascii.eqb_refl.
      change (String DQUOTE EmptyString +:+ rest) with (String DQUOTE rest).
      by rewrite quoted_body_double_quotes by by apply at_separator_no_quote.
    + cbn. by rewrite unescape_double_quotes.
  - exists (Unquoted EmptyString). split; [| done].
    change (EmptyString +:+ rest) with rest.
    destruct rest as [| a r]; [done |]. unfold match_value.
    rewrite (at_separator_no_quote _ Hrest). cbn [unquoted_body].
    cbn in Hrest. by rewrite Hrest.
Qed.

Lemma parse_loop_enough_fuel fuel fuel' at_start s data :
  (at_start = true -> s <> EmptyString) ->
  (String.length s < fuel)%nat -> (String.length s < fuel')%nat ->
  parse_loop fuel at_start s data = parse_loop fuel' at_start s data.
Proof.
  revert fuel' at_start s data. induction fuel as [| fuel IH];
    intros fuel' at_start s data Hstart Hfuel Hfuel'; [lia |].
  destruct fuel' as [| fuel']; [lia |]. cbn [parse_loop].
  destruct (exec at_start s) as [[m rest] |] eqn:Hex; [| done].
  pose proof (exec_progress _ _ _ _ Hex Hstart) as Hlt.
  destruct (add_match m data) as [data1 | |]; cbn; [| done | done].
  apply IH; [| lia | lia].
  destruct (Nat.eqb_spec (String.length rest) (String.length s)); [lia |].
  by rewrite andb_false_r.
Qed.

Lemma parse_loop_step fuel at_start s data m rest data' :
  exec at_start s = Some (m, rest) ->
  add_match m data = Returns data' ->
  parse_loop (S fuel) at_start s data =
  parse_loop fuel (at_start && (String.length rest =? String.length s)) rest data'.
Proof. intros Hex Hadd. cbn [parse_loop]. by rewrite Hex, Hadd. Qed.

(** One turn of the loop on a comma or a line feed and the cell after it. *)
Lemma parse_loop_cell fuel (newline : bool) c rest data :
  at_separator rest ->
  data <> [] ->
  (String.length (String (if newline then LF else COMMA) (cell_text c +:+ rest))
   < fuel)%nat ->
  parse_loop fuel false
    (String (if newline then LF else COMMA) (cell_text c +:+ rest)) data =
  parse_loop fuel false rest
    (if newline then data ++ [[c]]
     else match last data with
          | Some row => <[pred (length data) := row ++ [c]]> data
          | None => data
          end).
Proof.
  intros Hrest Hdata Hfuel. destruct fuel as [| fuel]; [lia |].
  destruct (match_value_cell_text c rest Hrest) as (cap & Hv & Hdec).
  assert (Hex : exec false
    (String (if newline then LF else COMMA) (cell_text c +:+ rest)) =
    Some (Match (String (if newline then LF else COMMA) EmptyString) cap, rest)).
  { cbn [exec]. destruct newline.
    - change (match_delimiter false (String LF (cell_text c +:+ rest)))
        with (Some (String LF EmptyString, cell_text c +:+ rest)).
      cbv beta iota. by rewrite Hv.
    - change (match_delimiter false (String COMMA (cell_text c +:+ rest)))
        with (Some (String COMMA EmptyString, cell_text c +:+ rest)).
      cbv beta iota. by rewrite Hv. }
  assert (Hadd : add_match
    (Match (String (if newline then LF else COMMA) EmptyString) cap) data =
    Returns (if newline then data ++ [[c]]
             else match last data with
                  | Some row => <[pred (length data) := row ++ [c]]> data
                  | None => data
                  end)).
  { unfold add_match. cbn [delimiter captured]. rewrite Hdec.
    destruct newline.
    - change (String.eqb (String LF EmptyString) (String COMMA EmptyString))
        with false. cbv iota.
      unfold push_cell. rewrite last_snoc.
      rewrite length_app, Nat.add_1_r. cbn [pred length].
      rewrite insert_app_r_alt by lia. by rewrite Nat.sub_diag.
    - change (String.eqb (String COMMA EmptyString) (String COMMA EmptyString))
        with true. cbv iota.
      unfold push_cell. destruct (last data) eqn:Hlast; [done |].
      by apply last_None in Hlast. }
  rewrite (parse_loop_step _ _ _ _ _ _ _ Hex Hadd). cbn [andb].
  apply parse_loop_enough_fuel; [done | |].
  - cbn in Hfuel. rewrite length_app_string in Hfuel. lia.
  - cbn in Hfuel. rewrite length_app_string in Hfuel. lia.
Qed.

Lemma at_separator_more cs rows : at_separator (more_cells cs +:+ more_lines rows).
Proof. destruct cs as [| c cs]; [destruct rows as [| row rows] |]; done. Qed.

(** The loop over the rest of a line. *)
Lemma parse_loop_more_cells fuel cs rest init row :
  at_separator rest ->
  (String.length (more_cells cs +:+ rest) < fuel)%nat ->
  parse_loop fuel false (more_cells cs +:+ rest) (init ++ [row]) =
  parse_loop fuel false rest (init ++ [row ++ cs]).
Proof.
  intros Hrest. revert row.
  induction cs as [| c cs IH]; intros row Hfuel; cbn [more_cells] in *.
  - by rewrite app_nil_r.
  - rewrite app_cons, app_assoc_string.
    assert (Hsep : at_separator (more_cells cs +:+ rest))
      by (destruct cs; done).
    rewrite (parse_loop_cell fuel false c _ (init ++ [row]) Hsep);
      [| by destruct init | by rewrite app_cons, app_assoc_string in Hfuel].
    rewrite last_snoc, length_app, Nat.add_1_r. cbn [pred length].
    rewrite insert_app_r_alt by lia. rewrite Nat.sub_diag. cbn [insert list_insert].
    rewrite IH.
    + by rewrite <- app_assoc.
    + rewrite app_cons, app_assoc_string in Hfuel. cbn in Hfuel.
      rewrite length_app_string in Hfuel. lia.
Qed.

(** The loop over the lines after the first. *)
Lemma parse_loop_more_lines fuel rows data :
  Forall (fun row => row <> []) rows ->
  data <> [] ->
  (String.length (more_lines rows) < fuel)%nat ->
  parse_loop fuel false (more_lines rows) data = Returns (data ++ rows).
Proof.
  intros Hrows. revert data.
  induction Hrows as [| row rows Hrow Hrows IH]; intros data Hdata Hfuel.
  - destruct fuel as [| fuel]; [cbn in Hfuel; lia |]. cbn. by rewrite app_nil_r.
  - destruct row as [| c cs]; [done |]. cbn [more_lines line_text] in *.
    rewrite app_assoc_string in *.
    rewrite (parse_loop_cell fuel true c _ data (at_separator_more cs rows) Hdata Hfuel).
    cbn in Hfuel. rewrite length_app_string in Hfuel.
    rewrite (parse_loop_more_cells fuel cs (more_lines rows) data [c]);
      [| by destruct rows | lia].
    rewrite IH; [| by destruct data | rewrite length_app_string in Hfuel; lia].
    by rewrite <- app_assoc.
Qed.

(** X2: a readable grid, written with its strings between quotes and
    their quotes doubled, is read back by the parser as it is, whatever
    characters its strings hold. *)
Theorem parseCSV_grid_text data :
  readable data -> parseCSV (grid_text data) = Returns data.
Proof.
  intros (Hrows & (s & cs & rows & ->) & Hlast).
  unfold parseCSV, grid_text, line_text. cbn [cell_text]. unfold quote.
  rewrite !app_cons. cbn [String.eqb].
  set (first := double_quotes s +:+ String DQUOTE EmptyString).
  set (rest := more_cells cs +:+ more_lines rows).
  assert (Htext : (first +:+ more_cells cs) +:+ more_lines rows = first +:+ rest)
    by apply app_assoc_string.
  rewrite Htext.
  assert (Hv : match_value (String DQUOTE (first +:+ rest)) =
               (Quoted (double_quotes s), rest)).
  { destruct (match_value_cell_text (Some s) rest (at_separator_more cs rows))
      as (cap & Hv & Hdec).
    cbn [cell_text] in Hv. unfold quote in Hv. rewrite app_cons in Hv.
    fold first in Hv. rewrite Hv. f_equal.
    destruct cap as [q | v]; cbn in Hdec.
    - unfold match_value in Hv. rewrite Ascii.eqb_refl in Hv.
      unfold first in Hv. rewrite app_assoc_string in Hv.
      change (String DQUOTE EmptyString +:+ rest) with (String DQUOTE rest) in Hv.
      rewrite quoted_body_double_quotes in Hv
        by apply at_separator_no_quote, at_separator_more.
      by injection Hv as <-.
    - unfold match_value in Hv. rewrite Ascii.eqb_refl in Hv.
      unfold first in Hv. rewrite app_assoc_string in Hv.
      change (String DQUOTE EmptyString +:+ rest) with (String DQUOTE rest) in Hv.
      rewrite quoted_body_double_quotes in Hv
        by apply at_separator_no_quote, at_separator_more.
      done. }
  cbn [parse_loop exec]. unfold match_delimiter.
  change (Ascii.eqb DQUOTE COMMA) with false.
  change (Ascii.eqb DQUOTE CR) with false.
  change (Ascii.eqb DQUOTE LF) with false. cbv iota.
  rewrite Hv. unfold add_match. cbn [delimiter captured String.eqb].
  unfold push_cell. cbn [app last length pred insert list_insert decode].
  rewrite unescape_double_quotes. run_bind.
  assert (Hlen : (String.length rest <
                  String.length (String DQUOTE (first +:+ rest)))%nat).
  { cbn. rewrite length_app_string. lia. }
  destruct (Nat.eqb_spec (String.length rest)
              (String.length (String DQUOTE (first +:+ rest)))); [lia |].
  cbn [andb]. unfold rest.
  rewrite (parse_loop_more_cells _ cs (more_lines rows) [] [Some s]);
    [| by destruct rows | fold rest; lia].
  inversion_clear Hrows as [| ? ? _ Hrows'].
  rewrite parse_loop_more_lines; [| done | done |].
  - run_bind. f_equal. unfold drop_stray_line.
    change ([] ++ [[Some s] ++ cs]) with [Some s :: cs].
    change ([Some s :: cs] ++ rows) with ((Some s :: cs) :: rows).
    destruct (last ((Some s :: cs) :: rows)) as [[| [x |] [| c row]] |]; done.
  - cbn [String.length]. rewrite !length_app_string. lia.
Qed.

Lemma parseCSV_grid_text_witness :
  parseCSV (grid_text
    [[Some "x,y"; None; Some ""]; [None; Some (String DQUOTE "q" +:+ nl)]]%string)
  = Returns
    [[Some "x,y"; None; Some ""]; [None; Some (String DQUOTE "q" +:+ nl)]]%string.
Proof.
  apply parseCSV_grid_text. split; [| split].
  - repeat constructor; discriminate.
  - by eexists _, _, _.
  - discriminate.
Defined.

End ReadingBack.

Section LoadedDatabase.

Context {N : JSNumber}.
Import JS Database.

Implicit Types (self : Database.t) (d : string) (row : gmap string value)
  (rows : list (gmap string value)) (i j : nat).

Lemma to_key_proto (header : list CSV.cell) :
  "__proto__"%string ∈ map to_key header <-> Some "__proto__"%string ∈ header.
Proof.
  rewrite list_elem_of_fmap. split.
  - intros ([name |] & Hkey & Hin); [| done]. cbn in Hkey. by rewrite Hkey.
  - intros Hin. by exists (Some "__proto__"%string).
Qed.

(** What the callback of the constructor ends in: a message of
    [checkErrors], a database, or a [TypeError] for a table that has a
    column named [__proto__]. *)
Lemma build_outcome (data_arr : CSV.grid) :
  match build data_arr with
  | Returns (Failed msg) => checkErrors data_arr = Some msg
  | Returns (Loaded _) =>
      checkErrors data_arr = None /\
      forall header lines, data_arr = header :: lines ->
        Some "__proto__"%string ∉ header
  | TypeError =>
      checkErrors data_arr = None /\
      exists header lines, data_arr = header :: lines /\
        Some "__proto__"%string ∈ header
  | OutOfFuel => False
  end.
Proof.
  unfold build. destruct (checkErrors data_arr) as [msg |] eqn:Hcheck; [done |].
  destruct (checkErrors_passes _ Hcheck) as (header & line & lines & ->).
  destruct (decide ("__proto__"%string ∈ map to_key header)) as [Hproto | Hproto].
  - pose proof (looks_numeric_table header (line :: lines) _ ltac:(done) Hproto)
      as Hthrows. cbn in Hthrows.
    rewrite (forEach_infer_dimension_throws _ _ _ _ _ "__proto__") by done.
    cbn. split; [done |]. exists header, (line :: lines).
    split; [done | by apply to_key_proto].
  - destruct (forEach_infer_dimension (map to_key header)
                (map (fun cells => row_object header 0 cells ∅) (line :: lines))
                (map to_key header) ∅ ∅ ltac:(done))
      as (types' & domains' & -> & _).
    { intros d Hd.
      pose proof (looks_numeric_table header (line :: lines) d ltac:(done) Hd)
        as Hreturns. cbn zeta in Hreturns.
      destruct (String.eqb_spec d "__proto__") as [-> | _]; [done | done]. }
    cbn. split; [done |]. intros header' lines' [= <- <-].
    by rewrite <- to_key_proto.
Qed.

Lemma checkErrors_messages (data_arr : CSV.grid) msg :
  checkErrors data_arr = Some msg ->
  msg ∈ [ "The first and second lines in the file are required.";
          "The dataset must include at least two dimensions";
          "Empty values may not occur in the header (first line).";
          "Each line must have an equal number of comma separated values (columns)."
        ]%string.
Proof.
  unfold checkErrors.
  repeat (match goal with |- context [if ?b then _ else _] => destruct b end);
    intros [= <-]; set_solver.
Qed.

(** X3: loading never runs forever; it throws exactly when the text
    begins with a comma (the error of the parser) or when the table
    passes [checkErrors] and has a column named [__proto__] (the error of
    the type inference, which finds the prototype of the rows under that
    name); and when it fails with a message, the message is one of the
    four of [checkErrors]. *)
Theorem load_outcome csvText :
  load csvText <> OutOfFuel /\
  (load csvText = TypeError <->
   (exists r, csvText = String CSV.COMMA r) \/
   (exists header lines,
      CSV.parseCSV csvText = Returns (header :: lines) /\
      checkErrors (header :: lines) = None /\
      Some "__proto__"%string ∈ header)) /\
  (forall msg, load csvText = Returns (Failed msg) ->
     msg ∈ [ "The first and second lines in the file are required.";
             "The dataset must include at least two dimensions";
             "Empty values may not occur in the header (first line).";
             "Each line must have an equal number of comma separated values (columns)."
           ]%string).
Proof.
  unfold load.
  destruct (CSV.parseCSV csvText) as [data_arr | |] eqn:Hparse; cbn.
  - pose proof (build_outcome data_arr) as Hbuild.
    destruct (build data_arr) as [[msg | self] | |] eqn:Hresult; [| | | done].
    + split; [done |]. split.
      * split; [done |]. intros [[r ->] | (header & lines & [= ->] & Hcheck & _)].
        -- by rewrite parseCSV_leading_comma in Hparse.
        -- congruence.
      * intros msg' [= <-]. by apply checkErrors_messages in Hbuild.
    + destruct Hbuild as [Hcheck Hproto]. split; [done |]. split; [| done].
      split; [done |]. intros [[r ->] | (header & lines & [= ->] & _ & Hin)].
      * by rewrite parseCSV_leading_comma in Hparse.
      * by destruct (Hproto header lines).
    + destruct Hbuild as (Hcheck & header & lines & -> & Hproto).
      split; [done |]. split; [| done]. split; [| done].
      intros _. right. by exists header, lines.
  - split; [done |]. split; [| done].
    split; [intros _; left; by apply parseCSV_throws |].
    by intros _.
  - by apply parseCSV_terminates in Hparse.
Qed.

Lemma checkErrors_shape (header : list CSV.cell) (lines : list (list CSV.cell)) :
  checkErrors (header :: lines) = None ->
  (2 <= length header)%nat /\ (1 <= length lines)%nat /\
  Forall (fun c => c <> None) header /\
  Forall (fun cells => length cells = length header) lines.
Proof.
  unfold checkErrors.
  change (default [] ((header :: lines) !! 0%nat)) with header. cbv zeta.
  cbn [length].
  destruct (Nat.ltb_spec (S (length lines)) 2); [done |].
  destruct (Nat.ltb_spec (length header) 2); [done |].
  destruct (existsb _ header) eqn:Hundef; [done |].
  destruct (existsb _ (header :: lines)) eqn:Hwidth; [done |]. intros _.
  split; [lia |]. split; [lia |]. split.
  - apply Forall_forall. intros c Hc ->.
    apply not_true_iff_false in Hundef. apply Hundef.
    apply existsb_exists. exists None. split; [by apply list_elem_of_In | done].
  - apply Forall_forall. intros cells Hcells.
    destruct (Nat.eqb_spec (length cells) (length header)) as [| Hne]; [done |].
    apply not_true_iff_false in Hwidth. destruct Hwidth.
    apply existsb_exists. exists cells. split.
    + right. by apply list_elem_of_In.
    + by apply negb_true_iff, Nat.eqb_neq.
Qed.

(** The property read under [name] in the object of a line: the cell of
    the last column that has this name. *)
Lemma row_object_lookup (header cells : list CSV.cell) k obj j p :
  header !! j = Some p ->
  to_key p <> "__proto__"%string ->
  (forall j' p', (j < j')%nat -> header !! j' = Some p' -> to_key p' <> to_key p) ->
  row_object header k cells obj !! to_key p =
  Some (of_cell (default None (cells !! (k + j)%nat))).
Proof.
  intros Hj Hproto. revert k obj j Hj.
  induction header as [| p0 header IH]; intros k obj j Hj Hlast; [done |].
  cbn [row_object]. destruct j as [| j].
  - injection Hj as ->. rewrite Nat.add_0_r.
    assert (Hkeep : forall k' obj',
      obj' !! to_key p = Some (of_cell (default None (cells !! k))) ->
      row_object header k' cells obj' !! to_key p =
      Some (of_cell (default None (cells !! k)))).
    { assert (Hnone : forall p', p' ∈ header -> to_key p' <> to_key p).
      { intros p' Hp'. apply list_elem_of_lookup in Hp' as [j' Hj'].
        apply (Hlast (S j') p'); [lia | done]. }
      clear IH Hlast. induction header as [| p1 header IH']; intros k' obj' Hobj;
        [done |].
      cbn [row_object]. apply IH'.
      - intros p' Hp'. apply Hnone. by apply list_elem_of_further.
      - unfold set. destruct (String.eqb (to_key p1) "__proto__"); [done |].
        rewrite lookup_insert_ne; [done |]. apply Hnone, list_elem_of_here. }
    apply Hkeep. unfold set.
    destruct (String.eqb_spec (to_key p) "__proto__"); [done |].
    by rewrite lookup_insert_eq.
  - replace (k + S j)%nat with (S k + j)%nat by lia. apply IH; [done |].
    intros j' p' Hlt Hj'. apply (Hlast (S j') p'); [lia | done].
Qed.

(** X4: a loaded database has at least two dimensions and one row; the
    properties of every row are exactly the dimensions, each holding a
    string or [undefined]; and the cell of column [j] in line [i] of the
    file is what row [i] holds under the name of column [j], unless a
    later column has the same name. *)
Theorem load_rows csvText self :
  load csvText = Returns (Loaded self) ->
  (2 <= length (dimensions self))%nat /\
  (1 <= length (data self))%nat /\
  (forall row, row ∈ data self ->
     (forall d, is_Some (row !! d) <-> d ∈ dimensions self) /\
     (forall d n, get row d <> Num n)) /\
  exists header lines,
    CSV.parseCSV csvText = Returns (header :: lines) /\
    dimensions self = map to_key header /\
    length (data self) = length lines /\
    forall i j cells c d,
      lines !! i = Some cells -> cells !! j = Some c ->
      dimensions self !! j = Some d ->
      (forall j', (j < j')%nat -> dimensions self !! j' <> Some d) ->
      exists row, data self !! i = Some row /\ row !! d = Some (of_cell c).
Proof.
  intros Hload.
  destruct (load_spec _ _ Hload)
    as (header & line & lines & Hparse & Hcheck & Hdata & Hdims & _ & _ & Hproto).
  destruct (checkErrors_shape _ _ Hcheck) as (Hh & Hl & Hdef & Hwidth).
  split; [by rewrite Hdims, length_map |].
  split; [by rewrite Hdata, length_map |]. split.
  - intros row Hrow. rewrite Hdata in Hrow.
    apply list_elem_of_fmap in Hrow as (cells & -> & _). split.
    + intros d. rewrite row_object_dom, <- Hdims, lookup_empty.
      split; [intros [[H _] | [? H]]; done |].
      intros Hd. left. split; [done |]. by intros ->.
    + intros d. apply row_object_values. intros n. unfold get, inherited.
      rewrite lookup_empty. by destruct (existsb _ _).
  - exists header, (line :: lines). split; [done |]. split; [done |].
    split; [by rewrite Hdata, length_map |].
    intros i j cells c d Hi Hj Hd Hlast. rewrite Hdata.
    exists (row_object header 0 cells ∅). split.
    + by rewrite list_lookup_fmap, Hi.
    + rewrite Hdims, list_lookup_fmap in Hd.
      destruct (header !! j) as [p |] eqn:Hp; [| done]. injection Hd as <-.
      rewrite (row_object_lookup header cells 0 ∅ j p Hp);
        [change (0 + j)%nat with j; by rewrite Hj | |].
      * intros Heq. apply Hproto. rewrite Hdims, <- Heq.
        apply list_elem_of_fmap. exists p. split; [done |].
        by apply list_elem_of_lookup_2 in Hp.
      * intros j' p' Hlt Hp' Heq. apply (Hlast j' Hlt).
        rewrite Hdims, list_lookup_fmap, Hp'. cbn. by rewrite Heq.
Qed.

End LoadedDatabase.

Section IdealOrder.

Import Ideal.

Lemma Qle_bool_refl (p : Q) : Qle_bool p p = true.
Proof. apply Qle_bool_iff, Qle_refl. Qed.

Lemma Qle_bool_total (p q : Q) : Qle_bool p q = false -> Qle_bool q p = true.
Proof.
  intros Hpq. apply Qle_bool_iff, Qlt_le_weak, Qnot_le_lt.
  intros Hle. apply Qle_bool_iff in Hle. congruence.
Qed.

Lemma Qle_bool_trans (p q r : Q) :
  Qle_bool p q = true -> Qle_bool q r = true -> Qle_bool p r = true.
Proof. rewrite !Qle_bool_iff. apply Qle_trans. Qed.

(** The exact numbers keep the laws of the order. *)
Lemma number_ordered : OrderedNumbers number.
Proof.
  split; cbn.
  - intros [| [|] | p] [| [|] | q] [| [|] | r]; cbn; try done.
    apply Qle_bool_trans.
  - intros [| [|] | p] [| [|] | q] Ha Hb; cbn in *; try done;
      try apply Qle_bool_refl.
    destruct (Qle_bool p q) eqn:Hpq; cbn;
      [apply Qle_bool_refl | by apply Qle_bool_total].
  - intros [| [|] | p] [| [|] | q] Ha Hb; cbn in *; try done;
      try apply Qle_bool_refl.
    destruct (Qle_bool p q) eqn:Hpq; cbn; [done | apply Qle_bool_refl].
  - intros [| [|] | p] [| [|] | q] Ha Hb; cbn in *; try done;
      try apply Qle_bool_refl.
    destruct (Qle_bool p q) eqn:Hpq; cbn; [done | apply Qle_bool_refl].
  - intros [| [|] | p] [| [|] | q] Ha Hb; cbn in *; try done;
      try apply Qle_bool_refl.
    destruct (Qle_bool p q) eqn:Hpq; cbn;
      [apply Qle_bool_refl | by apply Qle_bool_total].
  - intros [| [|] | p] [| [|] | q] Ha Hb; cbn in *; try done;
      try (by left); try (by right).
    destruct (Qle_bool p q); [by left | by right].
  - intros [| [|] | p] [| [|] | q] Ha Hb; cbn in *; try done;
      try (by left); try (by right).
    destruct (Qle_bool p q); [by right | by left].
Defined.

End IdealOrder.

Section DimensionKinds.

Context {N : JSNumber}.
Import JS Database.

Implicit Types (self : Database.t) (d : string) (row : gmap string value)
  (rows : list (gmap string value)).

Lemma isNaN_false (v : value) :
  isNaN v = false -> num_isNaN (ToNumber v) = false.
Proof. by destruct v. Qed.

Lemma extrema_numbers d rows (lo0 hi0 : num) :
  exists lo hi, extrema d rows (Num lo0) (Num hi0) = (Num lo, Num hi).
Proof.
  revert lo0 hi0. induction rows as [| row rows IH]; intros lo0 hi0;
    cbn [extrema]; [by eexists _, _ |].
  destruct (negb (isNaN (get row d))); [apply IH | apply IH].
Qed.

Lemma numeric_domain_numbers d rows :
  exists lo hi, numeric_domain d rows = [Num lo; Num hi].
Proof.
  unfold numeric_domain.
  destruct (skip_NaN d rows) as [| row rest] eqn:Hskip; [by eexists _, _ |].
  assert (Hrow : isNaN (get row d) = false).
  { clear -Hskip. induction rows as [| row' rows IH]; [done |].
    cbn in Hskip. destruct (isNaN (get row' d)) eqn:Hnan; [by apply IH |].
    by injection Hskip as -> _. }
  cbn [extrema]. rewrite Hrow. cbn [negb].
  destruct (extrema_numbers d rest
    (num_min (ToNumber (get row d)) (ToNumber (get row d)))
    (num_max (ToNumber (get row d)) (ToNumber (get row d)))) as (lo & hi & Hext).
  unfold Math_min, Math_max. rewrite Hext. by eexists _, _.
Qed.

Lemma inferred_type_not_INTEGER csvText self d :
  load csvText = Returns (Loaded self) ->
  d ∈ dimensions self ->
  inferred_type d (data self) <> INTEGER.
Proof.
  intros Hload Hd Hint.
  destruct (load_spec _ _ Hload) as (_ & _ & _ & _ & _ & _ & _ & Hin & _).
  destruct (Hin d Hd) as [Hty _]. rewrite Hint in Hty.
  by apply (load_never_INTEGER _ _ _ Hload) in Hty.
Qed.

(** X5: every dimension of a loaded database is either of type FLOAT,
    with a domain of two numbers, or of type STRING, with the values of
    its column as the domain; no dimension gets the type INTEGER, and a
    name that is no dimension has no type, no domain and is no string
    dimension. *)
Theorem load_dimension_kinds csvText self :
  load csvText = Returns (Loaded self) ->
  (forall d, d ∈ dimensions self ->
     (dimensionTypes self !! d = Some FLOAT /\
      isStringDimension self d = false /\
      exists lo hi, dimensionDomains self !! d = Some [Num lo; Num hi]) \/
     (dimensionTypes self !! d = Some STRING /\
      isStringDimension self d = true /\
      dimensionDomains self !! d = Some (map (fun p => get p d) (data self)))) /\
  (forall d, d ∉ dimensions self ->
     dimensionTypes self !! d = None /\ dimensionDomains self !! d = None /\
     isStringDimension self d = false).
Proof.
  intros Hload.
  destruct (load_spec _ _ Hload) as (_ & _ & _ & _ & _ & _ & _ & Hin & Hout & _).
  split.
  - intros d Hd. destruct (Hin d Hd) as [Hty Hdom].
    pose proof (inferred_type_not_INTEGER _ _ _ Hload Hd) as Hint.
    unfold isStringDimension. rewrite Hty, Hdom.
    unfold inferred_type, inferred_domain in *.
    destruct (numeric_sample (sampled d (data self))).
    + left. destruct (isNaN _ || negb _); [| done].
      split; [done |]. split; [done |].
      destruct (numeric_domain_numbers d (data self)) as (lo & hi & ->).
      by exists lo, hi.
    + right. by rewrite bool_decide_eq_true_2.
  - intros d Hd. destruct (Hout d Hd) as [Hty Hdom].
    unfold isStringDimension. by rewrite Hty, Hdom.
Qed.

Lemma sample_value_first d rows i row val :
  rows !! i = Some row ->
  truthy (get row d) = true ->
  (forall i' row', (i' < i)%nat -> rows !! i' = Some row' ->
     truthy (get row' d) = false) ->
  sample_value d rows val = get row d.
Proof.
  revert i. induction rows as [| row0 rows IH]; intros i Hi Htrue Hbefore;
    [done |].
  cbn [sample_value]. destruct i as [| i].
  - injection Hi as ->. by rewrite Htrue.
  - rewrite (Hbefore 0%nat row0) by (done || lia).
    apply (IH i); [done | done |].
    intros i' row' Hlt Hi'. apply (Hbefore (S i') row'); [lia | done].
Qed.

(** X6: the type of a dimension is decided by the first cell of its
    column that is not empty: FLOAT when the text of that cell converts
    to a number or spells NaN in any case of the letters, STRING
    otherwise. *)
Theorem load_type_from_first_cell csvText self d i row s :
  load csvText = Returns (Loaded self) ->
  d ∈ dimensions self ->
  data self !! i = Some row ->
  get row d = Str s -> s <> EmptyString ->
  (forall i' row', (i' < i)%nat -> data self !! i' = Some row' ->
     get row' d = Undefined \/ get row' d = Str EmptyString) ->
  dimensionTypes self !! d =
    Some (if negb (isNaN (Str s)) || String.eqb (toUpperCase s) "NAN"
          then FLOAT else STRING).
Proof.
  intros Hload Hd Hi Hs Hne Hbefore.
  destruct (load_spec _ _ Hload) as (_ & _ & _ & _ & _ & _ & _ & Hin & _).
  destruct (Hin d Hd) as [-> _]. f_equal.
  assert (Hsampled : sampled d (data self) = Str s).
  { unfold sampled. rewrite <- Hs. apply (sample_value_first d _ i); [done | |].
    - rewrite Hs. cbn. by apply negb_true_iff, String.eqb_neq.
    - intros i' row' Hlt Hi'. by destruct (Hbefore i' row' Hlt Hi') as [-> | ->]. }
  unfold inferred_type. rewrite Hsampled. unfold numeric_sample, looks_numeric.
  assert (Htruthy : truthy (Str s) = true)
    by (cbn; by apply negb_true_iff, String.eqb_neq).
  rewrite Htruthy. cbn [Number_isInteger negb].
  rewrite orb_true_r.
  destruct (negb (isNaN (Str s))); cbn [orb]; [done |].
  by destruct (String.eqb (toUpperCase s) "NAN").
Qed.

Lemma skip_NaN_all d rows :
  (forall row, row ∈ rows -> isNaN (get row d) = true) -> skip_NaN d rows = [].
Proof.
  induction rows as [| row rows IH]; intros Hall; cbn; [done |].
  rewrite (Hall row) by apply list_elem_of_here.
  apply IH. intros row' Hrow'. apply Hall. by apply list_elem_of_further.
Qed.

(** X7: a dimension that is no string dimension and whose values all
    fail to convert to a number has the domain from 0 to 0. *)
Theorem load_domain_without_numbers csvText self d :
  load csvText = Returns (Loaded self) ->
  d ∈ dimensions self ->
  isStringDimension self d = false ->
  (forall row, row ∈ data self -> isNaN (get row d) = true) ->
  dimensionDomains self !! d = Some [Num (of_Z 0); Num (of_Z 0)].
Proof.
  intros Hload Hd Hnum Hall.
  destruct (load_spec _ _ Hload) as (_ & _ & _ & _ & _ & _ & _ & Hin & _).
  destruct (Hin d Hd) as [Hty ->]. f_equal.
  unfold isStringDimension in Hnum. rewrite Hty in Hnum.
  unfold inferred_type, inferred_domain in *.
  destruct (numeric_sample (sampled d (data self)));
    [| by rewrite bool_decide_eq_true_2 in Hnum].
  unfold numeric_domain. by rewrite skip_NaN_all.
Qed.

Section Ordered.

Context {O : OrderedNumbers N}.
Import Column.

Lemma le_reflexive (a : num) : num_isNaN a = false -> num_le a a = true.
Proof using O.
  intros Ha. pose proof (min_le_l a a Ha Ha) as Hle.
  by destruct (min_cases a a Ha Ha) as [Heq | Heq]; rewrite Heq in Hle.
Qed.

Lemma min_number (a b : num) :
  num_isNaN a = false -> num_isNaN b = false -> num_isNaN (num_min a b) = false.
Proof using O. intros Ha Hb. by destruct (min_cases a b Ha Hb) as [-> | ->]. Qed.

Lemma max_number (a b : num) :
  num_isNaN a = false -> num_isNaN b = false -> num_isNaN (num_max a b) = false.
Proof using O. intros Ha Hb. by destruct (max_cases a b Ha Hb) as [-> | ->]. Qed.

Lemma extrema_encloses d rows (lo0 hi0 : num) :
  num_isNaN lo0 = false -> num_isNaN hi0 = false ->
  exists lo hi,
    extrema d rows (Num lo0) (Num hi0) = (Num lo, Num hi) /\
    num_le lo lo0 = true /\ num_le hi0 hi = true /\
    (lo = lo0 \/ lo ∈ numbers_of d rows) /\
    (hi = hi0 \/ hi ∈ numbers_of d rows) /\
    (forall v, v ∈ numbers_of d rows -> num_le lo v = true /\ num_le v hi = true).
Proof using O.
  revert lo0 hi0. unfold numbers_of.
  induction rows as [| row rows IH]; intros lo0 hi0 Hlo0 Hhi0;
    cbn [extrema List.filter map].
  - exists lo0, hi0. split; [done |].
    split; [by apply le_reflexive |]. split; [by apply le_reflexive |].
    split; [by left |]. split; [by left |]. intros v Hv. inversion Hv.
  - destruct (isNaN (get row d)) eqn:Hnan; cbn [negb map]; [by apply IH |].
    set (v0 := ToNumber (get row d)). assert (Hv0 : num_isNaN v0 = false) by by apply isNaN_false.
    destruct (IH (num_min lo0 v0) (num_max hi0 v0))
      as (lo & hi & Hext & Hlo & Hhi & Hlo_in & Hhi_in & Hall);
      [by apply min_number | by apply max_number |].
    exists lo, hi. unfold Math_min, Math_max. cbn [ToNumber]. fold v0.
    split; [done |].
    split; [by apply (le_transitive _ _ _ Hlo), min_le_l |].
    split; [by apply (le_transitive _ (num_max hi0 v0)); [apply max_ge_l |] |].
    split; [| split].
    + destruct Hlo_in as [-> | Hin]; [| right; by apply list_elem_of_further].
      destruct (min_cases lo0 v0 Hlo0 Hv0) as [-> | ->];
        [by left | right; apply list_elem_of_here].
    + destruct Hhi_in as [-> | Hin]; [| right; by apply list_elem_of_further].
      destruct (max_cases hi0 v0 Hhi0 Hv0) as [-> | ->];
        [by left | right; apply list_elem_of_here].
    + intros v Hv. apply elem_of_cons in Hv as [-> | Hv]; [| by apply Hall].
      split.
      * by apply (le_transitive _ _ _ Hlo), min_le_r.
      * by apply (le_transitive _ (num_max hi0 v0)); [apply max_ge_r |].
Qed.

Lemma skip_NaN_numbers d rows : numbers_of d (skip_NaN d rows) = numbers_of d rows.
Proof using O.
  unfold numbers_of. induction rows as [| row rows IH]; cbn; [done |].
  destruct (isNaN (get row d)) eqn:Hnan; cbn; [done |]. by rewrite Hnan.
Qed.

Lemma numeric_domain_encloses d rows :
  numbers_of d rows <> [] ->
  exists lo hi,
    numeric_domain d rows = [Num lo; Num hi] /\
    lo ∈ numbers_of d rows /\ hi ∈ numbers_of d rows /\
    (forall v, v ∈ numbers_of d rows -> num_le lo v = true /\ num_le v hi = true).
Proof using O.
  intros Hsome. unfold numeric_domain. rewrite <- skip_NaN_numbers in *.
  destruct (skip_NaN d rows) as [| row rest] eqn:Hskip; [done |].
  assert (Hrow : isNaN (get row d) = false).
  { clear -Hskip. induction rows as [| row' rows IH]; [done |].
    cbn in Hskip. destruct (isNaN (get row' d)) eqn:Hnan; [by apply IH |].
    by injection Hskip as -> _. }
  cbn [extrema]. rewrite Hrow. cbn [negb]. unfold Math_min, Math_max.
  set (v0 := ToNumber (get row d)). assert (Hv0 : num_isNaN v0 = false) by by apply isNaN_false.
  assert (Hmin : num_min v0 v0 = v0) by (by destruct (min_cases v0 v0 Hv0 Hv0)).
  assert (Hmax : num_max v0 v0 = v0) by (by destruct (max_cases v0 v0 Hv0 Hv0)).
  rewrite Hmin, Hmax.
  destruct (extrema_encloses d rest v0 v0 Hv0 Hv0)
    as (lo & hi & -> & Hlo & Hhi & Hlo_in & Hhi_in & Hall).
  assert (Hhead : numbers_of d (row :: rest) = v0 :: numbers_of d rest).
  { unfold numbers_of. cbn. by rewrite Hrow. }
  rewrite Hhead. exists lo, hi. split; [done |]. split; [| split].
  - destruct Hlo_in as [-> | Hin];
      [apply list_elem_of_here | by apply list_elem_of_further].
  - destruct Hhi_in as [-> | Hin];
      [apply list_elem_of_here | by apply list_elem_of_further].
  - intros v Hv. apply elem_of_cons in Hv as [-> | Hv]; [done | by apply Hall].
Qed.

(** X8: where the order of numbers has its usual laws, the domain of a
    dimension that is no string dimension and has a number in some row is
    the least and the greatest of the numbers of its column: both are
    values of rows, and every number of the column lies between them. *)
Theorem load_domain_encloses csvText self d :
  load csvText = Returns (Loaded self) ->
  d ∈ dimensions self ->
  isStringDimension self d = false ->
  (exists row, row ∈ data self /\ isNaN (get row d) = false) ->
  exists lo hi,
    dimensionDomains self !! d = Some [Num lo; Num hi] /\
    (exists row, row ∈ data self /\ isNaN (get row d) = false /\
       ToNumber (get row d) = lo) /\
    (exists row, row ∈ data self /\ isNaN (get row d) = false /\
       ToNumber (get row d) = hi) /\
    (forall row, row ∈ data self -> isNaN (get row d) = false ->
       num_le lo (ToNumber (get row d)) = true /\
       num_le (ToNumber (get row d)) hi = true).
Proof using O.
  intros Hload Hd Hnum (row0 & Hrow0 & Hnan0).
  destruct (load_spec _ _ Hload) as (_ & _ & _ & _ & _ & _ & _ & Hin & _).
  destruct (Hin d Hd) as [Hty ->].
  unfold isStringDimension in Hnum. rewrite Hty in Hnum.
  unfold inferred_type, inferred_domain in *.
  destruct (numeric_sample (sampled d (data self)));
    [| by rewrite bool_decide_eq_true_2 in Hnum].
  assert (Hmem : forall v, v ∈ numbers_of d (data self) <->
    exists row, row ∈ data self /\ isNaN (get row d) = false /\
      ToNumber (get row d) = v).
  { intros v. unfold numbers_of. rewrite list_elem_of_fmap. split.
    - intros (row & -> & Hrow). apply list_elem_of_In, filter_In in Hrow as [Hrow Hn].
      exists row. split; [by apply list_elem_of_In |].
      split; [by apply negb_true_iff |]. done.
    - intros (row & Hrow & Hn & <-). exists row. split; [done |].
      apply list_elem_of_In, filter_In. split; [by apply list_elem_of_In |].
      by rewrite Hn. }
  destruct (numeric_domain_encloses d (data self))
    as (lo & hi & -> & Hlo & Hhi & Hall).
  { intros Hnil. assert (Hin0 : ToNumber (get row0 d) ∈ numbers_of d (data self))
      by (apply Hmem; by exists row0).
    rewrite Hnil in Hin0. inversion Hin0. }
  exists lo, hi. split; [done |].
  split; [by apply Hmem |]. split; [by apply Hmem |].
  intros row Hrow Hn. apply Hall, Hmem. by exists row.
Qed.

End Ordered.

End DimensionKinds.

Section DimensionScenarios.

Import CSV JS Ideal Database Scenario Tables.

Lemma load_nan_text : load nan_text = Returns (Loaded nan_db).
Proof. reflexivity. Qed.

Lemma load_rows_witness :
  let self := Scenario.db in
  (2 <= length (dimensions self))%nat /\
  (1 <= length (data self))%nat /\
  (forall row, row ∈ data self ->
     (forall d, is_Some (row !! d) <-> d ∈ dimensions self) /\
     (forall d n, get row d <> Num n)) /\
  exists header lines,
    CSV.parseCSV Scenario.text = Returns (header :: lines) /\
    dimensions self = map to_key header /\
    length (data self) = length lines /\
    forall i j cells c d,
      lines !! i = Some cells -> cells !! j = Some c ->
      dimensions self !! j = Some d ->
      (forall j', (j < j')%nat -> dimensions self !! j' <> Some d) ->
      exists row, data self !! i = Some row /\ row !! d = Some (of_cell c).
Proof. exact (load_rows Scenario.text Scenario.db load_text). Defined.

Lemma load_dimension_kinds_witness :
  (forall d, d ∈ dimensions db ->
     (dimensionTypes db !! d = Some FLOAT /\
      isStringDimension db d = false /\
      exists lo hi, dimensionDomains db !! d = Some [Num lo; Num hi]) \/
     (dimensionTypes db !! d = Some STRING /\
      isStringDimension db d = true /\
      dimensionDomains db !! d = Some (map (fun p => get p d) (data db)))) /\
  (forall d, d ∉ dimensions db ->
     dimensionTypes db !! d = None /\ dimensionDomains db !! d = None /\
     isStringDimension db d = false).
Proof. exact (load_dimension_kinds text db load_text). Defined.

Lemma load_type_from_first_cell_witness :
  dimensionTypes sparse_db !! "b"%string =
    Some (if negb (isNaN (Str "x")) || String.eqb (toUpperCase "x") "NAN"
          then FLOAT else STRING).
Proof.
  apply (load_type_from_first_cell sparse_text sparse_db "b" 0%nat
           {[ "a" := Str "1"; "b" := Str "x"; "c" := Undefined ]}%string "x"
           load_sparse_text).
  - apply list_elem_of_In. simpl. tauto.
  - reflexivity.
  - reflexivity.
  - discriminate.
  - intros i' row' Hlt. lia.
Defined.

Lemma load_domain_without_numbers_witness :
  dimensionDomains nan_db !! "a"%string = Some [Num (of_Z 0); Num (of_Z 0)].
Proof.
  apply (load_domain_without_numbers nan_text nan_db "a" load_nan_text).
  - apply list_elem_of_In. simpl. tauto.
  - reflexivity.
  - intros row Hrow. apply list_elem_of_In in Hrow. simpl in Hrow.
    destruct Hrow as [<- | [<- | []]]; reflexivity.
Defined.

Lemma load_domain_encloses_witness :
  exists lo hi,
    dimensionDomains db !! "a"%string = Some [Num lo; Num hi] /\
    (exists row, row ∈ data db /\ isNaN (get row "a") = false /\
       ToNumber (get row "a") = lo) /\
    (exists row, row ∈ data db /\ isNaN (get row "a") = false /\
       ToNumber (get row "a") = hi) /\
    (forall row, row ∈ data db -> isNaN (get row "a") = false ->
       num_le lo (ToNumber (get row "a")) = true /\
       num_le (ToNumber (get row "a")) hi = true).
Proof.
  apply (load_domain_encloses (O:=number_ordered) text db "a" load_text).
  - apply list_elem_of_In. simpl. tauto.
  - reflexivity.
  - exists {[ "a" := Str "1"; "b" := Str "2" ]}%string. split; [| reflexivity].
    apply list_elem_of_In. simpl. tauto.
Defined.

End DimensionScenarios.

Section SimilarRows.

Context {N : JSNumber} {B : Builtins}.
Import JS Database.

Implicit Types (self : Database.t) (d : string) (row query : gmap string value)
  (threshold : value).

Lemma getSimilar_indices csvText self query threshold :
  load csvText = Returns (Loaded self) ->
  getSimilar self query threshold =
  Returns (indices_where (similar self query threshold) 0 (data self)).
Proof.
  intros Hload.
  destruct (load_spec _ _ Hload) as (_ & _ & _ & _ & _ & _ & _ & Hin & _).
  unfold getSimilar. rewrite forEachIndexed_visit_row; [done |].
  intros d Hd. by destruct (Hin d Hd) as [_ ->].
Qed.

(** X9: where [<=] is transitive, raising the threshold keeps every row
    found: the result for the lower threshold is a sublist of the result
    for the higher one. *)
Theorem getSimilar_threshold_monotone csvText self query threshold threshold' :
  (forall a b c : num,
     num_le a b = true -> num_le b c = true -> num_le a c = true) ->
  load csvText = Returns (Loaded self) ->
  num_le (ToNumber threshold) (ToNumber threshold') = true ->
  exists found found',
    getSimilar self query threshold = Returns found /\
    getSimilar self query threshold' = Returns found' /\
    sublist found found'.
Proof.
  intros Htrans Hload Hle.
  rewrite !(getSimilar_indices csvText) by done.
  eexists _, _. split; [done |]. split; [done |].
  apply indices_where_sublist. intros row _. unfold similar, le_value.
  intros Hrow. by apply (Htrans _ _ _ Hrow).
Qed.

Lemma indices_where_none {A : Type} (P : A -> bool) (l : list A) (i : nat) :
  (forall a, a ∈ l -> P a = false) -> indices_where P i l = [].
Proof.
  revert i. induction l as [| a l IH]; intros i Hall; cbn; [done |].
  rewrite Hall by apply list_elem_of_here. cbn.
  apply IH. intros b Hb. apply Hall. by apply list_elem_of_further.
Qed.

Lemma distance_ext self query query' row :
  (forall d, d ∈ dimensions self -> get query d = get query' d) ->
  distance self query row = distance self query' row.
Proof.
  unfold distance. generalize (of_Z 0).
  induction (dimensions self) as [| d ds IH]; intros acc Hagree; [done |].
  cbn [List.filter].
  assert (Hd : get query d = get query' d) by apply Hagree, list_elem_of_here.
  assert (Hpresent : present query d = present query' d)
    by (unfold present; by rewrite Hd).
  assert (Hterm : term self query row d = term self query' row d)
    by (unfold term, normalize; by rewrite Hd).
  assert (Hrest : forall d', d' ∈ ds -> get query d' = get query' d')
    by (intros d' Hd'; apply Hagree; by apply list_elem_of_further).
  rewrite Hpresent. destruct (present query' d); cbn [map fold_left];
    [rewrite Hterm |]; by apply IH.
Qed.

(** X10: the result of [getSimilar] depends on the query only through
    what reading it gives at the dimensions of the database, a property
    of its own or a member inherited from [Object.prototype]: two queries
    that read the same there find the same rows, whatever other
    properties they have. *)
Theorem getSimilar_reads_dimensions_only csvText self query query' threshold :
  load csvText = Returns (Loaded self) ->
  (forall d, d ∈ dimensions self -> get query d = get query' d) ->
  getSimilar self query threshold = getSimilar self query' threshold.
Proof.
  intros Hload Hagree. rewrite !(getSimilar_indices csvText) by done.
  f_equal. apply indices_where_ext. intros row. unfold similar.
  by rewrite (distance_ext self query query').
Qed.

(** X11: a query that reads as [undefined] at every dimension, having
    no value of its own there and inheriting none from
    [Object.prototype], is at distance 0 from every row: [getSimilar]
    returns every row index when 0 is at most the threshold, and none
    otherwise (so none for a threshold that is no number). *)
Theorem getSimilar_empty_query csvText self query threshold :
  load csvText = Returns (Loaded self) ->
  (forall d, d ∈ dimensions self -> get query d = Undefined) ->
  getSimilar self query threshold =
  Returns (if le_value (of_Z 0) threshold
           then seq 0 (length (data self)) else []).
Proof.
  intros Hload Hnone. rewrite (getSimilar_indices csvText) by done. f_equal.
  assert (Hdist : forall row, distance self query row = of_Z 0).
  { intros row. unfold distance.
    assert (Hfilter : List.filter (present query) (dimensions self) = []).
    { induction (dimensions self) as [| d ds IH]; [done |]. cbn.
      unfold present at 1. rewrite (Hnone d) by apply list_elem_of_here. cbn.
      apply IH. intros d' Hd'. apply Hnone. by apply list_elem_of_further. }
    by rewrite Hfilter. }
  destruct (le_value (of_Z 0) threshold) eqn:Hle.
  - apply indices_where_all. intros row _. unfold similar. by rewrite Hdist.
  - apply indices_where_none. intros row _. unfold similar. by rewrite Hdist.
Qed.

End SimilarRows.

Section SimilarScenarios.

Import CSV JS Ideal Database Scenario.

Lemma getSimilar_threshold_monotone_witness :
  exists found found',
    getSimilar db query (Str "0.4") = Returns found /\
    getSimilar db query (Str "1") = Returns found' /\
    sublist found found'.
Proof.
  apply (getSimilar_threshold_monotone (N:=number) text db query
           (Str "0.4") (Str "1")
           (le_transitive (N:=number) (OrderedNumbers:=number_ordered)) load_text).
  reflexivity.
Defined.

Lemma getSimilar_reads_dimensions_only_witness :
  getSimilar db query (Str "0.5") =
  getSimilar db (<["c" := Str "z"]> query)%string (Str "0.5").
Proof.
  apply (getSimilar_reads_dimensions_only (N:=number) text db query
           (<["c" := Str "z"]> query)%string (Str "0.5") load_text).
  intros d Hd. apply list_elem_of_In in Hd. simpl in Hd.
  destruct Hd as [<- | [<- | []]]; reflexivity.
Defined.

Lemma getSimilar_empty_query_witness :
  getSimilar db {[ "c" := Str "z" ]}%string (Str "0") =
  Returns (if le_value (of_Z 0) (Str "0")
           then seq 0 (length (data db)) else []).
Proof.
  apply (getSimilar_empty_query (N:=number) text db
           {[ "c" := Str "z" ]}%string (Str "0") load_text).
  intros d Hd. apply list_elem_of_In in Hd. simpl in Hd.
  destruct Hd as [<- | [<- | []]]; reflexivity.
Defined.

End SimilarScenarios.

Section SelectionEvents.

Context {N : JSNumber} {D : D3Scale}.
Import JS Pcoord Axes.

Implicit Types (self : Pcoord.t) (d : string) (p : gmap string value).

Lemma same_elements_refl (a : list nat) : same_elements a a = true.
Proof. induction a as [| x a IH]; cbn; [done |]. by rewrite Nat.eqb_refl. Qed.

Lemma arraysEqual_refl (a : list nat) : arraysEqual a a = true.
Proof.
  unfold arraysEqual. rewrite Nat.eqb_refl. cbn. apply same_elements_refl.
Qed.

Lemma arraysEqual_false (a b : list nat) : a <> b -> arraysEqual a b = false.
Proof.
  intros Hne. destruct (arraysEqual a b) eqn:Heq; [| done].
  by apply arraysEqual_true in Heq.
Qed.

(** X12: [updateSelection] announces a change exactly when there is one
    or when it is forced: with a selection that is already the one of the
    brushes and no force it changes nothing and sends nothing; otherwise
    it sends one [selectionchange] with the new selection, then asks for
    the paths to be redrawn.  Run again without force it does nothing. *)
Theorem updateSelection_announces force self :
  let self' := updateSelection force self in
  (force = false -> selection self = newSelection self -> self' = self) /\
  (force = true \/ selection self <> newSelection self ->
   emitted_since self self' =
     [selectionchange (newSelection self); redrawSelectedPaths]) /\
  updateSelection false self' = self'.
Proof.
  cbn zeta. split; [| split].
  - intros -> Hcur. unfold updateSelection. rewrite <- Hcur.
    by rewrite arraysEqual_refl.
  - intros Hchange. unfold updateSelection.
    assert (Hcond : negb (arraysEqual (selection self) (newSelection self))
                    || force = true).
    { destruct Hchange as [-> | Hne]; [by rewrite orb_true_r |].
      by rewrite arraysEqual_false. }
    rewrite Hcond. unfold emitted_since. cbn. by rewrite drop_app_length.
  - unfold updateSelection at 1.
    rewrite updateSelection_selection, updateSelection_newSelection.
    by rewrite arraysEqual_refl.
Qed.

Lemma newSelection_same_brushes self self' :
  db self = db self' ->
  (forall d p, getYPosition self d p = getYPosition self' d p) ->
  (forall d lo hi,
     d ∈ dimensions self /\ active self d lo hi <->
     d ∈ dimensions self' /\ active self' d lo hi) ->
  newSelection self = newSelection self'.
Proof.
  intros Hdb Hy Hsame. rewrite !newSelection_eq, Hdb.
  apply indices_where_ext. intros p.
  apply eq_true_iff_eq. rewrite !row_selected_spec. unfold inside_brushes.
  split.
  - intros Hin d lo hi Hd Hact. rewrite <- Hy.
    destruct (proj2 (Hsame d lo hi) (conj Hd Hact)). by apply Hin.
  - intros Hin d lo hi Hd Hact. rewrite Hy.
    destruct (proj1 (Hsame d lo hi) (conj Hd Hact)). by apply Hin.
Qed.

(** X13: the selection does not depend on the order of the axes: with
    the dimensions of the component permuted, as dragging an axis or
    [setAxisOrder] leave them, the brushes stand for the same selection,
    and [updateSelection] on a selection that was current sends nothing. *)
Theorem selection_ignores_axis_order dims self :
  dims ≡ₚ dimensions self ->
  newSelection (set_dimensions dims self) = newSelection self /\
  (selection_is_current self ->
   updateSelection false (set_dimensions dims self) = set_dimensions dims self).
Proof.
  intros Hperm.
  assert (Hnew : newSelection (set_dimensions dims self) = newSelection self).
  { apply newSelection_same_brushes; [done | done |]. cbn. intros d lo hi.
    unfold active. cbn. by rewrite Hperm. }
  split; [done |]. intros Hcur. unfold updateSelection. rewrite Hnew.
  change (selection (set_dimensions dims self)) with (selection self).
  rewrite Hcur. by rewrite arraysEqual_refl.
Qed.

Lemma axisBrush_brushExtents sel d self :
  brushExtents (axisBrush (Some sel) d self) =
  match sel with
  | Some (lo, hi) =>
      if num_eq lo hi then delete d (brushExtents self)
      else <[d := sel]> (brushExtents self)
  | None => <[d := sel]> (brushExtents self)
  end.
Proof.
  rewrite axisBrush_event. cbn zeta.
  destruct (negb (dontUpdateSelectionOnBrush self));
    [by rewrite updateSelection_brushExtents | done].
Qed.

Lemma axisBrush_current d3_event d self :
  dontUpdateSelectionOnBrush self = false ->
  selection_is_current (axisBrush d3_event d self).
Proof.
  intros Hflag. unfold axisBrush, selection_is_current.
  set (self1 := match d3_event with Some _ => _ | None => self end).
  assert (Hflag1 : dontUpdateSelectionOnBrush self1 = false).
  { subst self1. destruct d3_event as [[[lo hi] |] |]; try done.
    by destruct (num_eq lo hi). }
  rewrite Hflag1. cbn [negb].
  by rewrite updateSelection_selection, updateSelection_newSelection.
Qed.

(** X14: a brush event makes the extent stored for its axis the
    selection of the event, and none when that selection is null or has
    equal ends; the other axes keep theirs.  Unless updates are switched
    off the selection is then the one of the brushes, also when the
    handler is called by hand; when they are switched off, the selection
    and the events sent stay as they were. *)
Theorem axisBrush_stores_extent (sel : extent) d self :
  let self' := axisBrush (Some sel) d self in
  (forall lo hi, active self' d lo hi <->
     sel = Some (lo, hi) /\ num_eq lo hi = false) /\
  (forall d', d' <> d -> brushExtents self' !! d' = brushExtents self !! d') /\
  (forall d3_event, dontUpdateSelectionOnBrush self = false ->
     selection_is_current (axisBrush d3_event d self)) /\
  (forall d3_event, dontUpdateSelectionOnBrush self = true ->
     selection (axisBrush d3_event d self) = selection self /\
     emitted (axisBrush d3_event d self) = emitted self).
Proof.
  cbn zeta. split; [| split; [| split]].
  - intros lo hi. unfold active. rewrite axisBrush_brushExtents.
    destruct sel as [[lo' hi'] |].
    + destruct (num_eq lo' hi') eqn:Heq.
      * rewrite lookup_delete_eq. split; [done |].
        intros [[= -> ->] Hne]. congruence.
      * rewrite lookup_insert_eq. split.
        -- by intros [= -> ->].
        -- by intros [[= -> ->] _].
    + rewrite lookup_insert_eq. split; [done | by intros [? _]].
  - intros d' Hne. rewrite axisBrush_brushExtents.
    destruct sel as [[lo' hi'] |]; [destruct (num_eq lo' hi') |].
    + by rewrite lookup_delete_ne.
    + by rewrite lookup_insert_ne.
    + by rewrite lookup_insert_ne.
  - intros d3_event. apply axisBrush_current.
  - intros d3_event Hflag. unfold axisBrush.
    set (self1 := match d3_event with Some _ => _ | None => self end).
    assert (Hsame : dontUpdateSelectionOnBrush self1 = true /\
                    selection self1 = selection self /\
                    emitted self1 = emitted self).
    { subst self1. destruct d3_event as [[[lo hi] |] |]; try done.
      by destruct (num_eq lo hi). }
    destruct Hsame as (-> & Hsel & Hem). done.
Qed.

(** X15: brushing an axis that had no extent and then clearing the brush
    gives back the selection the brushes stood for before, whatever was
    brushed in between. *)
Theorem brush_then_clear (sel : extent) d self :
  (forall lo hi, ~ active self d lo hi) ->
  dontUpdateSelectionOnBrush self = false ->
  selection (axisBrush (Some None) d (axisBrush (Some sel) d self)) =
  newSelection self.
Proof.
  intros Hfree Hflag.
  change (@Some (option (num * num)) None) with (@Some extent None).
  set (self1 := axisBrush (Some sel) d self).
  assert (Hflag1 : dontUpdateSelectionOnBrush self1 = false).
  { subst self1. rewrite axisBrush_event. cbn zeta. rewrite Hflag. cbn [negb].
    by match goal with
       | |- context [updateSelection false ?x] =>
           destruct (updateSelection_cases false x) as [-> | ->]
       end. }
  rewrite (axisBrush_current (@Some extent None) d self1 Hflag1).
  assert (Hdb1 : db self1 = db self /\ dimensions self1 = dimensions self /\
                 forall d' p, getYPosition self1 d' p = getYPosition self d' p).
  { subst self1. rewrite axisBrush_event. cbn zeta. rewrite Hflag. cbn [negb].
    by match goal with
       | |- context [updateSelection false ?x] =>
           destruct (updateSelection_cases false x) as [-> | ->]
       end. }
  destruct Hdb1 as (Hdb1 & Hdims1 & Hy1).
  set (self2 := axisBrush (@Some extent None) d self1).
  assert (Hb2 : brushExtents self2 = <[d := None]> (brushExtents self1))
    by apply axisBrush_brushExtents.
  assert (Hdb2 : db self2 = db self1 /\ dimensions self2 = dimensions self1 /\
                 forall d' p, getYPosition self2 d' p = getYPosition self1 d' p).
  { subst self2. rewrite axisBrush_event. cbv beta iota zeta. rewrite Hflag1.
    cbn [negb].
    by match goal with
       | |- context [updateSelection false ?x] =>
           destruct (updateSelection_cases false x) as [-> | ->]
       end. }
  destruct Hdb2 as (Hdb2 & Hdims2 & Hy2).
  assert (Hother : forall d', d' <> d ->
    brushExtents self2 !! d' = brushExtents self !! d').
  { intros d' Hne. rewrite Hb2, lookup_insert_ne by done.
    subst self1. rewrite axisBrush_brushExtents.
    destruct sel as [[lo' hi'] |]; [destruct (num_eq lo' hi') |].
    - by rewrite lookup_delete_ne.
    - by rewrite lookup_insert_ne.
    - by rewrite lookup_insert_ne. }
  apply newSelection_same_brushes.
  - by rewrite Hdb2.
  - intros d' p. by rewrite Hy2.
  - intros d' lo hi. rewrite Hdims2, Hdims1. unfold active.
    destruct (decide (d' = d)) as [-> | Hne]; [| by rewrite Hother].
    rewrite Hb2, lookup_insert_eq. split; [by intros [_ ?] |].
    intros [_ Hact]. by destruct (Hfree lo hi).
Qed.

End SelectionEvents.

Section SelectionScenarios.

Import CSV JS Ideal Pcoord Axes Scenario.

Lemma selection_ignores_axis_order_witness :
  newSelection (set_dimensions ["b"; "a"]%string chart) = newSelection chart /\
  (selection_is_current chart ->
   updateSelection false (set_dimensions ["b"; "a"]%string chart) =
   set_dimensions ["b"; "a"]%string chart).
Proof.
  apply (selection_ignores_axis_order (N:=number) (D:=linear_scale)
           ["b"; "a"]%string chart).
  apply perm_swap.
Defined.

Lemma brush_then_clear_witness :
  selection (axisBrush (Some None) "b"
               (axisBrush (Some (Some (int 0, int 50))) "b" chart)) =
  newSelection chart.
Proof.
  apply (brush_then_clear (N:=number) (D:=linear_scale)
           (Some (int 0, int 50)) "b" chart).
  - intros lo' hi' Hactive.
    change (None = Some (Some (lo', hi'))) in Hactive. discriminate Hactive.
  - reflexivity.
Defined.

End SelectionScenarios.

Section PickingFacts.

Import Codec Picking.
Local Open Scope Z_scope.

(** X16: a colour read from the canvas, with channels from 0 to 255, is
    decoded to an index from -1 to 256^3 - 2 that the encoder maps back
    to the same colour; only black is decoded to -1, and two colours with
    the same index are the same. *)
Theorem indexToRGB_colorToIndex (c : rgb) :
  valid_rgb c ->
  indexToRGB (colorToIndex c) = c /\
  -1 <= colorToIndex c <= 256 ^ 3 - 2 /\
  (colorToIndex c = -1 <-> c = RGB 0 0 0) /\
  (forall c', valid_rgb c' -> colorToIndex c' = colorToIndex c -> c' = c).
Proof.
  destruct c as [r g b]. unfold valid_rgb, is_channel, colorToIndex.
  cbn [red green blue]. intros (Hr & Hg & Hb).
  split; [| split; [| split]].
  - rewrite indexToRGB_below by lia.
    replace (r + g * 256 + b * 256 * 256 - 1 + 1) with (r + g * 256 + b * 65536)
      by lia.
    assert (Hdiv : (r + g * 256 + b * 65536) / 65536 = b)
      by (symmetry; apply (Z.div_unique _ _ b (r + g * 256)); lia).
    rewrite Hdiv.
    replace (r + g * 256 + b * 65536 - b * 256 * 256) with (r + g * 256) by lia.
    assert (Hdiv' : (r + g * 256) / 256 = g)
      by (symmetry; apply (Z.div_unique _ _ g r); lia).
    rewrite Hdiv'. f_equal. lia.
  - lia.
  - split; [intros Hi; f_equal; lia | intros [= -> -> ->]; lia].
  - intros [r' g' b'] (Hr' & Hg' & Hb'). cbn [red green blue] in *.
    intros Heq. f_equal; lia.
Qed.

Lemma indexToRGB_colorToIndex_witness :
  indexToRGB (colorToIndex (RGB 7 255 0)) = RGB 7 255 0 /\
  -1 <= colorToIndex (RGB 7 255 0) <= 256 ^ 3 - 2 /\
  (colorToIndex (RGB 7 255 0) = -1 <-> RGB 7 255 0 = RGB 0 0 0) /\
  (forall c', valid_rgb c' -> colorToIndex c' = colorToIndex (RGB 7 255 0) ->
     c' = RGB 7 255 0).
Proof.
  apply (indexToRGB_colorToIndex (RGB 7 255 0)).
  unfold valid_rgb, is_channel. simpl. lia.
Defined.

Lemma default_order_antisym (a b : Z) :
  default_order a b -> default_order b a -> a = b.
Proof.
  unfold default_order. intros Hab Hba.
  apply (inj pretty). by apply (anti_symm String.le).
Qed.

#[local] Instance default_order_trans : Transitive default_order.
Proof. intros a b c. unfold default_order. apply transitivity. Qed.

#[local] Instance default_order_total : Total default_order.
Proof. intros a b. unfold default_order. apply total, _. Qed.

Lemma sort_sorted (l : list Z) : StronglySorted default_order (sort l).
Proof. apply StronglySorted_merge_sort; apply _. Qed.

Lemma sort_count_occ (l : list Z) (w : Z) :
  count_occ Z.eq_dec (sort l) w = count_occ Z.eq_dec l w.
Proof. apply Permutation_count_occ, merge_sort_Permutation. Qed.

(** The loop on a sorted list: it returns [matched] when no value is
    counted five times, and a value counted five times otherwise; the
    count of [counting] starts from [count]. *)
Lemma count_matches_sorted (l : list Z) (matched count counting : Z) :
  StronglySorted default_order l ->
  Forall (default_order counting) l ->
  0 <= count < 5 ->
  let counted w :=
    (if decide (w = counting) then count else 0) +
    Z.of_nat (count_occ Z.eq_dec l w) in
  (count_matches l matched count counting = matched /\
   forall w, counted w < 5) \/
  5 <= counted (count_matches l matched count counting).
Proof.
  intros Hsorted. revert count counting.
  induction Hsorted as [| x l Hsorted IH Hx]; intros count counting Hle Hcount;
    cbn zeta.
  - left. split; [done |]. intros w. cbn. destruct (decide (w = counting)); lia.
  - apply Forall_cons in Hle as [Hkx Hle]. cbn [count_matches].
    destruct (Z.eqb_spec counting x) as [<- | Hne]; cbn [negb].
    + destruct (Z.eqb_spec (count + 1) 5) as [Hfive | Hless].
      * right. rewrite decide_True by done. rewrite count_occ_cons_eq by done. lia.
      * destruct (IH (count + 1) counting Hle ltac:(lia)) as [[-> Hall] | Hfound];
          cbn zeta in *.
        -- left. split; [done |]. intros w. specialize (Hall w).
           destruct (decide (w = counting)) as [-> | Hw].
           ++ rewrite count_occ_cons_eq by done. lia.
           ++ rewrite count_occ_cons_neq by done. lia.
        -- right. set (r := count_matches l matched (count + 1) counting) in *.
           destruct (decide (r = counting)) as [-> | Hr].
           ++ rewrite count_occ_cons_eq by done. lia.
           ++ rewrite count_occ_cons_neq by done. lia.
    + assert (Hgone : count_occ Z.eq_dec l counting = 0%nat).
      { apply count_occ_not_In. intros Hin.
        apply Hne, default_order_antisym; [done |].
        rewrite Forall_forall in Hx. apply Hx. by apply list_elem_of_In. }
      destruct (IH 1 x Hx ltac:(lia)) as [[-> Hall] | Hfound]; cbn zeta in *.
      * left. split; [done |]. intros w. specialize (Hall w).
        destruct (decide (w = counting)) as [-> | Hw].
        -- rewrite count_occ_cons_neq by done. lia.
        -- destruct (decide (w = x)) as [-> | Hwx].
           ++ rewrite count_occ_cons_eq by done. lia.
           ++ rewrite count_occ_cons_neq by done. lia.
      * right. set (r := count_matches l matched 1 x) in *.
        destruct (decide (r = x)) as [Hrx | Hrx].
        -- rewrite Hrx. rewrite decide_False by done.
           rewrite count_occ_cons_eq by done. rewrite Hrx in Hfound. lia.
        -- rewrite count_occ_cons_neq by done.
           destruct (decide (r = counting)); lia.
Qed.

(** What [getIndexAtPoint] returns for any indices: -1 with no index
    found five times, or an index found five times. *)
Lemma count_matches_indices (indices : list Z) :
  let r := count_matches (sort indices) (-1) 0 (-1) in
  (r = -1 /\ forall w, (count_occ Z.eq_dec indices w < 5)%nat) \/
  (5 <= count_occ Z.eq_dec indices r)%nat.
Proof.
  cbn zeta. pose proof (sort_sorted indices) as Hsorted.
  assert (Hcount : forall w,
    count_occ Z.eq_dec indices w = count_occ Z.eq_dec (sort indices) w)
    by (intros w; by rewrite sort_count_occ).
  destruct (sort indices) as [| x l].
  - left. split; [done |]. intros w. rewrite Hcount. cbn. lia.
  - assert (Hfirst : count_matches (x :: l) (-1) 0 (-1) = count_matches l (-1) 1 x).
    { cbn [count_matches]. by destruct (Z.eqb_spec (-1) x) as [<- | Hne]. }
    rewrite Hfirst. apply StronglySorted_inv in Hsorted as [Hsorted Hx].
    destruct (count_matches_sorted l (-1) 1 x Hsorted Hx ltac:(lia))
      as [[-> Hall] | Hfound]; cbn zeta in *.
    + left. split; [done |]. intros w. rewrite Hcount. specialize (Hall w).
      destruct (decide (w = x)) as [-> | Hw].
      * rewrite count_occ_cons_eq by done. lia.
      * rewrite count_occ_cons_neq by done. lia.
    + right. rewrite Hcount. set (r := count_matches l (-1) 1 x) in *.
      destruct (decide (r = x)) as [Hrx | Hrx].
      * rewrite Hrx. rewrite count_occ_cons_eq by done. rewrite Hrx in Hfound. lia.
      * rewrite count_occ_cons_neq by done. lia.
Qed.

Lemma count_occ_two (l : list Z) (a b : Z) :
  a <> b ->
  (count_occ Z.eq_dec l a + count_occ Z.eq_dec l b <= length l)%nat.
Proof.
  intros Hne. induction l as [| x l IH]; cbn [count_occ length]; [lia |].
  destruct (Z.eq_dec x a), (Z.eq_dec x b); (congruence || lia).
Qed.

Lemma count_occ_colorToIndex (l : list rgb) (c : rgb) :
  (count_occ rgb_eq_dec l c <=
   count_occ Z.eq_dec (map colorToIndex l) (colorToIndex c))%nat.
Proof.
  induction l as [| x l IH]; cbn [count_occ map]; [lia |].
  destruct (rgb_eq_dec x c) as [-> | Hne].
  - destruct (Z.eq_dec (colorToIndex c) (colorToIndex c)); [lia | done].
  - destruct (Z.eq_dec (colorToIndex x) (colorToIndex c)); lia.
Qed.

Lemma pixels_length (colorData : list Z) :
  length colorData = 36%nat -> length (pixels colorData) = 9%nat.
Proof.
  intros Hlen.
  do 37 (destruct colorData as [| ? colorData]; [discriminate Hlen || done |]).
  discriminate Hlen.
Qed.

(** X17: the index picked at a point is decided by majority among the
    nine pixels around it: an index decoded from five or more of them is
    the one returned, so is the index of a colour that five or more of
    them have, and when the result is not -1 it was decoded from five or
    more pixels.  The order in which the pixels are sorted, as strings,
    does not matter. *)
Theorem getIndexAtPoint_majority (colorData : list Z) :
  length colorData = 36%nat ->
  let indices := map colorToIndex (pixels colorData) in
  (forall w, (5 <= count_occ Z.eq_dec indices w)%nat ->
     getIndexAtPoint colorData = w) /\
  (forall c, (5 <= count_occ rgb_eq_dec (pixels colorData) c)%nat ->
     getIndexAtPoint colorData = colorToIndex c) /\
  (getIndexAtPoint colorData <> -1 ->
   (5 <= count_occ Z.eq_dec indices (getIndexAtPoint colorData))%nat).
Proof.
  intros Hlen indices.
  assert (Hnine : length indices = 9%nat)
    by (unfold indices; by rewrite length_map, pixels_length).
  assert (Hmajor : forall w, (5 <= count_occ Z.eq_dec indices w)%nat ->
    getIndexAtPoint colorData = w).
  { intros w Hw. unfold getIndexAtPoint. fold indices.
    destruct (count_matches_indices indices) as [[_ Hall] | Hfound]; cbn zeta in *.
    - specialize (Hall w). lia.
    - set (r := count_matches (sort indices) (-1) 0 (-1)) in *.
      destruct (decide (r = w)) as [| Hne]; [done |].
      pose proof (count_occ_two indices r w Hne). lia. }
  split; [done |]. split.
  - intros c Hc. apply Hmajor.
    pose proof (count_occ_colorToIndex (pixels colorData) c). unfold indices. lia.
  - intros Hhit. unfold getIndexAtPoint in *. fold indices in Hhit |- *.
    by destruct (count_matches_indices indices) as [[? _] | Hfound].
Qed.

Lemma getIndexAtPoint_majority_witness :
  let colorData :=
    [ 5; 0; 0; 255;  5; 0; 0; 255;  0; 0; 0; 0;
      5; 0; 0; 255;  9; 1; 0; 255;  5; 0; 0; 255;
      0; 0; 0; 0;    5; 0; 0; 255;  9; 1; 0; 255 ] in
  let indices := map colorToIndex (pixels colorData) in
  (forall w, (5 <= count_occ Z.eq_dec indices w)%nat ->
     getIndexAtPoint colorData = w) /\
  (forall c, (5 <= count_occ rgb_eq_dec (pixels colorData) c)%nat ->
     getIndexAtPoint colorData = colorToIndex c) /\
  (getIndexAtPoint colorData <> -1 ->
   (5 <= count_occ Z.eq_dec indices (getIndexAtPoint colorData))%nat).
Proof.
  intros colorData. apply (getIndexAtPoint_majority colorData). reflexivity.
Defined.

(** The point of the example lies on the path of pick index 4. *)
Example getIndexAtPoint_on_path :
  getIndexAtPoint
    [ 5; 0; 0; 255;  5; 0; 0; 255;  0; 0; 0; 0;
      5; 0; 0; 255;  9; 1; 0; 255;  5; 0; 0; 255;
      0; 0; 0; 0;    5; 0; 0; 255;  9; 1; 0; 255 ] = 4.
Proof. reflexivity. Qed.

End PickingFacts.

Section DrawingFacts.

Import Canvas.

Implicit Types (self : Canvas.t) (selection : list nat).

Lemma drawn_S n selection r :
  selection !! n = Some r ->
  drawn (S n) selection =
  drawn n selection ++ [Stroke r (Codec.indexToColor (Z.of_nat n))].
Proof.
  intros Hr. unfold drawn. rewrite (take_S_r _ _ _ Hr), imap_app. cbn.
  rewrite length_take_le by (apply lookup_lt_Some in Hr; lia).
  by rewrite Nat.add_0_r.
Qed.

Lemma drawn_all n selection :
  (length selection <= n)%nat -> drawn n selection = drawn (length selection) selection.
Proof. intros Hn. unfold drawn. by rewrite !take_ge by lia. Qed.

(** The state after [j] rounds of the loop of the interval callback. *)
Lemma poll_rounds j selection self :
  Nat.iter j poll (redrawSelectedPaths selection self) =
  match j with
  | O => redrawSelectedPaths selection self
  | S _ =>
      if (j <=? length selection)%nat
      then Build (Some (Generator selection j true)) true (drawn j selection)
      else Build None false (drawn (length selection) selection)
  end.
Proof.
  induction j as [| j IH]; [done |].
  rewrite Nat.iter_succ, IH. clear IH. destruct j as [| j].
  - unfold poll, next. cbn.
    destruct selection as [| r selection]; cbn; [done |]. done.
  - destruct (Nat.leb_spec (S j) (length selection)) as [Hle | Hgt].
    + unfold poll, next. cbn [drawIterator queue i started loading strokes].
      destruct (selection !! S j) as [r |] eqn:Hr.
      * assert (S (S j) <= length selection)%nat
          by (apply lookup_lt_Some in Hr; lia).
        destruct (Nat.leb_spec (S (S j)) (length selection)); [| lia].
        by rewrite (drawn_S (S j) selection r Hr).
      * apply lookup_ge_None in Hr.
        destruct (Nat.leb_spec (S (S j)) (length selection)); [lia |].
        cbn. f_equal. apply drawn_all. lia.
    + destruct (Nat.leb_spec (S (S j)) (length selection)); [lia | done].
Qed.

(** X18: after [redrawSelectedPaths] and [k] runs of the interval
    callback, the first [25 k] paths of the selection are on the
    canvases, in the order of the selection, the path at position [i] in
    the colour of pick index [i].  The iterator is gone and the indicator
    hidden once [25 k] exceeds the number of paths; until then, from the
    first run on, the indicator shows, also when every path is drawn
    already. *)
Theorem drawing_schedule k selection self :
  let after := Nat.iter k tick (redrawSelectedPaths selection self) in
  strokes after = drawn (25 * k) selection /\
  ((length selection < 25 * k)%nat ->
   drawIterator after = None /\ loading after = false) /\
  ((0 < k)%nat -> (25 * k <= length selection)%nat ->
   drawIterator after = Some (Generator selection (25 * k) true) /\
   loading after = true).
Proof.
  cbn zeta.
  assert (Hrounds : Nat.iter k tick (redrawSelectedPaths selection self) =
    Nat.iter (k * 25) poll (redrawSelectedPaths selection self))
    by (symmetry; unfold tick; apply Nat.iter_mul).
  rewrite Hrounds, poll_rounds. replace (25 * k)%nat with (k * 25)%nat by lia.
  destruct (k * 25)%nat as [| j] eqn:Hj.
  - split; [done |]. split; intros; lia.
  - destruct (Nat.leb_spec (S j) (length selection)) as [Hle | Hgt]; cbn.
    + split; [done |]. split; [lia | done].
    + split; [by rewrite (drawn_all (S j)) by lia |]. split; [done | lia].
Qed.

End DrawingFacts.

Section PointerFacts.

Import Pointer.

Implicit Types (self : Pointer.t) (m : move) (ms : list move).

Lemma loose_ne_different (a b : target) : loose_ne a b = true -> a <> b.
Proof.
  destruct a, b; cbn; try done. intros Hne [= ->].
  by rewrite Nat.eqb_refl in Hne.
Qed.

Lemma tidy_event self v :
  tidy self -> lastMouseMove self <> v ->
  (mouseover self = [] -> v <> Null) ->
  tidy (Build v (mouseover self ++ [v])).
Proof.
  intros (Hlast & Hadjacent & Hhead) Hne Hfirst. unfold tidy. cbn.
  split; [by rewrite last_snoc |]. split.
  - intros k a b Ha Hb.
    apply lookup_lt_Some in Hb as Hlt. rewrite length_app in Hlt. cbn in Hlt.
    destruct (decide (S k < length (mouseover self))%nat) as [Hin | Hout].
    + rewrite lookup_app_l in Ha, Hb by lia. by apply (Hadjacent k a b).
    + assert (Hk : S k = length (mouseover self)) by lia.
      rewrite lookup_app_r, <- Hk, Nat.sub_diag in Hb by lia.
      injection Hb as <-.
      rewrite lookup_app_l in Ha by lia.
      assert (Ha' : last (mouseover self) = Some a)
        by (by rewrite last_lookup, <- Hk).
      rewrite Ha' in Hlast. cbn in Hlast. by rewrite <- Hlast.
  - destruct (mouseover self) as [| e es] eqn:Hes; cbn.
    + intros [= ->]. by apply Hfirst.
    + exact Hhead.
Qed.

Lemma mousemove_tidy m self : tidy self -> tidy (mousemove m self).
Proof.
  intros Htidy. unfold mousemove.
  destruct (Qle_bool 0 (x m) && Qle_bool 0 (y m)); [| done]. cbn zeta.
  destruct (negb (Picking.getIndexAtPoint (colorData m) =? -1)%Z).
  - destruct (loose_ne _ _) eqn:Hne; [| done].
    apply tidy_event; [done | by apply loose_ne_different |].
    intros Hnone. destruct Htidy as (Hlast & _). rewrite Hnone in Hlast.
    cbn in Hlast. rewrite Hlast in Hne. by destruct (selected_at _ _).
  - destruct (lastMouseMove self) eqn:Hlast; [done | |].
    + apply tidy_event; [done | by rewrite Hlast |].
      intros Hnone. destruct Htidy as (Hlast' & _). rewrite Hnone in Hlast'.
      cbn in Hlast'. congruence.
    + apply tidy_event; [done | by rewrite Hlast |].
      intros Hnone. destruct Htidy as (Hlast' & _). rewrite Hnone in Hlast'.
      cbn in Hlast'. congruence.
Qed.

(** X19: whatever the moves of the mouse, the listener never sends two
    [mouseover] events in a row that carry the same thing, its first
    event does not carry null, and [lastMouseMove] is what the last event
    carried. *)
Theorem mouseover_never_repeats ms :
  let self := mousemoves ms initial in
  lastMouseMove self = default Null (last (mouseover self)) /\
  (forall k a b, mouseover self !! k = Some a ->
     mouseover self !! S k = Some b -> a <> b) /\
  head (mouseover self) <> Some Null.
Proof.
  cbn zeta. change (tidy (mousemoves ms initial)).
  assert (Hinitial : tidy initial).
  { unfold tidy. cbn. split; [done |]. split; [| done]. by intros k a b Ha. }
  revert Hinitial. generalize initial. unfold mousemoves.
  induction ms as [| m ms IH]; intros self Htidy; cbn [fold_left]; [done |].
  by apply IH, mousemove_tidy.
Qed.

End PointerFacts.

Section AxisOrderFacts.

Context {N : JSNumber}.
Import JS AxisOrder.

Lemma existsb_false {A : Type} (f : A -> bool) (l : list A) :
  existsb f l = false <-> Forall (fun a => f a = false) l.
Proof.
  induction l as [| a l IH]; cbn; [by split |].
  rewrite Forall_cons, orb_false_iff, IH. done.
Qed.

Lemma find_None {A : Type} (f : A -> bool) (l : list A) :
  List.find f l = None <-> Forall (fun a => f a = false) l.
Proof.
  induction l as [| a l IH]; cbn; [by split |].
  rewrite Forall_cons. destruct (f a); [| by rewrite IH; intuition].
  split; [done | by intros [? _]].
Qed.

Lemma undefined_key_None (data : CSV.grid) :
  undefined_key data = None <->
  Forall (fun row => exists category value rest,
            row = Some category :: Some value :: rest) data.
Proof.
  induction data as [| row data IH]; cbn [undefined_key]; [by split |].
  rewrite Forall_cons.
  destruct row as [| [category |] [| [value |] rest]]; cbn;
    try (split; [done | by intros [(? & ? & ? & ?) _]]).
  rewrite IH. split; [| by intros [_ ?]].
  intros Hrest. split; [by exists category, value, rest | done].
Qed.

(** X20: [checkAxisDataErrors] finds no error exactly in a file of at
    least two lines, all as long as the first, whose header names a
    dimension of the database in every column from the third on, whose
    lines all begin with a category and a value, and whose other cells,
    below the header, are empty or convert to a number. *)
Theorem checkAxisDataErrors_accepts (data : CSV.grid) (dimensions : list string) :
  checkAxisDataErrors data dimensions = None <->
  (2 <= length data)%nat /\
  Forall (fun row => length row = length (default [] (data !! 0%nat))) data /\
  Forall (fun c => exists s, c = Some s /\ s ∈ dimensions)
    (drop 2 (default [] (data !! 0%nat))) /\
  Forall (fun row => exists category value rest,
            row = Some category :: Some value :: rest) data /\
  Forall (fun row =>
            Forall (fun c => c = None \/ isNaN (of_cell c) = false) (drop 2 row))
    (drop 1 data).
Proof.
  unfold checkAxisDataErrors. cbv zeta.
  destruct (Nat.ltb_spec (length data) 2) as [Hshort | Hlong];
    [split; [done | intros [? _]; lia] |].
  destruct (existsb _ data) eqn:Hwidth.
  { split; [done |]. intros (_ & Hall & _).
    apply not_false_iff_true in Hwidth. destruct Hwidth.
    apply existsb_false. eapply Forall_impl; [exact Hall |].
    intros row Hrow. cbn beta. rewrite Hrow. by rewrite Nat.eqb_refl. }
  apply existsb_false in Hwidth.
  assert (Hwidth' : Forall
    (fun row => length row = length (default [] (data !! 0%nat))) data).
  { eapply Forall_impl; [exact Hwidth |]. intros row Hrow. cbn beta in Hrow.
    by apply negb_false_iff, Nat.eqb_eq in Hrow. }
  destruct (List.find _ (drop 2 _)) as [c |] eqn:Hfind.
  { split; [done |]. intros (_ & _ & Hnames & _).
    apply find_some in Hfind as [Hin Hc]. apply list_elem_of_In in Hin.
    rewrite Forall_forall in Hnames.
    destruct (Hnames c Hin) as (name & -> & Hname). cbn in Hc.
    by rewrite bool_decide_eq_true_2 in Hc. }
  apply find_None in Hfind.
  assert (Hnames : Forall (fun c => exists s, c = Some s /\ s ∈ dimensions)
    (drop 2 (default [] (data !! 0%nat)))).
  { eapply Forall_impl; [exact Hfind |]. intros [name |] Hc; cbn in Hc; [| done].
    exists name. split; [done |].
    by apply negb_false_iff, bool_decide_eq_true in Hc. }
  destruct (undefined_key data) as [error |] eqn:Hkeys.
  { split; [done |]. intros (_ & _ & _ & Hrows & _).
    apply undefined_key_None in Hrows. congruence. }
  apply undefined_key_None in Hkeys.
  destruct (existsb _ (drop 1 data)) eqn:Hvalues.
  { split; [done |]. intros (_ & _ & _ & _ & Hall).
    apply not_false_iff_true in Hvalues. destruct Hvalues.
    apply existsb_false. eapply Forall_impl; [exact Hall |].
    intros row Hrow. cbn beta. apply existsb_false.
    eapply Forall_impl; [exact Hrow |]. intros c [-> | Hc]; cbn beta;
      [by rewrite andb_false_r | by rewrite Hc]. }
  split; [| done]. intros _.
  repeat (split; [done |]).
  apply existsb_false in Hvalues. eapply Forall_impl; [exact Hvalues |].
  intros row Hrow. cbn beta in Hrow. apply existsb_false in Hrow.
  eapply Forall_impl; [exact Hrow |]. intros [cell |] Hc; cbn beta in Hc;
    [right | by left].
  cbn in Hc. by rewrite andb_true_r in Hc.
Qed.

End AxisOrderFacts.

Section PathFacts.

Context {N : JSNumber}.
Import JS Path.

Implicit Types (d : gmap string value) (dims section : list string).

Lemma ended_run_grows d dims section p :
  ended_run d dims section -> ended_run d (dims ++ [p]) section.
Proof.
  intros (Hne & Hall & before & q & after & -> & Hbefore & Hq).
  split; [done |]. split; [done |].
  exists before, q, (after ++ [p]). split; [| done].
  by rewrite <- !app_assoc.
Qed.

Lemma ended_run_run d dims section :
  ended_run d dims section -> run_of d dims section.
Proof.
  intros (Hne & Hall & before & q & after & -> & Hbefore & Hq).
  split; [done |]. split; [done |].
  exists before, (q :: after). split; [done |]. split; [done |].
  by intros p [= <-].
Qed.

(** What the loop keeps true, [seen] being the dimensions gone through. *)
Lemma split_runs d dims seen currentSection finished :
  concat finished ++ currentSection = List.filter (has_value d) seen ->
  Forall (ended_run d seen) finished ->
  Forall (fun p => has_value d p = true) currentSection ->
  (exists before, seen = before ++ currentSection /\
     forall p, last before = Some p -> has_value d p = false) ->
  exists finished' currentSection',
    split d dims currentSection finished = (finished', currentSection') /\
    concat finished' ++ currentSection' = List.filter (has_value d) (seen ++ dims) /\
    Forall (ended_run d (seen ++ dims)) finished' /\
    Forall (fun p => has_value d p = true) currentSection' /\
    exists before, seen ++ dims = before ++ currentSection' /\
      forall p, last before = Some p -> has_value d p = false.
Proof.
  revert seen currentSection finished.
  induction dims as [| p dims IH];
    intros seen currentSection finished Hconcat Hdone Hcurrent (before & Hseen & Hbefore).
  - exists finished, currentSection. rewrite app_nil_r.
    repeat (split; [done |]). by exists before.
  - cbn [split]. replace (seen ++ p :: dims) with ((seen ++ [p]) ++ dims)
      by (by rewrite <- app_assoc).
    destruct (has_value d p) eqn:Hp.
    + apply IH.
      * rewrite List.filter_app. cbn. rewrite Hp, <- Hconcat.
        by rewrite app_assoc.
      * eapply Forall_impl; [exact Hdone |]. intros section.
        apply ended_run_grows.
      * apply Forall_app. split; [done |]. by constructor.
      * exists before. split; [| done]. by rewrite Hseen, <- app_assoc.
    + destruct currentSection as [| q currentSection]; cbn [length Nat.eqb negb].
      * apply IH.
        -- rewrite List.filter_app. cbn. rewrite Hp, !app_nil_r.
           by rewrite app_nil_r in Hconcat.
        -- eapply Forall_impl; [exact Hdone |]. intros section.
           apply ended_run_grows.
        -- done.
        -- exists (seen ++ [p]). split; [by rewrite app_nil_r |].
           intros p'. rewrite last_snoc. by intros [= <-].
      * apply IH.
        -- rewrite List.filter_app. cbn. rewrite Hp, !app_nil_r, <- Hconcat.
           rewrite concat_app. cbn. by rewrite app_nil_r.
        -- apply Forall_app. split.
           ++ eapply Forall_impl; [exact Hdone |]. intros section.
              apply ended_run_grows.
           ++ constructor; [| done]. split; [done |]. split; [done |].
              exists before, p, []. split; [| done].
              by rewrite Hseen, <- app_assoc.
        -- done.
        -- exists (seen ++ [p]). split; [by rewrite app_nil_r |].
           intros p'. rewrite last_snoc. by intros [= <-].
Qed.

(** X21: the sections that [getPath] draws are the runs of dimensions
    at which the data point has a value: put together they are the
    dimensions with a value, in their order; none is empty; each is a
    stretch of dimensions next to each other, and the dimension right
    before it and the one right after it, if there is one, have no
    value. *)
Theorem getPath_sections d dims :
  concat (sections d dims) = List.filter (has_value d) dims /\
  Forall (run_of d dims) (sections d dims).
Proof.
  unfold sections.
  destruct (split_runs d dims [] [] []) as
    (finished & currentSection & -> & Hconcat & Hdone & Hcurrent & before & Hdims & Hbefore);
    [done | done | done | by exists [] |].
  cbn [app] in *.
  assert (Hruns : Forall (run_of d dims) finished)
    by (eapply Forall_impl; [exact Hdone |]; intros section; apply ended_run_run).
  destruct currentSection as [| q currentSection]; cbn [length Nat.ltb Nat.leb].
  - rewrite app_nil_r in Hconcat. done.
  - split; [by rewrite concat_app; cbn; rewrite app_nil_r |].
    apply Forall_app. split; [done |]. constructor; [| done].
    split; [done |]. split; [done |].
    exists before, []. split; [by rewrite app_nil_r |]. split; [done | done].
Qed.

End PathFacts.

Section ReadingMinimal.

Import CSV Minimal.

Lemma unquoted_body_plain s rest :
  all_plain s = true -> Written.at_separator rest ->
  unquoted_body (s +:+ rest) = (s, rest).
Proof.
  intros Hs Hrest. induction s as [| c s IH].
  - change (EmptyString +:+ rest) with rest.
    destruct rest as [| c r]; [done |]. cbn in *. by rewrite Hrest.
  - cbn in Hs. apply andb_prop in Hs as [Hc Hs].
    apply andb_prop in Hc as [Hsep _]. apply negb_true_iff in Hsep.
    rewrite app_cons. cbn [unquoted_body]. by rewrite Hsep, IH.
Qed.

Lemma unescape_plain s : all_plain s = true -> unescape s = s.
Proof.
  induction s as [| a t IH]; [done |]. intros Hs.
  cbn in Hs. apply andb_prop in Hs as [Ha Ht].
  apply andb_prop in Ha as [_ Ha]. apply negb_true_iff in Ha.
  destruct t as [| b s']; [done |].
  change (unescape (String a (String b s')))
    with (if Ascii.eqb a DQUOTE && Ascii.eqb b DQUOTE
          then String DQUOTE (unescape s')
          else String a (unescape (String b s'))).
  rewrite Ha. cbn [andb]. by rewrite IH.
Qed.

(** The value matched at the head of the text of a cell, and what it
    decodes to. *)
Lemma match_value_minimal c rest :
  Written.at_separator rest ->
  exists cap, match_value (cell_text c +:+ rest) = (cap, rest) /\ decode cap = c.
Proof.
  intros Hrest. destruct c as [s |]; cbn [cell_text].
  - destruct (plain s) eqn:Hplain;
      [| apply (match_value_cell_text (Some s) rest Hrest)].
    unfold plain in Hplain. apply andb_prop in Hplain as [Hne Hs].
    apply negb_true_iff in Hne.
    exists (Unquoted s). split.
    + destruct s as [| c r]; [done |]. rewrite app_cons. unfold match_value.
      cbn in Hs. apply andb_prop in Hs as [Hc Hr].
      apply andb_prop in Hc as [Hsep Hquote]. apply negb_true_iff in Hquote.
      rewrite Hquote. rewrite <- app_cons.
      rewrite unquoted_body_plain; [done | | done].
      cbn [all_plain]. unfold is_plain_char. by rewrite Hsep, Hquote, Hr.
    + cbn. by rewrite Hne, unescape_plain.
  - apply (match_value_cell_text None rest Hrest).
Qed.

Lemma cell_text_head s :
  exists c r, cell_text (Some s) = String c r /\ is_separator c = false.
Proof.
  cbn [cell_text]. destruct (plain s) eqn:Hplain.
  - unfold plain in Hplain. apply andb_prop in Hplain as [Hne Hs].
    destruct s as [| c r]; [done |]. exists c, r. split; [done |].
    cbn in Hs. apply andb_prop in Hs as [Hc _].
    apply andb_prop in Hc as [Hsep _]. by apply negb_true_iff in Hsep.
  - by eexists _, _.
Qed.

(** One turn of the loop on a comma or a line end and the cell after
    it. *)
Lemma parse_loop_minimal_cell fuel (delim : string) c rest data :
  delim = String COMMA EmptyString \/ delim = eol Unix \/ delim = eol Windows ->
  Written.at_separator rest ->
  data <> [] ->
  (String.length (delim +:+ (cell_text c +:+ rest)) < fuel)%nat ->
  parse_loop fuel false (delim +:+ (cell_text c +:+ rest)) data =
  parse_loop fuel false rest
    (if String.eqb delim (String COMMA EmptyString)
     then match last data with
          | Some row => <[pred (length data) := row ++ [c]]> data
          | None => data
          end
     else data ++ [[c]]).
Proof.
  intros Hdelim Hrest Hdata Hfuel. destruct fuel as [| fuel]; [lia |].
  destruct (match_value_minimal c rest Hrest) as (cap & Hv & Hdec).
  assert (Hex : exec false (delim +:+ (cell_text c +:+ rest)) =
                Some (Match delim cap, rest)).
  { destruct Hdelim as [-> | [-> | ->]].
    - rewrite app_cons. cbn [exec].
      change (match_delimiter false (String COMMA (EmptyString +:+ (cell_text c +:+ rest))))
        with (Some (String COMMA EmptyString, cell_text c +:+ rest)).
      cbv beta iota. by rewrite Hv.
    - cbn [eol]. rewrite app_cons. cbn [exec].
      change (match_delimiter false (String LF (EmptyString +:+ (cell_text c +:+ rest))))
        with (Some (String LF EmptyString, cell_text c +:+ rest)).
      cbv beta iota. by rewrite Hv.
    - cbn [eol]. rewrite !app_cons. cbn [exec].
      change (match_delimiter false
                (String CR (String LF (EmptyString +:+ (cell_text c +:+ rest)))))
        with (Some (String CR (String LF EmptyString), cell_text c +:+ rest)).
      cbv beta iota. by rewrite Hv. }
  assert (Hadd : add_match (Match delim cap) data =
    Returns (if String.eqb delim (String COMMA EmptyString)
             then match last data with
                  | Some row => <[pred (length data) := row ++ [c]]> data
                  | None => data
                  end
             else data ++ [[c]])).
  { unfold add_match. cbn [delimiter captured]. rewrite Hdec.
    destruct (String.eqb delim (String COMMA EmptyString)).
    - unfold push_cell. destruct (last data) eqn:Hlast; [done |].
      by apply last_None in Hlast.
    - unfold push_cell. rewrite last_snoc.
      rewrite length_app, Nat.add_1_r. cbn [pred length].
      rewrite insert_app_r_alt by lia. by rewrite Nat.sub_diag. }
  rewrite (parse_loop_step _ _ _ _ _ _ _ Hex Hadd). cbn [andb].
  rewrite !length_app_string in Hfuel.
  assert (Hlen : (1 <= String.length delim)%nat)
    by (destruct Hdelim as [-> | [-> | ->]]; cbn; lia).
  apply parse_loop_enough_fuel; [done | lia | lia].
Qed.

Lemma at_separator_minimal e cs rows :
  Written.at_separator (more_cells cs +:+ more_lines e rows).
Proof.
  destruct cs as [| c cs]; [| done].
  destruct rows as [| row rows]; [done |]. by destruct e.
Qed.

(** The loop over the rest of a line. *)
Lemma parse_loop_minimal_cells fuel cs rest init row :
  Written.at_separator rest ->
  (String.length (more_cells cs +:+ rest) < fuel)%nat ->
  parse_loop fuel false (more_cells cs +:+ rest) (init ++ [row]) =
  parse_loop fuel false rest (init ++ [row ++ cs]).
Proof.
  intros Hrest. revert row.
  induction cs as [| c cs IH]; intros row Hfuel; cbn [more_cells] in *.
  - by rewrite app_nil_r.
  - change (String COMMA (cell_text c +:+ more_cells cs))
      with (String COMMA EmptyString +:+ (cell_text c +:+ more_cells cs)) in *.
    rewrite !app_assoc_string in *.
    assert (Hsep : Written.at_separator (more_cells cs +:+ rest))
      by (destruct cs; done).
    rewrite (parse_loop_minimal_cell fuel _ c _ (init ++ [row]) (or_introl eq_refl) Hsep);
      [| by destruct init | done].
    cbn [String.eqb Ascii.eqb Bool.eqb]. change (Ascii.eqb COMMA COMMA) with true.
    cbv iota.
    rewrite last_snoc, length_app, Nat.add_1_r. cbn [pred length].
    rewrite insert_app_r_alt by lia. rewrite Nat.sub_diag. cbn [insert list_insert].
    rewrite IH.
    + by rewrite <- app_assoc.
    + rewrite !length_app_string in Hfuel. rewrite length_app_string. lia.
Qed.

Lemma eol_not_comma e : String.eqb (eol e) (String COMMA EmptyString) = false.
Proof. by destruct e. Qed.

(** The loop over the lines after the first. *)
Lemma parse_loop_minimal_lines fuel e rows data :
  Forall (fun row => row <> []) rows ->
  data <> [] ->
  (String.length (more_lines e rows) < fuel)%nat ->
  parse_loop fuel false (more_lines e rows) data = Returns (data ++ rows).
Proof.
  intros Hrows. revert data.
  induction Hrows as [| row rows Hrow Hrows IH]; intros data Hdata Hfuel.
  - destruct fuel as [| fuel]; [cbn in Hfuel; lia |]. cbn. by rewrite app_nil_r.
  - destruct row as [| c cs]; [done |]. cbn [more_lines line_text] in *.
    rewrite (app_assoc_string (cell_text c)) in *.
    rewrite (parse_loop_minimal_cell fuel (eol e) c _ data);
      [| destruct e; auto | apply at_separator_minimal | done | done].
    rewrite eol_not_comma. rewrite !length_app_string in Hfuel.
    rewrite (parse_loop_minimal_cells fuel cs (more_lines e rows) data [c]);
      [| by destruct rows; [| destruct e] | rewrite length_app_string; lia].
    rewrite IH; [| by destruct data | lia].
    by rewrite <- app_assoc.
Qed.

(** The loop on the text of a grid. *)
Lemma parse_loop_grid_text e s cs rows :
  Forall (fun row => row <> []) rows ->
  parse_loop (S (String.length (grid_text e ((Some s :: cs) :: rows)))) true
    (grid_text e ((Some s :: cs) :: rows)) [] =
  Returns ((Some s :: cs) :: rows).
Proof.
  intros Hrows. cbn [grid_text line_text].
  rewrite (app_assoc_string (cell_text (Some s))).
  set (rest := more_cells cs +:+ more_lines e rows).
  assert (Hrest : Written.at_separator rest) by apply at_separator_minimal.
  destruct (match_value_minimal (Some s) rest Hrest) as (cap & Hv & Hdec).
  destruct (cell_text_head s) as (c & r & Hhead & Hsep).
  assert (Hex : exec true (cell_text (Some s) +:+ rest) =
                Some (Match EmptyString cap, rest)).
  { rewrite Hhead, app_cons. cbn [exec]. unfold match_delimiter.
    unfold is_separator in Hsep. apply orb_false_elim in Hsep as [Hsep Hlf].
    apply orb_false_elim in Hsep as [Hcomma Hcr].
    rewrite Hcomma, Hcr, Hlf. rewrite <- app_cons, <- Hhead. by rewrite Hv. }
  assert (Hadd : add_match (Match EmptyString cap) [] = Returns [[Some s]]).
  { unfold add_match. cbn [delimiter captured String.eqb]. by rewrite Hdec. }
  rewrite (parse_loop_step _ _ _ _ _ _ _ Hex Hadd).
  assert (Hlen : (String.length rest <
                  String.length (cell_text (Some s) +:+ rest))%nat).
  { rewrite length_app_string, Hhead. cbn. lia. }
  destruct (Nat.eqb_spec (String.length rest)
              (String.length (cell_text (Some s) +:+ rest))) as [Heq | _];
    [rewrite Heq in Hlen; by apply Nat.lt_irrefl in Hlen |].
  cbn [andb]. unfold rest.
  rewrite (parse_loop_minimal_cells _ cs (more_lines e rows) [] [Some s]);
    [| by destruct rows; [| destruct e] | fold rest; exact Hlen].
  rewrite parse_loop_minimal_lines; [done | done | done |].
  rewrite !length_app_string, Hhead. cbn [String.length]. lia.
Qed.

Lemma grid_text_line_end e row rows :
  grid_text e ((row :: rows) ++ [[None]]) = grid_text e (row :: rows) +:+ eol e.
Proof.
  cbn [app grid_text]. rewrite app_assoc_string. f_equal.
  induction rows as [| row' rows IH]; cbn [app more_lines line_text cell_text].
  - by destruct e.
  - rewrite !app_assoc_string. by rewrite IH.
Qed.

(** X22: a readable grid, written with a string between quotes only
    when it is empty or holds a comma, a double quote or a line break,
    and with the line ends of Unix or of Windows, is read back by the
    parser as it is; so is the text with a line end after its last
    line. *)
Theorem parseCSV_minimal_text e data :
  Written.readable data ->
  parseCSV (grid_text e data) = Returns data /\
  parseCSV (grid_text e data +:+ eol e) = Returns data.
Proof.
  intros (Hrows & (s & cs & rows & ->) & Hlast).
  assert (Hnonempty : forall data',
    (exists rows', data' = (Some s :: cs) :: rows') ->
    String.eqb (grid_text e data') EmptyString = false).
  { intros data' (rows' & ->). cbn [grid_text line_text].
    destruct (cell_text_head s) as (c & r & -> & _). by rewrite !app_cons. }
  inversion_clear Hrows as [| ? ? _ Hrows'].
  split.
  - unfold parseCSV. rewrite Hnonempty by by eexists.
    rewrite parse_loop_grid_text by done. run_bind. f_equal.
    unfold drop_stray_line.
    destruct (last ((Some s :: cs) :: rows)) as [[| [x |] [| c row]] |]; done.
  - rewrite <- grid_text_line_end. unfold parseCSV.
    rewrite Hnonempty by by eexists.
    change (((Some s :: cs) :: rows) ++ [[None]])
      with ((Some s :: cs) :: (rows ++ [[None]])).
    rewrite parse_loop_grid_text
      by (apply Forall_app; split; [done | by repeat constructor]).
    run_bind. f_equal. unfold drop_stray_line.
    change ((Some s :: cs) :: (rows ++ [[None]]))
      with (((Some s :: cs) :: rows) ++ [[None]]).
    rewrite last_snoc, length_app, Nat.add_1_r. cbn [length pred].
    destruct (Nat.ltb_spec 1 (S (S (length rows)))); [| lia].
    by apply take_app_length'.
Qed.

Lemma parseCSV_minimal_text_witness :
  parseCSV (grid_text Windows
    [[Some "a"; Some "b c"]; [None; Some "x,y"]; [Some ""; None]]%string)
  = Returns [[Some "a"; Some "b c"]; [None; Some "x,y"]; [Some ""; None]]%string /\
  parseCSV (grid_text Windows
    [[Some "a"; Some "b c"]; [None; Some "x,y"]; [Some ""; None]]%string
    +:+ eol Windows)
  = Returns [[Some "a"; Some "b c"]; [None; Some "x,y"]; [Some ""; None]]%string.
Proof.
  apply parseCSV_minimal_text. split; [| split].
  - repeat constructor; discriminate.
  - by eexists _, _, _.
  - discriminate.
Defined.

End ReadingMinimal.

Section ArrayFacts.

Import Pcoord.

(** X23: [arraysEqual] tells exactly whether two arrays of indices hold
    the same elements in the same order. *)
Theorem arraysEqual_spec (a b : list nat) : arraysEqual a b = true <-> a = b.
Proof.
  split; [apply arraysEqual_true |]. intros ->. apply arraysEqual_refl.
Qed.

End ArrayFacts.
